(** * DancingStar: semi-graphic conversion and Z80 table export

    A shallow embedding of the image-to-hardware-format pipeline of the
    editor: [SemiGraphicConverter] (semi-graphic-converter.ts) turns an RGBA
    raster into a grid of 2x4-dot blocks, [Z80Exporter] (z80-exporter.ts)
    prints a grid as two tables of DB lines.

    Conventions of the embedding:
    - sizes, loop counters and array indices are [nat]; channel values,
      packed colours, patterns and colour codes are [Z];
    - a JavaScript array read [a[i]] is the list lookup [a !! i]; what the
      source does with an [undefined] read is written out at each use;
    - a function that can throw returns [option], [None] being the throw;
    - a [for] loop over [0 .. n-1] is a fold (or a map, when the body only
      pushes) over [seq 0 n]. *)

From Stdlib Require Import ZArith String Ascii List Lia.
From Stdlib Require Import DecimalString HexadecimalString.
From stdpp Require Import base option list strings sorting.

Local Open Scope Z_scope.

(** ** JavaScript odds and ends *)

Module JS.

(** [Math.ceil(a / b)] on non-negative integers. *)
Definition ceil_div (a b : nat) : nat := ((a + (b - 1)) / b)%nat.

(** The values taken by [i] in [for (let i = 0; i < n; i += step)]. *)
Definition range_step (n step : nat) : list nat :=
  map (λ k, (k * step)%nat) (seq 0 (ceil_div n step)).

(** [ToInt32]: the operand conversion of [>>] and [&]. *)
Definition toInt32 (v : Z) : Z := (v + 2 ^ 31) mod 2 ^ 32 - 2 ^ 31.

(** [a >> n] and [a & m] on numbers. *)
Definition sar (v : Z) (n : Z) : Z := Z.shiftr (toInt32 v) n.
Definition band (v m : Z) : Z := Z.land (toInt32 v) (toInt32 m).

(** The horizontal tab written [\t] in the source's template strings. *)
Definition TAB : string := String (ascii_of_nat 9) EmptyString.

(** Template-literal rendering of an integer, [`${n}`]. *)
Definition str_of_nat (n : nat) : string :=
  DecimalString.NilZero.string_of_uint (Nat.to_uint n).

(** [n.toString(16)] on an integer. *)
Definition toString16 (n : Z) : string :=
  HexadecimalString.NilZero.string_of_int (Z.to_hex_int n).

Definition upper_ascii (c : ascii) : ascii :=
  let n := nat_of_ascii c in
  if ((97 <=? n) && (n <=? 122))%nat then ascii_of_nat (n - 32) else c.

(** [s.toUpperCase()], on the ASCII range the hex digits live in. *)
Fixpoint toUpperCase (s : string) : string :=
  match s with
  | EmptyString => EmptyString
  | String c s' => String (upper_ascii c) (toUpperCase s')
  end.

Fixpoint repeat_char (c : ascii) (n : nat) : string :=
  match n with
  | O => EmptyString
  | S n' => String c (repeat_char c n')
  end.

(** [s.padStart(n, c)] with a one-character filler. *)
Definition padStart (n : nat) (c : ascii) (s : string) : string :=
  repeat_char c (n - String.length s) +:+ s.

(** [l.slice(i, j)] for [0 <= i <= j]. *)
Definition slice {A} (i j : nat) (l : list A) : list A := take (j - i) (drop i l).

(** [l.join(sep)]. *)
Definition join (sep : string) (l : list string) : string := String.concat sep l.

(** [ToUint32] and the unsigned shift [a >>> n]. *)
Definition toUint32 (v : Z) : Z := v mod 2 ^ 32.
Definition shr (v : Z) (n : Z) : Z := Z.shiftr (toUint32 v) n.

(** Template-literal rendering of an integer that may be negative. *)
Definition str_of_Z (n : Z) : string :=
  DecimalString.NilZero.string_of_int (Z.to_int n).

(** The line feed written [\n] in the source. *)
Definition LF : string := String (ascii_of_nat 10) EmptyString.

(** [numbers.sort()] without a comparator: the elements are ordered by
    their renderings as strings, code unit by code unit; the sort is
    stable. *)
Fixpoint sort_insert (v : Z) (sorted : list Z) : list Z :=
  match sorted with
  | [] => [v]
  | w :: rest =>
      if String.ltb (str_of_Z v) (str_of_Z w) then v :: sorted
      else w :: sort_insert v rest
  end.

Definition sort_default (l : list Z) : list Z :=
  fold_left (λ sorted v, sort_insert v sorted) l [].

End JS.

(** ** semi-graphic-converter.ts *)

Record RGBColor := mkRGB { r : Z; g : Z; b : Z }.

Record SemiGraphicBlock := mkBlock { pattern : Z; colorCode : Z }.

Record SemiGraphicData := mkSemi {
  width : nat;
  height : nat;
  blocks : list (list SemiGraphicBlock)   (* [y][x] *)
}.

(** The argument of [convertImageDataToSemiGraphic]: [data] is a
    [Uint8ClampedArray], four entries (R, G, B, A) per pixel, row-major. *)
Record ImageData := mkImageData {
  id_width : nat;
  id_height : nat;
  id_data : list Z
}.

(** What the converter uses of a decoded Jimp image: the bitmap size and
    [getPixelColor x y], the pixel packed as the unsigned 32-bit number
    0xRRGGBBAA. *)
Record JimpImage := mkJimp {
  bitmap_width : nat;
  bitmap_height : nat;
  getPixelColor : nat → nat → Z
}.

(** [convertImageToSemiGraphic] tells its two kinds of argument apart by the
    presence of a [getImageData] method. *)
Inductive ImageElement :=
  | MockImageElement (getImageData : ImageData)
  | HTMLImageElement.

(** The result of [getStatistics]. *)
Record Statistics := mkStatistics {
  totalBlocks : nat;
  usedColors : list Z;
  colorFrequency : list (Z * nat);
  nonEmptyBlocks : nat
}.

(** types/project.ts: what the exporter reads of a project. *)
Record ImageResource := mkImageResource {
  image_id : string;
  image_filename : string;
  image_width : Z;
  image_height : Z;
  imageElement : option ImageElement
}.

Record AnimationFrame := mkFrame {
  frame_imageId : string;
  frame_x : Z;
  frame_y : Z;
  frame_waitTime : Z
}.

Record AnimationSequence := mkSequence {
  sequence_name : string;
  sequence_frames : list AnimationFrame;
  sequence_loop : bool
}.

Record ProjectData := mkProject {
  project_name : string;
  project_images : list ImageResource;
  project_sequences : list AnimationSequence;
  canvasWidth : Z;
  canvasHeight : Z
}.

Module SemiGraphicConverter.

Definition DIGITAL_COLORS : list RGBColor :=
  [ mkRGB 0 0 0;        (* 0: black *)
    mkRGB 0 0 255;      (* 1: blue *)
    mkRGB 255 0 0;      (* 2: red *)
    mkRGB 255 0 255;    (* 3: magenta *)
    mkRGB 0 255 0;      (* 4: green *)
    mkRGB 0 255 255;    (* 5: cyan *)
    mkRGB 255 255 0;    (* 6: yellow *)
    mkRGB 255 255 255 ] (* 7: white *).

(** The radicand of [distance] in [findNearestColor]. *)
Definition distance2 (rgb color : RGBColor) : Z :=
  (r rgb - r color) ^ 2 + (g rgb - g color) ^ 2 + (b rgb - b color) ^ 2.

(** [distance < minDistance], with [None] for the initial [Infinity]. The
    source compares [Math.sqrt] of the two radicands; on integer channel
    values the radicands are integers far below 2^53 and the correctly
    rounded square root is strictly increasing on them, so the comparison is
    the comparison of the radicands. *)
Definition distance_lt (d : Z) (minDistance : option Z) : bool :=
  match minDistance with
  | None => true
  | Some m => d <? m
  end.

Definition nearest_step (rgb : RGBColor) (st : option Z * Z) (i : nat)
    : option Z * Z :=
  match DIGITAL_COLORS !! i with
  | Some color =>
      let distance := distance2 rgb color in
      if distance_lt distance (fst st) then (Some distance, Z.of_nat i) else st
  | None => st
  end.

Definition findNearestColor (rgb : RGBColor) : Z :=
  snd (fold_left (nearest_step rgb) (seq 0 (length DIGITAL_COLORS)) (None, 0)).

(** The [frequency] object of [getMostFrequentColor], as the list of its
    entries in the order [Object.entries] enumerates them: keys that are
    array indices first, in ascending numeric order, then the other keys in
    the order they were created. *)
Definition is_array_index (k : Z) : bool := (0 <=? k) && (k <? 2 ^ 32 - 1).

(** [frequency[color] = (frequency[color] || 0) + 1]. *)
Fixpoint freq_incr (color : Z) (frequency : list (Z * nat)) : list (Z * nat) :=
  match frequency with
  | [] => [(color, 1%nat)]
  | (k, n) :: rest =>
      if color =? k then (k, S n) :: rest
      else if is_array_index color && (negb (is_array_index k) || (color <? k))
      then (color, 1%nat) :: frequency
      else (k, n) :: freq_incr color rest
  end.

Definition count_votes (colors : list Z) : list (Z * nat) :=
  fold_left (λ frequency color,
               if color =? 0 then frequency else freq_incr color frequency)
            colors [].

Definition most_step (st : nat * Z) (entry : Z * nat) : nat * Z :=
  let '(maxCount, mostFrequent) := st in
  let '(color, count) := entry in
  if (maxCount <? count)%nat then (count, color) else (maxCount, mostFrequent).

Definition getMostFrequentColor (colors : list Z) : Z :=
  if (length colors =? 0)%nat then 0
  else snd (fold_left most_step (count_votes colors) (0%nat, 0)).

(** [dx === 0 ? dy : (4 + dy)]. *)
Definition bitIndex (dx dy : nat) : nat := if (dx =? 0)%nat then dy else (4 + dy)%nat.

(** [pattern |= (1 << bitIndex)]. *)
Definition set_bit (pattern : Z) (bit : nat) : Z :=
  Z.lor pattern (Z.shiftl 1 (Z.of_nat bit)).

(** The two nested loops over the dots of a block, [dy] outside and [dx]
    inside, threading the pattern accumulator and the list of votes. *)
Definition for_dots (body : nat → nat → Z * list Z → Z * list Z)
    (st : Z * list Z) : Z * list Z :=
  fold_left (λ st dy, fold_left (λ st dx, body dx dy st) (seq 0 2) st)
            (seq 0 4) st.

(** Body of the dot loop of [generateSemiGraphicBlockFromJimp]. *)
Definition jimp_dot (blockX blockY : nat) (image : JimpImage)
    (originalWidth originalHeight : nat) (dx dy : nat) (st : Z * list Z)
    : Z * list Z :=
  let '(pattern, colors) := st in
  let pixelX := (blockX * 2 + dx)%nat in
  let pixelY := (blockY * 4 + dy)%nat in
  if ((originalWidth <=? pixelX) || (originalHeight <=? pixelY))%nat then st
  else
    let color := getPixelColor image pixelX pixelY in
    let r := JS.band (JS.sar color 24) 255 in
    let g := JS.band (JS.sar color 16) 255 in
    let b := JS.band (JS.sar color 8) 255 in
    let alpha := JS.band color 255 in
    if 127 <? alpha then
      let bit := bitIndex dx dy in
      let pattern := set_bit pattern bit in
      let colorCode := findNearestColor (mkRGB r g b) in
      (pattern, colors ++ [colorCode])
    else st.

Definition generateSemiGraphicBlockFromJimp (blockX blockY : nat)
    (image : JimpImage) (originalWidth originalHeight : nat) : SemiGraphicBlock :=
  let '(pattern, colors) :=
    for_dots (jimp_dot blockX blockY image originalWidth originalHeight) (0, []) in
  mkBlock pattern (getMostFrequentColor colors).

Definition convertJimpToSemiGraphic (image : JimpImage) : SemiGraphicData :=
  let originalWidth := bitmap_width image in
  let originalHeight := bitmap_height image in
  let adjustedWidth := (JS.ceil_div originalWidth 2 * 2)%nat in
  let adjustedHeight := (JS.ceil_div originalHeight 4 * 4)%nat in
  let semiWidth := (adjustedWidth / 2)%nat in
  let semiHeight := (adjustedHeight / 4)%nat in
  mkSemi semiWidth semiHeight
    (map (λ y, map (λ x, generateSemiGraphicBlockFromJimp x y image
                           originalWidth originalHeight)
                   (seq 0 semiWidth))
         (seq 0 semiHeight)).

(** [findNearestColor({ r, g, b })] on three array reads. A read past the
    end of the buffer is [undefined]: every distance is then [NaN], no
    comparison [distance < minDistance] holds and the index stays 0. *)
Definition nearest_of_reads (r g b : option Z) : Z :=
  match r, g, b with
  | Some r, Some g, Some b => findNearestColor (mkRGB r g b)
  | _, _, _ => 0
  end.

(** [a < 128] on an array read; [undefined < 128] is false. *)
Definition read_lt_128 (a : option Z) : bool :=
  match a with
  | Some a => a <? 128
  | None => false
  end.

(** Body of the dot loop of [convertImageDataToSemiGraphic]. *)
Definition data_dot (x y : nat) (imageData : ImageData) (dx dy : nat)
    (st : Z * list Z) : Z * list Z :=
  let '(pattern, blockColors) := st in
  let originalWidth := id_width imageData in
  let originalHeight := id_height imageData in
  let pixelX := (x * 2 + dx)%nat in
  let pixelY := (y * 4 + dy)%nat in
  if ((pixelX <? originalWidth) && (pixelY <? originalHeight))%nat then
    let index := ((pixelY * originalWidth + pixelX) * 4)%nat in
    let r := id_data imageData !! index in
    let g := id_data imageData !! (index + 1)%nat in
    let b := id_data imageData !! (index + 2)%nat in
    let a := id_data imageData !! (index + 3)%nat in
    if read_lt_128 a then (pattern, blockColors ++ [0])
    else
      let colorIndex := nearest_of_reads r g b in
      let blockColors := blockColors ++ [colorIndex] in
      let bit := bitIndex dx dy in
      if negb (colorIndex =? 0) then (set_bit pattern bit, blockColors)
      else (pattern, blockColors)
  else (pattern, blockColors ++ [0]).

(** One iteration of the loop over [x] of [convertImageDataToSemiGraphic]:
    the block pushed onto [row]. *)
Definition data_block (x y : nat) (imageData : ImageData) : SemiGraphicBlock :=
  let '(pattern, blockColors) := for_dots (data_dot x y imageData) (0, []) in
  mkBlock pattern (getMostFrequentColor blockColors).

Definition convertImageDataToSemiGraphic (imageData : ImageData) : SemiGraphicData :=
  let originalWidth := id_width imageData in
  let originalHeight := id_height imageData in
  let adjustedWidth := (JS.ceil_div originalWidth 2 * 2)%nat in
  let adjustedHeight := (JS.ceil_div originalHeight 4 * 4)%nat in
  let semiWidth := (adjustedWidth / 2)%nat in
  let semiHeight := (adjustedHeight / 4)%nat in
  mkSemi semiWidth semiHeight
    (map (λ y, map (λ x, data_block x y imageData) (seq 0 semiWidth))
         (seq 0 semiHeight)).

(** [None] is the [Error] thrown for a browser image element. *)
Definition convertImageToSemiGraphic (imageElement : ImageElement)
    : option SemiGraphicData :=
  match imageElement with
  | MockImageElement imageData => Some (convertImageDataToSemiGraphic imageData)
  | HTMLImageElement => None
  end.

(** The file-based entry points. [read] stands for [Jimp.Jimp.read]: [None]
    when the file is missing or cannot be decoded, which the source catches
    and turns into a [null] result. *)
Section FromFiles.

Variable read : string → option JimpImage.

Definition convertImageFile (imagePath : string) : option SemiGraphicData :=
  convertJimpToSemiGraphic <$> read imagePath.

(** [images] is the list of (id, filename) of the project's resources. *)
Definition convertImageFromProject (images : list (string * string))
    (imageId : string) : option SemiGraphicData :=
  match List.find (λ img, String.eqb (fst img) imageId) images with
  | None => None
  | Some imageResource => convertJimpToSemiGraphic <$> read (snd imageResource)
  end.

End FromFiles.

(** [colorNames[colorCode] || '不明']. *)
Definition getColorName (colorCode : Z) : string :=
  let colorNames := ["黒"; "青"; "赤"; "紫"; "緑"; "水色"; "黄"; "白"] in
  match (if 0 <=? colorCode then colorNames !! Z.to_nat colorCode else None) with
  | Some colorName => colorName
  | None => "不明"
  end.

(** [Math.floor(imageWidth / 2)] and [Math.floor(imageHeight / 4)]. *)
Definition calculateSemiGraphicSize (imageWidth imageHeight : nat) : nat * nat :=
  ((imageWidth / 2)%nat, (imageHeight / 4)%nat).

Definition calculateImageSize (semiWidth semiHeight : nat) : nat * nat :=
  ((semiWidth * 2)%nat, (semiHeight * 4)%nat).

(** Body of the inner loop of [getStatistics]; [None] is the [TypeError]
    of reading a field of a block that is not there. *)
Definition stats_step (semiData : SemiGraphicData) (y : nat)
    (st : option (list (Z * nat) * nat)) (x : nat)
    : option (list (Z * nat) * nat) :=
  '(colorFrequency, nonEmptyBlocks) ← st;
  block ← blocks semiData !! y ≫= (λ row, row !! x);
  let nonEmptyBlocks :=
    if 0 <? pattern block then S nonEmptyBlocks else nonEmptyBlocks in
  Some (freq_incr (colorCode block) colorFrequency, nonEmptyBlocks).

Definition getStatistics (semiData : SemiGraphicData) : option Statistics :=
  let totalBlocks := (width semiData * height semiData)%nat in
  '(colorFrequency, nonEmptyBlocks) ←
    fold_left (λ st y, fold_left (stats_step semiData y)
                                 (seq 0 (width semiData)) st)
              (seq 0 (height semiData)) (Some ([], 0%nat));
  let usedColors := JS.sort_default (map fst colorFrequency) in
  Some (mkStatistics totalBlocks usedColors colorFrequency nonEmptyBlocks).

End SemiGraphicConverter.

(** ** cli-image-loader.ts *)

Module CliImageLoader.

(** The four entries stored for a pixel. They are written one after the
    other into a [Uint8ClampedArray] of [width * height * 4] entries, which
    they fill. *)
Definition pixel_bytes (image : JimpImage) (x y : nat) : list Z :=
  let color := getPixelColor image x y in
  let r := JS.band (JS.shr color 24) 255 in
  let g := JS.band (JS.shr color 16) 255 in
  let b := JS.band (JS.shr color 8) 255 in
  let a := JS.band color 255 in
  [r; g; b; a].

(** The pixel loops of [loadImage] on a decoded image. *)
Definition image_data (image : JimpImage) : ImageData :=
  let width := bitmap_width image in
  let height := bitmap_height image in
  mkImageData width height
    (flat_map (λ y, flat_map (λ x, pixel_bytes image x y) (seq 0 width))
              (seq 0 height)).

Section Files.

Variable existsSync : string → bool.
Variable read : string → option JimpImage.

(** [None] is the [null] returned for a missing file or a failed decode. *)
Definition loadImage (imagePath : string) : option ImageData :=
  if negb (existsSync imagePath) then None
  else image_data <$> read imagePath.

End Files.

End CliImageLoader.

(** ** z80-exporter.ts *)

Module Z80Exporter.

(** [`$${n.toString(16).padStart(2, '0').toUpperCase()}`]. *)
Definition hex_literal (n : Z) : string :=
  "$" +:+ JS.toUpperCase (JS.padStart 2 "0" (JS.toString16 n)).

(** [`\tDB\t${body}`]. *)
Definition DB (body : string) : string := JS.TAB +:+ "DB" +:+ JS.TAB +:+ body.

(** [semiData.blocks[y][x]], whose fields are read next: a row or a block
    that is not there makes that read throw a [TypeError]. *)
Definition block_at (semiData : SemiGraphicData) (y x : nat)
    : option SemiGraphicBlock :=
  blocks semiData !! y ≫= λ row, row !! x.

(** The lines pushed by one iteration of the loop over [y] of
    [generateSemiGraphicDB]. *)
Definition semiGraphicRow (semiData : SemiGraphicData) (y : nat)
    : option (list string) :=
  dataBytes ← mapM (λ x, block ← block_at semiData y x;
                         Some (hex_literal (pattern block)))
                   (seq 0 (width semiData));
  Some (map (λ i, let chunk := JS.slice i (i + 16) dataBytes in
                  DB (JS.join ", " chunk))
            (JS.range_step (length dataBytes) 16)).

Definition generateSemiGraphicDB (semiData : SemiGraphicData)
    (labelPrefix : string) : option (list string) :=
  rows ← mapM (semiGraphicRow semiData) (seq 0 (height semiData));
  Some ([ "; セミグラフィックデータ (" +:+ JS.str_of_nat (width semiData) +:+ "x"
            +:+ JS.str_of_nat (height semiData) +:+ ")";
          labelPrefix +:+ ":" ] ++ concat rows).

(** [colorMap[colorCode] || 0xF8]. *)
Definition getAttributeColorCode (colorCode : Z) : Z :=
  let colorMap := [0x18; 0x38; 0x58; 0x78; 0x98; 0xB8; 0xD8; 0xF8] in
  match (if 0 <=? colorCode then colorMap !! Z.to_nat colorCode else None) with
  | Some v => if v =? 0 then 0xF8 else v
  | None => 0xF8
  end.

(** [while (startIndex < rowColors.length && rowColors[startIndex] === 7)
    startIndex++]. The loop runs at most [length rowColors] times, which is
    the fuel it is given: when the fuel is spent [startIndex] has reached
    the length and the loop condition is false. *)
Fixpoint skip_white (fuel : nat) (rowColors : list Z) (startIndex : nat) : nat :=
  match fuel with
  | O => startIndex
  | S fuel' =>
      match rowColors !! startIndex with
      | Some c => if c =? 7 then skip_white fuel' rowColors (S startIndex)
                  else startIndex
      | None => startIndex
      end
  end.

(** The variables of the change-detection loop. *)
Record Scan := mkScan {
  currentColor : Z;
  changeCount : nat;
  attributePairs : list string
}.

(** Body of [for (let x = startIndex; x <= endIndex; x++)]. The loop stays
    below the length of [rowColors], so the read is never [undefined]. *)
Definition scan_step (rowColors : list Z) (st : Scan) (x : nat) : Scan :=
  match rowColors !! x with
  | None => st
  | Some colorCode =>
      if colorCode =? 0 then st
      else if negb (colorCode =? currentColor st) then
        let attrColorCode := getAttributeColorCode colorCode in
        mkScan colorCode (S (changeCount st))
               (attributePairs st ++ [JS.str_of_nat x; hex_literal attrColorCode])
      else st
  end.

(** An element of [attributePairs] inside a template literal. *)
Definition pair_item (attributePairs : list string) (i : nat) : string :=
  default "undefined" (attributePairs !! i).

(** The fallback line [`\tDB\t1, 0, $F8`]. *)
Definition FALLBACK : string := DB "1, 0, $F8".

(** The line pushed for a row of colour codes: the body of the loop over
    [y] of [generateColorAttributeDB] once [rowColors] is filled. *)
Definition colorAttributeLine (rowColors : list Z) : string :=
  let startIndex := skip_white (length rowColors) rowColors 0 in
  let endIndex := Z.of_nat (length rowColors) - 1 in
  if endIndex <? Z.of_nat startIndex then FALLBACK
  else
    let st := fold_left (scan_step rowColors)
                (seq startIndex (length rowColors - startIndex))
                (mkScan (-1) 0 []) in
    if (changeCount st =? 0)%nat then FALLBACK
    else
      let pairStrings :=
        map (λ i, pair_item (attributePairs st) i +:+ ", "
                  +:+ pair_item (attributePairs st) (i + 1))
            (JS.range_step (length (attributePairs st)) 2) in
      DB (JS.str_of_nat (changeCount st) +:+ ", " +:+ JS.join ", " pairStrings).

Definition colorAttributeRow (semiData : SemiGraphicData) (y : nat)
    : option string :=
  rowColors ← mapM (λ x, colorCode <$> block_at semiData y x)
                   (seq 0 (width semiData));
  Some (colorAttributeLine rowColors).

Definition generateColorAttributeDB (semiData : SemiGraphicData)
    (labelPrefix : string) : option (list string) :=
  rows ← mapM (colorAttributeRow semiData) (seq 0 (height semiData));
  Some ([ "; カラーアトリビュートデータ (" +:+ JS.str_of_nat (width semiData) +:+ "x"
            +:+ JS.str_of_nat (height semiData) +:+ ")";
          labelPrefix +:+ ":" ] ++ rows).

(** [generateZ80Code]. The timestamp of the header, [parseInt] ([None] for
    [NaN]) and the message of the [TypeError] an engine raises for a field
    read on [undefined] come from outside. *)
Section Z80Code.

Variable now : string.
Variable parseInt : string → option Z.
Variable typeErrorMessage : string.

(** [String(parseInt(id)).padStart(3, '0')]. *)
Definition imageNumber (id : string) : string :=
  JS.padStart 3 "0" (match parseInt id with
                     | Some n => JS.str_of_Z n
                     | None => "NaN"
                     end).

Definition error_line (i : nat) (message : string) : string :=
  "; Error converting image " +:+ JS.str_of_nat i +:+ ": " +:+ message.

(** The lines pushed inside the [try] block for image [i], followed by the
    line of the [catch] block when a call throws. *)
Definition image_tables (i : nat) (image : ImageResource)
    (element : ImageElement) : list string :=
  match SemiGraphicConverter.convertImageToSemiGraphic element with
  | None =>
      [error_line i ("ブラウザ環境での変換は現在サポートされていません。"
         +:+ "mainプロセスのconvertImageFromProject()またはconvertImageFile()"
         +:+ "を使用してください。")]
  | Some semiData =>
      let number := imageNumber (image_id image) in
      match generateSemiGraphicDB semiData ("Image_" +:+ number) with
      | None => [error_line i typeErrorMessage]
      | Some semiLines =>
          semiLines ++ [EmptyString] ++
          match generateColorAttributeDB semiData ("Attr_" +:+ number) with
          | None => [error_line i typeErrorMessage]
          | Some colorLines =>
              colorLines ++
              [ EmptyString;
                "; Image " +:+ number +:+ " Size: "
                  +:+ JS.str_of_nat (width semiData) +:+ "x"
                  +:+ JS.str_of_nat (height semiData) +:+ " semi-graphic blocks";
                "; Data Size: "
                  +:+ JS.str_of_nat (width semiData * height semiData)
                  +:+ " bytes (semi) + "
                  +:+ JS.str_of_nat (width semiData * height semiData)
                  +:+ " bytes (color)" ]
          end
      end
  end.

(** Body of the loop over the images. *)
Definition image_section (i : nat) (image : ImageResource) : list string :=
  [ EmptyString;
    "; Image: " +:+ image_filename image +:+ " ("
      +:+ JS.str_of_Z (image_width image) +:+ "x"
      +:+ JS.str_of_Z (image_height image) +:+ ")" ]
  ++ match imageElement image with
     | Some element => image_tables i image element
     | None => ["; Image element not loaded for: " +:+ image_filename image]
     end.

(** Body of the loop over the frames of a sequence. *)
Definition frame_lines (j : nat) (frame : AnimationFrame) : list string :=
  let number := imageNumber (frame_imageId frame) in
  [ JS.TAB +:+ "; Frame " +:+ JS.str_of_nat (j + 1) +:+ ": Image "
      +:+ frame_imageId frame +:+ ", Pos(" +:+ JS.str_of_Z (frame_x frame)
      +:+ "," +:+ JS.str_of_Z (frame_y frame) +:+ "), Wait: "
      +:+ JS.str_of_Z (frame_waitTime frame);
    JS.TAB +:+ "dw" +:+ JS.TAB +:+ "Image_" +:+ number
      +:+ "    ; キャラクタデータアドレス";
    JS.TAB +:+ "db" +:+ JS.TAB +:+ JS.str_of_Z (frame_y frame) +:+ ", "
      +:+ JS.str_of_Z (frame_x frame) +:+ "        ; Y, X";
    JS.TAB +:+ "db" +:+ JS.TAB +:+ JS.str_of_Z (frame_waitTime frame)
      +:+ "           ; ウェイトフレーム数" ].

(** Body of the loop over the sequences. *)
Definition sequence_section (sequence : AnimationSequence) : list string :=
  [ EmptyString;
    "; Sequence: " +:+ sequence_name sequence;
    "; Frames: " +:+ JS.str_of_nat (length (sequence_frames sequence))
      +:+ ", Loop: " +:+ (if sequence_loop sequence then "true" else "false");
    "Sequence:" ]
  ++ concat (imap frame_lines (sequence_frames sequence))
  ++ [ JS.TAB +:+ "dw" +:+ JS.TAB +:+ "0            ; 終了" ].

(** The array [lines] when [generateZ80Code] joins it. *)
Definition generateZ80Lines (projectData : ProjectData) : list string :=
  [ ";";
    "; Z80 Dancing Editor Generated Assembly Code";
    "; Project: " +:+ project_name projectData;
    "; Generated: " +:+ now;
    "; Canvas Size: " +:+ JS.str_of_Z (canvasWidth projectData) +:+ "x"
      +:+ JS.str_of_Z (canvasHeight projectData);
    "; Images: " +:+ JS.str_of_nat (length (project_images projectData));
    "; Sequences: " +:+ JS.str_of_nat (length (project_sequences projectData));
    ";";
    EmptyString;
    "; === Image Data Section ===";
    EmptyString;
    "Character:";
    ".wByte       equ 32 / 2             ; 1キャラクタの幅";
    ".hByte       equ 68 / 4             ; 1キャラクタの高さ";
    ".attrCount   equ 10                 ; アトリビュートの色変更数";
    EmptyString ]
  ++ (match project_images projectData with
      | [] => ["; No images in project"]
      | _ :: _ => concat (imap image_section (project_images projectData))
      end)
  ++ [ EmptyString; "; === Animation Sequences ===" ]
  ++ (match project_sequences projectData with
      | [] => ["; No sequences in project"]
      | _ :: _ => concat (map sequence_section (project_sequences projectData))
      end)
  ++ [ EmptyString; "; === End of Generated Code ===" ].

Definition generateZ80Code (projectData : ProjectData) : string :=
  JS.join JS.LF (generateZ80Lines projectData).

End Z80Code.

End Z80Exporter.

(** ** Vocabulary of the statements

    The definitions below are not part of the program: they name the
    quantities the properties are stated with (the pixel a dot of a block
    falls on, the numbers printed on a line, the shape of a grid). *)

Import SemiGraphicConverter Z80Exporter.

(** The dots of a block as [(dx, dy)], in the order the loops visit them. *)
Definition dots : list (nat * nat) :=
  [(0, 0); (1, 0); (0, 1); (1, 1); (0, 2); (1, 2); (0, 3); (1, 3)]%nat.

(** The byte whose bits are the lit dots, each at its [bitIndex]. *)
Definition pattern_of (lit : nat → nat → bool) : Z :=
  fold_left (λ p d, if lit d.1 d.2 then set_bit p (bitIndex d.1 d.2) else p) dots 0.

(** Channel [c] (0 = R .. 3 = A) of pixel [(px, py)] of an RGBA buffer. *)
Definition channel (imageData : ImageData) (px py c : nat) : option Z :=
  id_data imageData !! ((py * id_width imageData + px) * 4 + c)%nat.

Definition in_image (w h px py : nat) : bool := ((px <? w) && (py <? h))%nat.

(** Pixel [(px, py)] lies in the image and its alpha is 128 or more. *)
Definition opaque_at (imageData : ImageData) (px py : nat) : bool :=
  in_image (id_width imageData) (id_height imageData) px py
  && negb (read_lt_128 (channel imageData px py 3)).

(** The palette index nearest to the colour of pixel [(px, py)]. *)
Definition nearest_at (imageData : ImageData) (px py : nat) : Z :=
  nearest_of_reads (channel imageData px py 0) (channel imageData px py 1)
                   (channel imageData px py 2).

(** A buffer of the declared size holding bytes. *)
Definition wf_image (imageData : ImageData) : Prop :=
  length (id_data imageData) = (id_width imageData * id_height imageData * 4)%nat
  ∧ Forall (λ v, 0 <= v < 256) (id_data imageData).

(** Four bytes read as a big-endian unsigned number, 0xRRGGBBAA. *)
Definition rgba (r g b a : Z) : Z := r * 2 ^ 24 + g * 2 ^ 16 + b * 2 ^ 8 + a.

(** The decoded image whose bitmap is the given RGBA buffer. *)
Definition jimp_of_data (imageData : ImageData) : JimpImage :=
  mkJimp (id_width imageData) (id_height imageData)
    (λ px py, rgba (default 0 (channel imageData px py 0))
                   (default 0 (channel imageData px py 1))
                   (default 0 (channel imageData px py 2))
                   (default 0 (channel imageData px py 3))).

(** A decoded image and an RGBA buffer with the same pixel content. *)
Definition same_pixels (image : JimpImage) (imageData : ImageData) : Prop :=
  bitmap_width image = id_width imageData
  ∧ bitmap_height image = id_height imageData
  ∧ wf_image imageData
  ∧ ∀ px py, (px < id_width imageData)%nat → (py < id_height imageData)%nat →
      getPixelColor image px py = getPixelColor (jimp_of_data imageData) px py.

(** Alpha and nearest palette index of a pixel of a decoded image. *)
Definition jimp_alpha (image : JimpImage) (px py : nat) : Z :=
  JS.band (getPixelColor image px py) 255.

Definition jimp_nearest (image : JimpImage) (px py : nat) : Z :=
  let color := getPixelColor image px py in
  findNearestColor (mkRGB (JS.band (JS.sar color 24) 255)
                          (JS.band (JS.sar color 16) 255)
                          (JS.band (JS.sar color 8) 255)).

Definition jimp_opaque_at (image : JimpImage) (px py : nat) : bool :=
  in_image (bitmap_width image) (bitmap_height image) px py
  && (127 <? jimp_alpha image px py).

(** A rectangular grid: [height] rows of [width] blocks. *)
Definition wf_grid (semiData : SemiGraphicData) : Prop :=
  length (blocks semiData) = height semiData
  ∧ Forall (λ row, length row = width semiData) (blocks semiData).

(** The two header lines of the tables. *)
Definition semi_header (semiData : SemiGraphicData) (labelPrefix : string)
    : list string :=
  [ "; セミグラフィックデータ (" +:+ JS.str_of_nat (width semiData) +:+ "x"
      +:+ JS.str_of_nat (height semiData) +:+ ")";
    labelPrefix +:+ ":" ].

Definition attr_header (semiData : SemiGraphicData) (labelPrefix : string)
    : list string :=
  [ "; カラーアトリビュートデータ (" +:+ JS.str_of_nat (width semiData) +:+ "x"
      +:+ JS.str_of_nat (height semiData) +:+ ")";
    labelPrefix +:+ ":" ].

(** A line of the pattern table holding the given bytes. *)
Definition dataLine (bytes : list Z) : string :=
  DB (JS.join ", " (map hex_literal bytes)).

(** A line of the colour table holding a count and (x, attribute) pairs. *)
Definition pair_text (p : nat * Z) : string :=
  JS.str_of_nat p.1 +:+ ", " +:+ hex_literal p.2.

Definition attrLine (count : nat) (pairs : list (nat * Z)) : string :=
  DB (JS.str_of_nat count +:+ ", " +:+ JS.join ", " (map pair_text pairs)).

(** The change-detection loop on numbers: the tracked colour and the pairs
    (x, attribute) recorded so far. *)
Definition change_step (rowColors : list Z) (st : Z * list (nat * Z)) (x : nat)
    : Z * list (nat * Z) :=
  match rowColors !! x with
  | None => st
  | Some c =>
      if c =? 0 then st
      else if c =? st.1 then st
      else (c, st.2 ++ [(x, getAttributeColorCode c)])
  end.

(** Length of the leading run of white (7) of a row. *)
Fixpoint leading_white (rowColors : list Z) : nat :=
  match rowColors with
  | c :: rest => if c =? 7 then S (leading_white rest) else O
  | [] => O
  end.

Definition row_changes (rowColors : list Z) : list (nat * Z) :=
  let start := leading_white rowColors in
  (fold_left (change_step rowColors) (seq start (length rowColors - start))
             (-1, [])).2.

(** The pairs printed for a row: its changes, or the fallback pair. *)
Definition or_fallback (pairs : list (nat * Z)) : list (nat * Z) :=
  match pairs with
  | [] => [(0%nat, 0xF8)]
  | _ :: _ => pairs
  end.

Definition line_pairs (rowColors : list Z) : list (nat * Z) :=
  or_fallback (row_changes rowColors).

(** Number of comma-separated fields of a line, [line.split(',').length]. *)
Fixpoint count_commas (s : string) : nat :=
  match s with
  | EmptyString => O
  | String c s' => if Ascii.eqb c "," then S (count_commas s') else count_commas s'
  end.

Definition count_fields (s : string) : nat := S (count_commas s).

(** Number of votes for a colour. *)
Definition votes_for (color : Z) (colors : list Z) : nat :=
  length (filter (λ c, c = color) colors).

(** A one-row grid with the given colour codes. *)
Definition row_grid (rowColors : list Z) : SemiGraphicData :=
  mkSemi (length rowColors) 1 [map (mkBlock 0) rowColors].

(** A 2x4 image from its eight pixels, each a list [r; g; b; a]. *)
Definition image_2x4 (pixels : list (list Z)) : ImageData :=
  mkImageData 2 4 (concat pixels).

Definition WHITE : list Z := [255; 255; 255; 255].
Definition CLEAR : list Z := [0; 0; 0; 0].
Definition BLACK : list Z := [0; 0; 0; 255].

(** ** Further vocabulary: test data and loop invariants *)

(** State of the palette loop after the indices below [k]. *)
Definition nearest_inv (rgb : RGBColor) (k : nat) (st : option Z * Z) : Prop :=
  match st.1 with
  | None => k = 0%nat ∧ st.2 = 0
  | Some d =>
      ∃ i color, st.2 = Z.of_nat i ∧ (i < k)%nat
        ∧ DIGITAL_COLORS !! i = Some color ∧ d = distance2 rgb color
        ∧ ∀ j c, (j < k)%nat → DIGITAL_COLORS !! j = Some c →
            d <= distance2 rgb c ∧ ((j < i)%nat → d < distance2 rgb c)
  end.

(** Count stored under a key of the frequency object. *)
Definition freq_get (k : Z) (frequency : list (Z * nat)) : nat :=
  sum_list (map snd (filter (λ e, e.1 = k) frequency)).

(** Entries in ascending key order, all keys array indices, no zero count. *)
Definition freq_ok (frequency : list (Z * nat)) : Prop :=
  StronglySorted (λ a b, a.1 < b.1) frequency
  ∧ Forall (λ e, is_array_index e.1 = true ∧ (0 < e.2)%nat) frequency.

(** The vote the direct-buffer path records for dot [(dx, dy)] of block
    [(x, y)]: the nearest palette index of an opaque pixel, 0 otherwise. *)
Definition data_vote (imageData : ImageData) (x y dx dy : nat) : Z :=
  let px := (x * 2 + dx)%nat in
  let py := (y * 4 + dy)%nat in
  if opaque_at imageData px py then nearest_at imageData px py else 0.

(** The votes the Jimp path records for a list of dots of block [(x, y)]. *)
Definition jimp_votes (image : JimpImage) (x y : nat) (ds : list (nat * nat))
    : list Z :=
  flat_map (λ d, let px := (x * 2 + d.1)%nat in
                 let py := (y * 4 + d.2)%nat in
                 if jimp_opaque_at image px py then [jimp_nearest image px py]
                 else []) ds.

Definition b2z (v : bool) : Z := if v then 1 else 0.

(** Pixel [(px, py)] is pure white, RGB(255, 255, 255). *)
Definition white_at (imageData : ImageData) (px py : nat) : Prop :=
  channel imageData px py 0 = Some 255 ∧ channel imageData px py 1 = Some 255
  ∧ channel imageData px py 2 = Some 255.

(** The 2x4 test images: [W] an opaque white pixel, [C] a transparent one. *)
Definition mask_image (rows : list (bool * bool)) : ImageData :=
  image_2x4 (flat_map (λ row : bool * bool, [if row.1 then WHITE else CLEAR;
                               if row.2 then WHITE else CLEAR]) rows).

(** The 2x4 image with the single opaque white pixel [(dx, dy)]. *)
Definition dot_image (dx dy : nat) : ImageData :=
  mask_image (map (λ row : nat, ((dx =? 0)%nat && (dy =? row)%nat,
                           (dx =? 1)%nat && (dy =? row)%nat)) (seq 0 4)).

(** Pattern byte and colour code of the block at row [y], column [x]. *)
Definition pattern_at (semiData : SemiGraphicData) (y x : nat) : option Z :=
  pattern <$> block_at semiData y x.

Definition colorCode_at (semiData : SemiGraphicData) (y x : nat) : option Z :=
  colorCode <$> block_at semiData y x.

(** The pattern byte the direct-buffer converter gives a 2x4 test image. *)
Definition mask_pattern (rows : list (bool * bool)) : option Z :=
  pattern_at (convertImageDataToSemiGraphic (mask_image rows)) 0 0.

Definition dot_pattern (dx dy : nat) : option Z :=
  pattern_at (convertImageDataToSemiGraphic (dot_image dx dy)) 0 0.

(** A 2x4 image of opaque black pixels. *)
Definition black_image : ImageData := image_2x4 (repeat BLACK 8).

(** A 2x4 image of transparent pixels. *)
Definition clear_image : ImageData := image_2x4 (repeat CLEAR 8).

(** A decoder that finds the given image under one path only. *)
Definition read_only (imagePath : string) (image : JimpImage) (p : string)
    : option JimpImage :=
  if String.eqb p imagePath then Some image else None.

(** The two strings the scan pushes for a change pair. *)
Definition pair_items (p : nat * Z) : list string :=
  [JS.str_of_nat p.1; hex_literal p.2].

(** The string-level scan state and the number-level one agree. *)
Definition scan_rel (st : Scan) (ch : Z * list (nat * Z)) : Prop :=
  currentColor st = ch.1
  ∧ changeCount st = length ch.2
  ∧ attributePairs st = flat_map pair_items ch.2.

(** What the change loop has established after the positions [s .. s+n-1]:
    the new pairs lie at those positions in increasing order, each at a
    non-black colour whose attribute it carries, and the tracked colour is
    the one of the last pair. *)
Definition changes_inv (rowColors : list Z) (s n : nat)
    (ch : Z * list (nat * Z)) : Prop :=
  Forall (λ p, (s ≤ p.1 < s + n)%nat
               ∧ ∃ c, rowColors !! p.1 = Some c ∧ c ≠ 0
                      ∧ p.2 = getAttributeColorCode c) ch.2
  ∧ StronglySorted lt (map fst ch.2)
  ∧ match last ch.2 with
    | None => ch.1 = -1
             ∧ ∀ x c, (s ≤ x < s + n)%nat → rowColors !! x = Some c →
                 c = 0 ∨ c = -1
    | Some p => p.2 = getAttributeColorCode ch.1
    end.

(** The line of the colour table emitted for row [y] (after the two header
    lines). *)
Definition attr_line_of (semiData : SemiGraphicData) (labelPrefix : string)
    (y : nat) : option string :=
  generateColorAttributeDB semiData labelPrefix ≫= λ lines, lines !! (2 + y)%nat.

(** The variables of the change-detection loop when it ends. *)
Definition row_scan (rowColors : list Z) : Scan :=
  let startIndex := skip_white (length rowColors) rowColors 0 in
  fold_left (scan_step rowColors)
            (seq startIndex (length rowColors - startIndex)) (mkScan (-1) 0 []).

(** The data lines of the pattern table for one row of blocks. *)
Definition row_chunks (row : list SemiGraphicBlock) : list string :=
  map (λ k, dataLine (map pattern (take 16 (drop (16 * k) row))))
      (seq 0 (JS.ceil_div (length row) 16)).

(** The pair at position [x] carrying attribute byte [attr]. *)
Definition at_x (x : nat) (attr : Z) : nat * Z := (x, attr).

(** The rows of the exporter's tests. *)
Definition ROW_BWWRRBWBWBWW : list Z := [1; 7; 7; 2; 2; 1; 7; 1; 7; 1; 7; 7].
Definition ROW_WRBWW : list Z := [7; 2; 1; 7; 7].

(** The 20-block row of the exporter's test, patterns 0 to 19. *)
Definition ROW_20 : list SemiGraphicBlock :=
  map (λ i, mkBlock (Z.of_nat i) 0) (seq 0 20).

Definition LINE_16 : string :=
  DB "$00, $01, $02, $03, $04, $05, $06, $07, $08, $09, $0A, $0B, $0C, $0D, $0E, $0F".

Definition LINE_4 : string := DB "$10, $11, $12, $13".

(** ** Pixels and dots, as the data model has them

    The notions of the statements about the converters, written on the
    bytes of the buffer and not with the tests of the conversion loops. *)

(** The bit of dot [(dx, dy)] in a pattern byte: the left column fills the
    low nibble, the right column the high one, each from top to bottom. *)
Definition dot_bit (dx dy : nat) : Z :=
  if (dx =? 0)%nat then Z.of_nat dy else 4 + Z.of_nat dy.

(** Pixel [(px, py)] lies in the image and its alpha byte is 128 or more. *)
Definition opaque_pixel (imageData : ImageData) (px py : nat) : Prop :=
  (px < id_width imageData)%nat ∧ (py < id_height imageData)%nat
  ∧ ∃ a, channel imageData px py 3 = Some a ∧ 128 <= a.

(** The palette colour nearest to the RGB bytes of pixel [(px, py)] is
    black. *)
Definition black_pixel (imageData : ImageData) (px py : nat) : Prop :=
  ∃ r g b, channel imageData px py 0 = Some r ∧ channel imageData px py 1 = Some g
           ∧ channel imageData px py 2 = Some b
           ∧ findNearestColor (mkRGB r g b) = 0.

(** Pixels of the test images: white with alpha 0, 127 and 128, and an
    opaque dark grey, which is nearest to black. *)
Definition GHOST : list Z := [255; 255; 255; 0].
Definition DIM : list Z := [255; 255; 255; 127].
Definition SOLID : list Z := [255; 255; 255; 128].
Definition GREY : list Z := [50; 50; 50; 255].

(** The 2x4 images whose pixels are all white and differ in alpha only:
    128 where the mask says so, 127 elsewhere. *)
Definition veil_image (rows : list (bool * bool)) : ImageData :=
  image_2x4 (flat_map (λ row : bool * bool, [if row.1 then SOLID else DIM;
                               if row.2 then SOLID else DIM]) rows).

Definition veil_dot_image (dx dy : nat) : ImageData :=
  veil_image (map (λ row : nat, ((dx =? 0)%nat && (dy =? row)%nat,
                           (dx =? 1)%nat && (dy =? row)%nat)) (seq 0 4)).

Definition veil_pattern (rows : list (bool * bool)) : option Z :=
  pattern_at (convertImageDataToSemiGraphic (veil_image rows)) 0 0.

Definition veil_dot_pattern (dx dy : nat) : option Z :=
  pattern_at (convertImageDataToSemiGraphic (veil_dot_image dx dy)) 0 0.

(** The 2x4 test images of one kind of pixel, and the white one with an
    opaque black pixel at [(1, 0)]. *)
Definition ghost_image : ImageData := image_2x4 (repeat GHOST 8).
Definition dim_image : ImageData := image_2x4 (repeat DIM 8).
Definition solid_image : ImageData := image_2x4 (repeat SOLID 8).
Definition grey_image : ImageData := image_2x4 (repeat GREY 8).
Definition white_image : ImageData := image_2x4 (repeat WHITE 8).
Definition spot_image : ImageData := image_2x4 (WHITE :: BLACK :: repeat WHITE 6).

(** The block a converter gives a 2x4 image. *)
Definition via_buffer (imageData : ImageData) : option SemiGraphicBlock :=
  block_at (convertImageDataToSemiGraphic imageData) 0 0.

Definition via_jimp (imageData : ImageData) : option SemiGraphicBlock :=
  block_at (convertJimpToSemiGraphic (jimp_of_data imageData)) 0 0.

(** ** The text of the colour table, character by character

    What the assembler is to read on a line, written without the
    formatting functions of the exporter. *)

Definition tab : ascii := "009"%char.

(** A [DB] line with the given operand text. *)
Definition data_line (body : string) : string :=
  String tab (String "D" (String "B" (String tab body))).

(** A count or a position, in decimal. *)
Definition dec (n : nat) : string := DecimalString.NilZero.string_of_uint (Nat.to_uint n).

Definition hex_digit (d : Z) : ascii :=
  default "F"%char
    (["0"; "1"; "2"; "3"; "4"; "5"; "6"; "7"; "8"; "9"; "A"; "B"; "C"; "D"; "E"; "F"]%char
       !! Z.to_nat d).

(** A byte, as [$] and two upper-case hexadecimal digits. *)
Definition byte_text (v : Z) : string :=
  String "$" (String (hex_digit (v / 16)) (String (hex_digit (v mod 16)) EmptyString)).

(** The operands of a line of the colour table: the count, then for every
    pair its position and its attribute byte, separated by a comma and a
    space. *)
Definition attr_fields (count : nat) (pairs : list (nat * Z)) : list string :=
  dec count :: flat_map (λ p : nat * Z, [dec p.1; byte_text p.2]) pairs.

Definition attr_text (count : nat) (pairs : list (nat * Z)) : string :=
  data_line (String.concat ", " (attr_fields count pairs)).

(** The attribute byte of a palette index, [(index << 5) | 0x18]; the one
    of white for any other number. *)
Definition attribute_byte (c : Z) : Z :=
  if (0 <=? c) && (c <=? 7) then Z.lor (Z.shiftl c 5) 0x18 else 0xF8.

(** The colour in force before position [x] of a row read from position
    [s] on: the last colour other than black at the positions [s .. x-1]. *)
Definition active_before (rowColors : list Z) (s x : nat) : option Z :=
  last (filter (λ c, c ≠ 0) (take (x - s) (drop s rowColors))).

(** Position [x] of a row is a change to attribute [attr]: it lies past
    the leading white run, its colour is not black and is not the colour in
    force before it, and [attr] is the attribute byte of that colour. *)
Definition change_at (rowColors : list Z) (x : nat) (attr : Z) : Prop :=
  (leading_white rowColors ≤ x)%nat
  ∧ ∃ c, rowColors !! x = Some c ∧ c ≠ 0
         ∧ active_before rowColors (leading_white rowColors) x ≠ Some c
         ∧ attr = attribute_byte c.

(** A row with black blocks between its colours. *)
Definition ROW_RKRKBKKW : list Z := [2; 0; 2; 0; 1; 0; 0; 7].

(** The palette index obtained by rounding each channel to 0 or 255:
    bit 0 for blue, bit 1 for red, bit 2 for green. *)
Definition threshold_index (rgb : RGBColor) : nat :=
  ((if (128 <=? b rgb)%Z then 1 else 0)
   + (if (128 <=? r rgb)%Z then 2 else 0)
   + (if (128 <=? g rgb)%Z then 4 else 0))%nat.

(** The attribute in force at position [x] of a row printed as [pairs]:
    the one of the last pair at or before [x], if there is one. *)
Definition attr_in_force (pairs : list (nat * Z)) (x : nat) : option Z :=
  snd <$> last (filter (λ p, (p.1 ≤ x)%nat) pairs).

(** No two pairs in a row carry the same attribute. *)
Definition neighbours_differ (pairs : list (nat * Z)) : Prop :=
  ∀ i p q, pairs !! i = Some p → pairs !! S i = Some q → p.2 ≠ q.2.

(** What the change loop keeps when the colours are palette indices. *)
Definition tracked_inv (ch : Z * list (nat * Z)) : Prop :=
  (ch.2 = [] ∨ 1 <= ch.1 < 8)
  ∧ (∀ p, last ch.2 = Some p → p.2 = getAttributeColorCode ch.1)
  ∧ neighbours_differ ch.2.

(** ** Vocabulary of the statistics *)

(** The blocks of a grid, row after row. *)
Definition all_blocks (semiData : SemiGraphicData) : list SemiGraphicBlock :=
  concat (blocks semiData).

(** Blocks with at least one dot. *)
Definition lit_blocks (l : list SemiGraphicBlock) : nat :=
  length (filter (λ block, 0 < pattern block) l).

(** The frequency object after counting a list of colour codes. *)
Definition tally (colors : list Z) (frequency : list (Z * nat)) : list (Z * nat) :=
  fold_left (λ frequency color, freq_incr color frequency) colors frequency.

(** ** Vocabulary of the image loader *)

(** A decoded image with its pixel values reduced to unsigned 32-bit
    numbers. *)
Definition uint32_image (image : JimpImage) : JimpImage :=
  mkJimp (bitmap_width image) (bitmap_height image)
         (λ px py, JS.toUint32 (getPixelColor image px py)).

(** * Properties *)

(** ** Nearest palette colour *)

Lemma nearest_inv_step rgb k st :
  (k < length DIGITAL_COLORS)%nat →
  nearest_inv rgb k st → nearest_inv rgb (S k) (nearest_step rgb st k).
Proof.
  intros Hk Hinv. unfold nearest_step.
  destruct (lookup_lt_is_Some_2 DIGITAL_COLORS k Hk) as [color Hc].
  rewrite Hc. destruct st as [[m|] idx]; unfold nearest_inv in *; simpl in *.
  - destruct Hinv as (i & ci & -> & Hi & Hci & -> & Hmin).
    destruct (Z.ltb_spec (distance2 rgb color) (distance2 rgb ci)) as [Hlt|Hge]; simpl.
    + exists k, color. split_and!; try done; try lia.
      intros j c Hj Hjc. destruct (decide (j = k)) as [->|Hne].
      * simplify_eq. lia.
      * destruct (Hmin j c) as [Hle _]; [lia|done|]. lia.
    + exists i, ci. split_and!; try done; try lia.
      intros j c Hj Hjc. destruct (decide (j = k)) as [->|Hne].
      * simplify_eq. lia.
      * destruct (Hmin j c) as [Hle Hl]; [lia|done|]. done.
  - destruct Hinv as [-> ->]. exists 0%nat, color. split_and!; try done; try lia.
    intros j c Hj Hjc. assert (j = 0%nat) as -> by lia. simplify_eq. lia.
Qed.

Lemma nearest_inv_fold rgb k :
  (k ≤ length DIGITAL_COLORS)%nat →
  nearest_inv rgb k (fold_left (nearest_step rgb) (seq 0 k) (None, 0)).
Proof.
  induction k as [|k IH]; intros Hk.
  - by split.
  - rewrite seq_S, fold_left_app. simpl. apply nearest_inv_step; [lia|]. apply IH. lia.
Qed.

(** C8: [findNearestColor] returns an index 0..7 of the palette whose
    entry is at least as near (in Euclidean distance, compared through its
    square) as every other entry and strictly nearer than every entry of
    smaller index; every palette entry maps to its own index; RGB(50,50,50)
    maps to 0, RGB(200,200,200) to 7 and RGB(200,100,0) to 2. *)
Theorem findNearestColor_nearest :
  (∀ rgb, ∃ i color,
      findNearestColor rgb = Z.of_nat i ∧ (i < 8)%nat
      ∧ DIGITAL_COLORS !! i = Some color
      ∧ ∀ j c, DIGITAL_COLORS !! j = Some c →
          distance2 rgb color <= distance2 rgb c
          ∧ ((j < i)%nat → distance2 rgb color < distance2 rgb c))
  ∧ (∀ i color, DIGITAL_COLORS !! i = Some color →
        findNearestColor color = Z.of_nat i)
  ∧ findNearestColor (mkRGB 50 50 50) = 0
  ∧ findNearestColor (mkRGB 200 200 200) = 7
  ∧ findNearestColor (mkRGB 200 100 0) = 2.
Proof.
  split; [|split; [|by vm_compute]].
  - intros rgb. pose proof (nearest_inv_fold rgb (length DIGITAL_COLORS) (le_n _)) as Hinv.
    unfold findNearestColor. unfold nearest_inv in Hinv.
    destruct (fold_left _ _ _) as [[d|] idx]; simpl in *.
    + destruct Hinv as (i & color & -> & Hi & Hc & -> & Hmin).
      exists i, color. split_and!; try done.
      intros j c Hjc. apply Hmin; [|done]. apply (lookup_lt_Some _ _ _ Hjc).
    + destruct Hinv as [Hlen _]. discriminate Hlen.
  - intros i color Hc.
    do 8 (destruct i as [|i]; [injection Hc as <-; by vm_compute|]).
    discriminate Hc.
Qed.

Lemma findNearestColor_nearest_witness : findNearestColor (mkRGB 255 0 0) = 2.
Proof.
  apply (proj1 (proj2 findNearestColor_nearest) 2%nat (mkRGB 255 0 0)).
  reflexivity.
Defined.

(** ** Majority vote *)

Lemma freq_get_cons k e f :
  freq_get k (e :: f) = ((if decide (e.1 = k) then e.2 else 0) + freq_get k f)%nat.
Proof. unfold freq_get. rewrite filter_cons. by case_decide. Qed.

Lemma freq_get_incr k c f :
  freq_get k (freq_incr c f) =
    if decide (k = c) then S (freq_get c f) else freq_get k f.
Proof.
  induction f as [|[k' n] f IH]; simpl.
  - rewrite freq_get_cons. simpl. repeat case_decide; simplify_eq; done.
  - destruct (Z.eqb_spec c k') as [->|Hne].
    + rewrite !freq_get_cons. simpl. repeat case_decide; simplify_eq; done.
    + destruct (_ && _).
      * rewrite !freq_get_cons. simpl. repeat case_decide; simplify_eq; lia.
      * rewrite !freq_get_cons, IH. simpl. repeat case_decide; simplify_eq; lia.
Qed.

Lemma freq_incr_keys (P : Z * nat → Prop) c f :
  P (c, 1%nat) → (∀ k n, P (k, n) → P (k, S n)) →
  Forall P f → Forall P (freq_incr c f).
Proof.
  intros Hc Hk. induction 1 as [|[k n] f Hx Hf IH]; simpl.
  - by constructor.
  - destruct (c =? k); [constructor; eauto|].
    destruct (_ && _); repeat constructor; eauto.
Qed.

Lemma freq_incr_ok c f :
  is_array_index c = true → freq_ok f → freq_ok (freq_incr c f).
Proof.
  intros Hc [Hs Hp]. split.
  - induction Hs as [|[k n] f Hs IH Hall]; simpl.
    + repeat constructor.
    + apply Forall_cons in Hp as [[Hk _] Hp].
      destruct (Z.eqb_spec c k) as [->|Hne].
      * constructor; [done|]. eapply Forall_impl; [exact Hall|]. by intros [].
      * simpl in Hk. rewrite Hc, Hk. simpl.
        destruct (Z.ltb_spec c k) as [Hlt|Hge].
        -- constructor; [by constructor|]. constructor; [done|].
           eapply Forall_impl; [exact Hall|]. intros []; simpl. lia.
        -- constructor; [by apply IH|].
           apply freq_incr_keys; [simpl; lia|intros; simpl in *; lia|done].
  - apply freq_incr_keys; [simpl; split; [done|lia]|intros ?? []; simpl in *; split; [done|lia]|done].
Qed.

Lemma count_votes_from_ok colors f :
  Forall (λ c, is_array_index c = true) colors → freq_ok f →
  freq_ok (fold_left (λ frequency color,
             if color =? 0 then frequency else freq_incr color frequency) colors f).
Proof.
  intros Hc. revert f. induction Hc as [|c colors Hx _ IH]; intros f Hf; simpl; [done|].
  apply IH. destruct (c =? 0); [done|]. by apply freq_incr_ok.
Qed.

Lemma votes_for_cons k c colors :
  votes_for k (c :: colors) = ((if decide (c = k) then 1 else 0) + votes_for k colors)%nat.
Proof. unfold votes_for. rewrite filter_cons. by case_decide. Qed.

Lemma count_votes_from_get k colors f :
  freq_get k (fold_left (λ frequency color,
             if color =? 0 then frequency else freq_incr color frequency) colors f)
  = (freq_get k f + if decide (k = 0%Z) then 0 else votes_for k colors)%nat.
Proof.
  revert f. induction colors as [|c colors IH]; intros f; simpl.
  - case_decide; unfold votes_for; simpl; lia.
  - rewrite IH, votes_for_cons. destruct (Z.eqb_spec c 0) as [->|Hne].
    + repeat case_decide; simplify_eq; lia.
    + rewrite freq_get_incr. repeat case_decide; simplify_eq; lia.
Qed.

Lemma count_votes_get k colors :
  freq_get k (count_votes colors) = if decide (k = 0) then 0%nat else votes_for k colors.
Proof. unfold count_votes. by rewrite count_votes_from_get. Qed.

Lemma count_votes_ok colors :
  Forall (λ c, is_array_index c = true) colors → freq_ok (count_votes colors).
Proof.
  intros H. apply count_votes_from_ok; [done|]. split; constructor.
Qed.

Lemma freq_get_absent k f : Forall (λ e, e.1 ≠ k) f → freq_get k f = 0%nat.
Proof.
  induction 1 as [|e f He _ IH]; [done|].
  rewrite freq_get_cons, IH. by rewrite decide_False.
Qed.

(** In a sorted frequency list an entry holds the count of its key. *)
Lemma freq_ok_elem k n f : freq_ok f → (k, n) ∈ f → freq_get k f = n ∧ (0 < n)%nat.
Proof.
  intros [Hs Hp]. induction Hs as [|[k' n'] f Hs IH Hall]; intros Hin.
  - by apply elem_of_nil in Hin.
  - apply Forall_cons in Hp as [[_ Hpos] Hp]. rewrite freq_get_cons. simpl in *.
    apply elem_of_cons in Hin as [Heq|Hin].
    + simplify_eq. rewrite decide_True by done.
      assert (freq_get k' f = 0%nat) as ->; [|lia].
      apply freq_get_absent.
      eapply Forall_impl; [exact Hall|]. intros []; simpl. lia.
    + rewrite Forall_forall in Hall. specialize (Hall _ Hin). simpl in Hall.
      rewrite decide_False by lia. by apply IH.
Qed.

Lemma freq_get_pos k f : (0 < freq_get k f)%nat → ∃ n, (k, n) ∈ f.
Proof.
  induction f as [|[k' n'] f IH]; [unfold freq_get; simpl; lia|].
  rewrite freq_get_cons. simpl. case_decide as Hk.
  - subst. intros _. exists n'. by left.
  - intros H. destruct IH as [n Hn]; [lia|]. exists n. by right.
Qed.

(** The scan for the largest count keeps the first entry that reaches it. *)
Lemma most_scan f m0 w0 :
  let res := fold_left most_step f (m0, w0) in
  (res = (m0, w0) ∧ Forall (λ e, (e.2 ≤ m0)%nat) f)
  ∨ ∃ f1 f2, f = f1 ++ (res.2, res.1) :: f2
       ∧ (m0 < res.1)%nat
       ∧ Forall (λ e, (e.2 < res.1)%nat) f1
       ∧ Forall (λ e, (e.2 ≤ res.1)%nat) f2.
Proof.
  revert m0 w0. induction f as [|[k n] f IH]; intros m0 w0; simpl.
  - left. by split.
  - destruct (Nat.ltb_spec m0 n) as [Hlt|Hge].
    + destruct (IH n k) as [[Heq Hall]|(f1 & f2 & Hf & Hm & H1 & H2)].
      * right. exists [], f. rewrite Heq. simpl. split_and!; done.
      * right. exists ((k, n) :: f1), f2. simpl. split_and!; try lia.
        -- by rewrite Hf at 1.
        -- constructor; [simpl; lia|done].
        -- done.
    + destruct (IH m0 w0) as [[Heq Hall]|(f1 & f2 & Hf & Hm & H1 & H2)].
      * left. split; [done|]. constructor; [simpl; lia|done].
      * right. exists ((k, n) :: f1), f2. simpl. split_and!; try done.
        -- by rewrite Hf at 1.
        -- constructor; [simpl; lia|done].
Qed.

Lemma votes_for_pos k colors : k ∈ colors ↔ (0 < votes_for k colors)%nat.
Proof.
  induction colors as [|c colors IH].
  - unfold votes_for. simpl. split; [intros H; by apply elem_of_nil in H|lia].
  - rewrite votes_for_cons, elem_of_cons. case_decide as E.
    + split; [lia|intros _; by left].
    + split.
      * intros [->|H]; [done|]. apply IH in H. lia.
      * intros H. right. apply IH. lia.
Qed.

Lemma getMostFrequentColor_tally colors :
  getMostFrequentColor colors = (fold_left most_step (count_votes colors) (0%nat, 0)).2.
Proof. unfold getMostFrequentColor. by destruct colors. Qed.

Lemma getMostFrequentColor_all_black colors :
  Forall (λ c, c = 0) colors → getMostFrequentColor colors = 0.
Proof.
  intros Hall. rewrite getMostFrequentColor_tally.
  assert (count_votes colors = []) as ->; [|done].
  unfold count_votes. induction Hall as [|c colors -> _ IH]; [done|]. simpl. exact IH.
Qed.

(** C7: the colour code of a block is 0 when it has no vote or only black
    votes; otherwise it is a non-black vote with the largest number of
    votes, and among the colours with that number the one of smallest
    index; 4 red votes and 2 green ones, with or without 2 unset dots voting
    black, give red (2). *)
Theorem getMostFrequentColor_majority :
  (∀ colors, Forall (λ c, c = 0) colors → getMostFrequentColor colors = 0)
  ∧ (∀ colors, Forall (λ c, 0 <= c < 8) colors → Exists (λ c, c ≠ 0) colors →
       let winner := getMostFrequentColor colors in
       winner ≠ 0 ∧ winner ∈ colors
       ∧ ∀ c, c ≠ 0 →
           (votes_for c colors ≤ votes_for winner colors)%nat
           ∧ (c < winner → (votes_for c colors < votes_for winner colors)%nat))
  ∧ getMostFrequentColor [2; 2; 2; 2; 4; 4] = 2
  ∧ getMostFrequentColor [2; 4; 2; 2; 0; 0; 2; 4] = 2
  ∧ getMostFrequentColor [4; 4; 2; 2] = 2.
Proof.
  split; [|split; [|by vm_compute]].
  - apply getMostFrequentColor_all_black.
  - intros colors Hrange Hex winner.
    assert (Hidx : Forall (λ c, is_array_index c = true) colors).
    { eapply Forall_impl; [exact Hrange|]. intros c Hc. unfold is_array_index.
      simpl in Hc. apply andb_true_intro. split; [apply Z.leb_le|apply Z.ltb_lt]; lia. }
    pose proof (count_votes_ok colors Hidx) as Hok.
    assert (Hentry : ∀ k n, (k, n) ∈ count_votes colors →
               k ≠ 0 ∧ n = votes_for k colors ∧ (0 < n)%nat).
    { intros k n Hin. destruct (freq_ok_elem k n _ Hok Hin) as [Hget Hpos].
      rewrite count_votes_get in Hget. case_decide; [lia|]. by subst. }
    assert (Hhas : ∀ c, c ≠ 0 → c ∈ colors → (c, votes_for c colors) ∈ count_votes colors).
    { intros c Hc Hin. apply votes_for_pos in Hin.
      destruct (freq_get_pos c (count_votes colors)) as [n Hn].
      - rewrite count_votes_get. by case_decide.
      - by destruct (Hentry c n Hn) as (_ & -> & _). }
    subst winner. rewrite getMostFrequentColor_tally.
    destruct (most_scan (count_votes colors) 0%nat 0)
      as [[_ Hall]|(f1 & f2 & Hf & Hm & H1 & H2)].
    { exfalso. apply Exists_exists in Hex as (c & Hin & Hc).
      rewrite Forall_forall in Hall. specialize (Hall _ (Hhas c Hc Hin)).
      apply votes_for_pos in Hin. simpl in Hall. lia. }
    set (res := fold_left most_step (count_votes colors) (0%nat, 0)) in *.
    assert (Hw : (res.2, res.1) ∈ count_votes colors).
    { rewrite Hf. apply elem_of_app. right. by left. }
    destruct (Hentry _ _ Hw) as (Hw0 & Hwn & Hwpos).
    split_and!; [done|by apply votes_for_pos; lia|].
    intros c Hc. rewrite <-Hwn.
    destruct (decide (c ∈ colors)) as [Hin|Hnin].
    + pose proof (Hhas c Hc Hin) as Hcin. rewrite Hf in Hcin.
      apply elem_of_app in Hcin as [Hc1|Hc2].
      * rewrite Forall_forall in H1. specialize (H1 _ Hc1). simpl in H1. lia.
      * apply elem_of_cons in Hc2 as [Heq|Hc2].
        { injection Heq as -> ->. lia. }
        rewrite Forall_forall in H2. specialize (H2 _ Hc2). simpl in H2.
        split; [lia|]. intros Hlt. exfalso.
        destruct Hok as [Hs _]. rewrite Hf in Hs.
        apply StronglySorted_app_1_r in Hs.
        apply StronglySorted_cons in Hs as [Hs _].
        rewrite Forall_forall in Hs. specialize (Hs _ Hc2). simpl in Hs. lia.
    + assert (votes_for c colors = 0%nat) as ->; [|lia].
      destruct (votes_for c colors) eqn:E; [done|].
      exfalso. apply Hnin, votes_for_pos. lia.
Qed.

Lemma getMostFrequentColor_majority_witness :
  getMostFrequentColor [2; 4; 2; 2; 0; 0; 2; 4] ≠ 0
  ∧ getMostFrequentColor [2; 4; 2; 2; 0; 0; 2; 4] ∈ [2; 4; 2; 2; 0; 0; 2; 4].
Proof.
  destruct (proj1 (proj2 getMostFrequentColor_majority) [2; 4; 2; 2; 0; 0; 2; 4])
    as (Hne & Hin & _).
  - repeat constructor; discriminate.
  - left. discriminate.
  - split; [exact Hne|exact Hin].
Defined.

(** ** Blocks of the converter *)

(** Case analysis on the position [(dx, dy)] of a dot in its block. *)
Ltac each_dot dx dy :=
  let Hd := fresh "Hd" in
  let Hy := fresh "Hy" in
  assert (Hd : (dx = 0 ∨ dx = 1)%nat) by lia;
  assert (Hy : (dy = 0 ∨ dy = 1 ∨ dy = 2 ∨ dy = 3)%nat) by lia;
  destruct Hd as [-> | ->], Hy as [-> | [-> | [-> | ->]]].

(** Case analysis on the eight dots of a mask. *)
Ltac each_mask lit :=
  destruct (lit 0%nat 0%nat), (lit 1%nat 0%nat), (lit 0%nat 1%nat),
    (lit 1%nat 1%nat), (lit 0%nat 2%nat), (lit 1%nat 2%nat),
    (lit 0%nat 3%nat), (lit 1%nat 3%nat).

(** *** The dot loops *)

Lemma for_dots_dots body st :
  for_dots body st = fold_left (λ st d, body d.1 d.2 st) dots st.
Proof. reflexivity. Qed.

Lemma data_dot_vote x y imageData dx dy p cs :
  data_dot x y imageData dx dy (p, cs) =
    (if negb (data_vote imageData x y dx dy =? 0)
     then set_bit p (bitIndex dx dy) else p,
     cs ++ [data_vote imageData x y dx dy]).
Proof.
  unfold data_dot, data_vote, opaque_at, nearest_at, in_image, channel.
  rewrite Nat.add_0_r.
  destruct (_ && _)%nat; simpl; [|done].
  destruct (read_lt_128 _); simpl; [done|].
  by destruct (_ =? 0).
Qed.

Lemma data_dots_fold x y imageData ds p cs :
  fold_left (λ st d, data_dot x y imageData d.1 d.2 st) ds (p, cs) =
    (fold_left (λ p d, if negb (data_vote imageData x y d.1 d.2 =? 0)
                       then set_bit p (bitIndex d.1 d.2) else p) ds p,
     cs ++ map (λ d, data_vote imageData x y d.1 d.2) ds).
Proof.
  revert p cs. induction ds as [|d ds IH]; intros p cs; cbn [fold_left map].
  - by rewrite app_nil_r.
  - rewrite data_dot_vote, IH. by rewrite <-app_assoc.
Qed.

Lemma data_block_eq x y imageData :
  data_block x y imageData =
    mkBlock (pattern_of (λ dx dy, negb (data_vote imageData x y dx dy =? 0)))
            (getMostFrequentColor (map (λ d, data_vote imageData x y d.1 d.2) dots)).
Proof.
  unfold data_block. rewrite for_dots_dots, data_dots_fold. reflexivity.
Qed.

Lemma jimp_dot_opaque x y image dx dy p cs :
  jimp_dot x y image (bitmap_width image) (bitmap_height image) dx dy (p, cs) =
    let px := (x * 2 + dx)%nat in
    let py := (y * 4 + dy)%nat in
    if jimp_opaque_at image px py
    then (set_bit p (bitIndex dx dy), cs ++ [jimp_nearest image px py])
    else (p, cs).
Proof.
  unfold jimp_dot, jimp_opaque_at, jimp_nearest, jimp_alpha, in_image. simpl.
  destruct (Nat.leb_spec (bitmap_width image) (x * 2 + dx)) as [Hw|Hw];
    destruct (Nat.leb_spec (bitmap_height image) (y * 4 + dy)) as [Hh|Hh]; simpl.
  - rewrite (proj2 (Nat.ltb_ge _ _)) by done. done.
  - rewrite (proj2 (Nat.ltb_ge _ _)) by done. done.
  - rewrite (proj2 (Nat.ltb_lt _ _)) by done.
    rewrite (proj2 (Nat.ltb_ge _ _)) by done. done.
  - rewrite !(proj2 (Nat.ltb_lt _ _)) by done. simpl.
    by destruct (127 <? _).
Qed.

Lemma jimp_dots_fold x y image ds p cs :
  fold_left (λ st d, jimp_dot x y image (bitmap_width image) (bitmap_height image)
                              d.1 d.2 st) ds (p, cs) =
    (fold_left (λ p d, if jimp_opaque_at image (x * 2 + d.1) (y * 4 + d.2)
                       then set_bit p (bitIndex d.1 d.2) else p) ds p,
     cs ++ jimp_votes image x y ds).
Proof.
  revert p cs. induction ds as [|d ds IH]; intros p cs.
  - simpl. by rewrite app_nil_r.
  - change (jimp_votes image x y (d :: ds))
      with ((if jimp_opaque_at image (x * 2 + d.1) (y * 4 + d.2)
             then [jimp_nearest image (x * 2 + d.1) (y * 4 + d.2)] else [])
            ++ jimp_votes image x y ds).
    cbn [fold_left]. rewrite jimp_dot_opaque. cbv zeta.
    destruct (jimp_opaque_at _ _ _).
    + rewrite IH. by rewrite <-app_assoc.
    + by rewrite IH.
Qed.

Lemma jimp_block_eq x y image :
  generateSemiGraphicBlockFromJimp x y image (bitmap_width image) (bitmap_height image) =
    mkBlock (pattern_of (λ dx dy, jimp_opaque_at image (x * 2 + dx) (y * 4 + dy)))
            (getMostFrequentColor (jimp_votes image x y dots)).
Proof.
  unfold generateSemiGraphicBlockFromJimp.
  rewrite for_dots_dots, jimp_dots_fold. reflexivity.
Qed.

(** *** The pattern byte *)

Lemma pattern_of_sum lit :
  pattern_of lit =
    b2z (lit 0 0)%nat + 2 * b2z (lit 0 1)%nat + 4 * b2z (lit 0 2)%nat
    + 8 * b2z (lit 0 3)%nat + 16 * b2z (lit 1 0)%nat + 32 * b2z (lit 1 1)%nat
    + 64 * b2z (lit 1 2)%nat + 128 * b2z (lit 1 3)%nat.
Proof.
  unfold pattern_of, dots. simpl.
  each_mask lit; reflexivity.
Qed.

Lemma pattern_of_range lit : 0 <= pattern_of lit < 256.
Proof.
  rewrite pattern_of_sum. unfold b2z.
  each_mask lit; lia.
Qed.

Lemma pattern_of_testbit lit dx dy :
  (dx < 2)%nat → (dy < 4)%nat →
  Z.testbit (pattern_of lit) (Z.of_nat (bitIndex dx dy)) = lit dx dy.
Proof.
  intros Hdx Hdy. rewrite pattern_of_sum.
  each_dot dx dy; each_mask lit; reflexivity.
Qed.

Lemma pattern_of_ext lit1 lit2 :
  (∀ dx dy, (dx < 2)%nat → (dy < 4)%nat → lit1 dx dy = lit2 dx dy) →
  pattern_of lit1 = pattern_of lit2.
Proof.
  intros H. rewrite !pattern_of_sum. by rewrite !H by lia.
Qed.

Lemma pattern_of_single dx dy :
  (dx < 2)%nat → (dy < 4)%nat →
  pattern_of (λ dx' dy', (dx' =? dx)%nat && (dy' =? dy)%nat)
  = Z.shiftl 1 (Z.of_nat (bitIndex dx dy)).
Proof.
  intros Hdx Hdy.
  each_dot dx dy; reflexivity.
Qed.

Lemma set_bit_testbit p bit n :
  0 <= n →
  Z.testbit (set_bit p bit) n = Z.testbit p n || (n =? Z.of_nat bit).
Proof.
  intros Hn. unfold set_bit.
  rewrite Z.lor_spec, Z.shiftl_1_l, Z.pow2_bits_eqb by lia.
  by rewrite Z.eqb_sym.
Qed.

Lemma pattern_fold_testbit (lit : nat → nat → bool) ds p n :
  0 <= n →
  Z.testbit (fold_left (λ p d, if lit d.1 d.2 then set_bit p (bitIndex d.1 d.2)
                               else p) ds p) n
  = Z.testbit p n
    || existsb (λ d, lit d.1 d.2 && (n =? Z.of_nat (bitIndex d.1 d.2))) ds.
Proof.
  intros Hn. revert p. induction ds as [|d ds IH]; intros p; cbn [fold_left existsb].
  - by rewrite orb_false_r.
  - rewrite IH. destruct (lit d.1 d.2); cbn [andb orb].
    + by rewrite set_bit_testbit, orb_assoc.
    + done.
Qed.

(** The bits of a mask contained in another are contained in its byte. *)
Lemma pattern_of_subset lit1 lit2 :
  (∀ dx dy, (dx < 2)%nat → (dy < 4)%nat → lit1 dx dy = true → lit2 dx dy = true) →
  Z.land (pattern_of lit1) (pattern_of lit2) = pattern_of lit1.
Proof.
  intros H. apply Z.bits_inj'. intros n Hn.
  unfold pattern_of. rewrite Z.land_spec, !pattern_fold_testbit by done.
  rewrite Z.bits_0. cbn [orb].
  destruct (existsb _ dots) eqn:E1; [|done]. cbn [andb].
  apply existsb_exists in E1 as ([dx dy] & Hin & Hd).
  apply andb_prop in Hd as [Hl Hb].
  apply existsb_exists. exists (dx, dy). split; [done|].
  apply andb_true_intro. split; [|done].
  assert (dx < 2 ∧ dy < 4)%nat as [??]; [|by apply H].
  unfold dots in Hin. simpl in Hin.
  repeat (destruct Hin as [Hin|Hin]; [injection Hin as <- <-; lia|]).
  destruct Hin.
Qed.
Lemma band_255 v : JS.band v 255 = JS.toInt32 v mod 256.
Proof.
  unfold JS.band. change (JS.toInt32 255) with (Z.ones 8).
  by rewrite Z.land_ones.
Qed.

Lemma sar_div v n : 0 <= n → JS.sar v n = JS.toInt32 v / 2 ^ n.
Proof. intros Hn. unfold JS.sar. by rewrite Z.shiftr_div_pow2. Qed.

Lemma unpack_rgba r g b a :
  0 <= r < 256 → 0 <= g < 256 → 0 <= b < 256 → 0 <= a < 256 →
  let color := rgba r g b a in
  JS.band (JS.sar color 24) 255 = r
  ∧ JS.band (JS.sar color 16) 255 = g
  ∧ JS.band (JS.sar color 8) 255 = b
  ∧ JS.band color 255 = a.
Proof.
  intros Hr Hg Hb Ha color. subst color.
  rewrite !band_255, !sar_div by lia. unfold JS.toInt32, rgba.
  change (2 ^ 31) with 2147483648. change (2 ^ 32) with 4294967296.
  change (2 ^ 24) with 16777216. change (2 ^ 16) with 65536. change (2 ^ 8) with 256.
  split_and!; Z.div_mod_to_equations; lia.
Qed.

(** *** Grids produced by the converter *)

Lemma semi_size n k : (0 < k)%nat → (JS.ceil_div n k * k / k)%nat = JS.ceil_div n k.
Proof. intros Hk. apply Nat.div_mul. lia. Qed.

Lemma grid_lookup {A} (f : nat → nat → A) w h y x :
  (x < w)%nat → (y < h)%nat →
  (map (λ y, map (λ x, f x y) (seq 0 w)) (seq 0 h)) !! y ≫= (λ row, row !! x)
  = Some (f x y).
Proof.
  intros Hx Hy.
  rewrite (list_lookup_fmap (λ y, map (λ x, f x y) (seq 0 w))), lookup_seq_lt by done.
  simpl. rewrite (list_lookup_fmap (λ x, f x y)), lookup_seq_lt by done. done.
Qed.

Lemma grid_lookup_Some {A} (f : nat → nat → A) w h y x v :
  (map (λ y, map (λ x, f x y) (seq 0 w)) (seq 0 h)) !! y ≫= (λ row, row !! x)
  = Some v → (x < w)%nat ∧ (y < h)%nat ∧ v = f x y.
Proof.
  intros H. apply bind_Some in H as (row & Hrow & Hv).
  apply (list_lookup_fmap_Some (λ y, map (λ x, f x y) (seq 0 w))) in Hrow
    as (y' & -> & Hy). apply lookup_seq in Hy as [-> Hy].
  apply (list_lookup_fmap_Some (λ x, f x y)) in Hv as (x' & -> & Hx).
  apply lookup_seq in Hx as [-> Hx]. done.
Qed.

Lemma convertImageData_block imageData y x :
  (x < JS.ceil_div (id_width imageData) 2)%nat →
  (y < JS.ceil_div (id_height imageData) 4)%nat →
  block_at (convertImageDataToSemiGraphic imageData) y x
  = Some (data_block x y imageData).
Proof.
  intros Hx Hy. unfold block_at, convertImageDataToSemiGraphic. cbn [blocks].
  rewrite !semi_size by lia. by apply (grid_lookup (λ x y, data_block x y imageData)).
Qed.

Lemma convertJimp_block image y x :
  (x < JS.ceil_div (bitmap_width image) 2)%nat →
  (y < JS.ceil_div (bitmap_height image) 4)%nat →
  block_at (convertJimpToSemiGraphic image) y x
  = Some (generateSemiGraphicBlockFromJimp x y image (bitmap_width image)
            (bitmap_height image)).
Proof.
  intros Hx Hy. unfold block_at, convertJimpToSemiGraphic. cbn [blocks].
  rewrite !semi_size by lia.
  by apply (grid_lookup (λ x y, generateSemiGraphicBlockFromJimp x y image _ _)).
Qed.

(** *** Votes *)

Lemma count_votes_from_filter colors f :
  fold_left (λ frequency color,
               if color =? 0 then frequency else freq_incr color frequency)
            (filter (λ c, c ≠ 0) colors) f
  = fold_left (λ frequency color,
               if color =? 0 then frequency else freq_incr color frequency)
            colors f.
Proof.
  revert f. induction colors as [|c colors IH]; intros f; [done|].
  rewrite filter_cons. case_decide as Hc; cbn [fold_left].
  - by rewrite IH.
  - assert (c = 0) as -> by lia. simpl. by rewrite IH.
Qed.

Lemma getMostFrequentColor_nonzero colors :
  getMostFrequentColor (filter (λ c, c ≠ 0) colors) = getMostFrequentColor colors.
Proof.
  rewrite !getMostFrequentColor_tally. unfold count_votes.
  by rewrite count_votes_from_filter.
Qed.

(** *** The two readings of a pixel *)

Lemma wf_channel imageData px py c :
  wf_image imageData →
  (px < id_width imageData)%nat → (py < id_height imageData)%nat → (c < 4)%nat →
  ∃ v, channel imageData px py c = Some v ∧ 0 <= v < 256.
Proof.
  intros [Hlen Hbytes] Hx Hy Hc. unfold channel.
  destruct (lookup_lt_is_Some_2 (id_data imageData)
              ((py * id_width imageData + px) * 4 + c)) as [v Hv].
  { rewrite Hlen. nia. }
  exists v. split; [done|]. by eapply (Forall_lookup_1 _ _ _ _ Hbytes).
Qed.

Lemma same_pixels_reads image imageData px py :
  same_pixels image imageData →
  in_image (id_width imageData) (id_height imageData) px py = true →
  ∃ r g b a,
    channel imageData px py 0 = Some r ∧ channel imageData px py 1 = Some g
    ∧ channel imageData px py 2 = Some b ∧ channel imageData px py 3 = Some a
    ∧ 0 <= a < 256
    ∧ jimp_alpha image px py = a
    ∧ jimp_nearest image px py = findNearestColor (mkRGB r g b).
Proof.
  intros (Hw & Hh & Hwf & Hpix) Hin. unfold in_image in Hin.
  apply andb_prop in Hin as [Hx%Nat.ltb_lt Hy%Nat.ltb_lt].
  destruct (wf_channel imageData px py 0 Hwf Hx Hy) as (r & Hr & Hrb); [lia|].
  destruct (wf_channel imageData px py 1 Hwf Hx Hy) as (g & Hg & Hgb); [lia|].
  destruct (wf_channel imageData px py 2 Hwf Hx Hy) as (b & Hb & Hbb); [lia|].
  destruct (wf_channel imageData px py 3 Hwf Hx Hy) as (a & Ha & Hab); [lia|].
  exists r, g, b, a. split_and!; try done; try lia.
  - unfold jimp_alpha. rewrite Hpix by done. simpl. rewrite Hr, Hg, Hb, Ha. simpl.
    by apply unpack_rgba.
  - unfold jimp_nearest. cbv zeta. rewrite Hpix by done. simpl. rewrite Hr, Hg, Hb, Ha. simpl.
    destruct (unpack_rgba r g b a Hrb Hgb Hbb Hab) as (-> & -> & -> & _). done.
Qed.

Lemma same_pixels_opaque image imageData px py :
  same_pixels image imageData →
  jimp_opaque_at image px py = opaque_at imageData px py.
Proof.
  intros Hsame. unfold jimp_opaque_at, opaque_at.
  pose proof Hsame as (Hw & Hh & _). rewrite Hw, Hh.
  destruct (in_image _ _ px py) eqn:Hin; [|done]. simpl.
  destruct (same_pixels_reads image imageData px py Hsame Hin)
    as (r & g & b & a & _ & _ & _ & Ha & Hab & -> & _).
  rewrite Ha. simpl. destruct (Z.ltb_spec 127 a), (Z.ltb_spec a 128); simpl; lia.
Qed.

Lemma same_pixels_nearest image imageData px py :
  same_pixels image imageData →
  in_image (id_width imageData) (id_height imageData) px py = true →
  jimp_nearest image px py = nearest_at imageData px py.
Proof.
  intros Hsame Hin.
  destruct (same_pixels_reads image imageData px py Hsame Hin)
    as (r & g & b & a & Hr & Hg & Hb & _ & _ & _ & ->).
  unfold nearest_at. by rewrite Hr, Hg, Hb.
Qed.

Lemma same_pixels_votes image imageData x y ds :
  same_pixels image imageData →
  filter (λ c, c ≠ 0) (jimp_votes image x y ds)
  = filter (λ c, c ≠ 0) (map (λ d, data_vote imageData x y d.1 d.2) ds).
Proof.
  intros Hsame. induction ds as [|d ds IH]; [done|].
  change (jimp_votes image x y (d :: ds))
    with ((if jimp_opaque_at image (x * 2 + d.1) (y * 4 + d.2)
           then [jimp_nearest image (x * 2 + d.1) (y * 4 + d.2)] else [])
          ++ jimp_votes image x y ds).
  cbn [map]. rewrite filter_app, filter_cons, IH. f_equal.
  unfold data_vote. rewrite (same_pixels_opaque image imageData) by done.
  destruct (opaque_at imageData _ _) eqn:Hop.
  - rewrite (same_pixels_nearest image imageData) by
      (done || unfold opaque_at in Hop; by apply andb_prop in Hop as [? _]).
    rewrite filter_cons, filter_nil. by case_decide.
  - rewrite filter_nil. by rewrite decide_False by lia.
Qed.

Lemma same_pixels_colorCode image imageData x y :
  same_pixels image imageData →
  colorCode (generateSemiGraphicBlockFromJimp x y image (bitmap_width image)
               (bitmap_height image))
  = colorCode (data_block x y imageData).
Proof.
  intros Hsame. rewrite jimp_block_eq, data_block_eq. cbn [colorCode].
  rewrite <-getMostFrequentColor_nonzero, (same_pixels_votes _ imageData) by done.
  apply getMostFrequentColor_nonzero.
Qed.

Lemma data_vote_lit imageData x y dx dy :
  negb (data_vote imageData x y dx dy =? 0)
  = opaque_at imageData (x * 2 + dx) (y * 4 + dy)
    && negb (nearest_at imageData (x * 2 + dx) (y * 4 + dy) =? 0).
Proof. unfold data_vote. by destruct (opaque_at _ _ _). Qed.

Lemma same_pixels_pattern_subset image imageData x y :
  same_pixels image imageData →
  Z.land (pattern (data_block x y imageData))
         (pattern (generateSemiGraphicBlockFromJimp x y image (bitmap_width image)
                     (bitmap_height image)))
  = pattern (data_block x y imageData).
Proof.
  intros Hsame. rewrite jimp_block_eq, data_block_eq. cbn [pattern].
  apply pattern_of_subset. intros dx dy _ _. rewrite data_vote_lit.
  rewrite (same_pixels_opaque image imageData) by done.
  by intros [? _]%andb_prop.
Qed.

Lemma same_pixels_block image imageData x y :
  same_pixels image imageData →
  (∀ px py, opaque_at imageData px py = true → nearest_at imageData px py ≠ 0) →
  generateSemiGraphicBlockFromJimp x y image (bitmap_width image) (bitmap_height image)
  = data_block x y imageData.
Proof.
  intros Hsame Hnb.
  pose proof (same_pixels_colorCode image imageData x y Hsame) as Hc.
  rewrite jimp_block_eq, data_block_eq in *. cbn [colorCode] in Hc. rewrite Hc.
  f_equal. apply pattern_of_ext. intros dx dy _ _. rewrite data_vote_lit.
  rewrite (same_pixels_opaque image imageData) by done.
  destruct (opaque_at imageData _ _) eqn:Hop; [|done]. simpl.
  specialize (Hnb _ _ Hop). symmetry. apply negb_true_iff. by apply Z.eqb_neq.
Qed.

(** ** Bit placement *)

Lemma white_at_nearest imageData px py :
  white_at imageData px py → nearest_at imageData px py = 7.
Proof. intros (Hr & Hg & Hb). unfold nearest_at. by rewrite Hr, Hg, Hb. Qed.

Lemma pattern_of_nonzero lit dx dy :
  (dx < 2)%nat → (dy < 4)%nat → lit dx dy = true → pattern_of lit ≠ 0.
Proof.
  intros Hdx Hdy Hlit Hz.
  pose proof (pattern_of_testbit lit dx dy Hdx Hdy) as Hbit.
  rewrite Hz, Z.bits_0 in Hbit. congruence.
Qed.

Lemma pattern_of_dark lit :
  (∀ dx dy, (dx < 2)%nat → (dy < 4)%nat → lit dx dy = false) → pattern_of lit = 0.
Proof.
  intros H. by rewrite (pattern_of_ext lit (λ _ _, false)) by done.
Qed.

Lemma elem_of_dots d : d ∈ dots → (d.1 < 2)%nat ∧ (d.2 < 4)%nat.
Proof.
  intros Hin. unfold dots in Hin.
  repeat (apply elem_of_cons in Hin as [->|Hin]; [simpl; lia|]).
  by apply elem_of_nil in Hin.
Qed.


(** ** The two conversion paths *)

Lemma same_pixels_jimp_of_data imageData :
  wf_image imageData → same_pixels (jimp_of_data imageData) imageData.
Proof. intros Hwf. by split_and!. Qed.

Lemma black_image_wf : wf_image black_image.
Proof. split; [reflexivity|]. vm_compute. repeat constructor; discriminate. Qed.

Lemma same_pixels_grid image imageData :
  same_pixels image imageData →
  (∀ px py, opaque_at imageData px py = true → nearest_at imageData px py ≠ 0) →
  convertJimpToSemiGraphic image = convertImageDataToSemiGraphic imageData.
Proof.
  intros Hsame Hnb. pose proof Hsame as (Hw & Hh & _).
  unfold convertJimpToSemiGraphic, convertImageDataToSemiGraphic.
  rewrite <-Hw, <-Hh. f_equal.
  apply map_ext. intros y. apply map_ext. intros x.
  by apply same_pixels_block.
Qed.


(** ** Pattern bits and colour *)

Lemma jimp_votes_black image x y :
  (∀ dx dy, (dx < 2)%nat → (dy < 4)%nat →
     jimp_opaque_at image (x * 2 + dx) (y * 4 + dy) = true →
     jimp_nearest image (x * 2 + dx) (y * 4 + dy) = 0) →
  Forall (λ c, c = 0) (jimp_votes image x y dots).
Proof.
  intros H. unfold jimp_votes. apply Forall_flat_map, Forall_forall.
  intros [dx dy] Hin. apply elem_of_dots in Hin as [Hdx Hdy]. simpl in *.
  destruct (jimp_opaque_at _ _ _) eqn:Hop; [|constructor].
  constructor; [|constructor]. by apply H.
Qed.

Lemma data_votes_black imageData x y :
  (∀ dx dy, (dx < 2)%nat → (dy < 4)%nat →
     opaque_at imageData (x * 2 + dx) (y * 4 + dy) = true →
     nearest_at imageData (x * 2 + dx) (y * 4 + dy) = 0) →
  Forall (λ c, c = 0) (map (λ d, data_vote imageData x y d.1 d.2) dots).
Proof.
  intros H. apply Forall_fmap, Forall_forall.
  intros [dx dy] Hin. apply elem_of_dots in Hin as [Hdx Hdy]. simpl in *.
  unfold data_vote. destruct (opaque_at _ _ _) eqn:Hop; [|done]. by apply H.
Qed.


(** ** The change scan of a row *)

(** *** Loops over a range *)

Lemma mapM_seq_lookup {A C} (f : nat → option C) (g : A → C) (l : list A) s :
  (∀ i a, l !! i = Some a → f (s + i)%nat = Some (g a)) →
  mapM f (seq s (length l)) = Some (map g l).
Proof.
  revert s. induction l as [|a l IH]; intros s Hf; [done|].
  pose proof (Hf 0%nat a eq_refl) as Hfa. rewrite Nat.add_0_r in Hfa.
  cbn [length seq map mapM]. rewrite Hfa. cbn [mbind option_bind].
  rewrite (IH (S s)); [done|].
  intros i b Hb. rewrite <-(Hf (S i) b Hb). f_equal. lia.
Qed.

Lemma ceil_div_2 n : JS.ceil_div (2 * n) 2 = n.
Proof.
  unfold JS.ceil_div. simpl Nat.sub.
  replace (2 * n + 1)%nat with (1 + n * 2)%nat by lia.
  by rewrite Nat.div_add.
Qed.

Lemma range_step_2 n : JS.range_step (2 * n) 2 = map (λ k, (k * 2)%nat) (seq 0 n).
Proof. unfold JS.range_step. by rewrite ceil_div_2. Qed.

(** *** The leading white run *)

Lemma skip_white_leading fuel rowColors i :
  (length rowColors ≤ i + fuel)%nat →
  skip_white fuel rowColors i = (i + leading_white (drop i rowColors))%nat.
Proof.
  revert i. induction fuel as [|fuel IH]; intros i Hlen.
  - rewrite drop_ge by lia. simpl. lia.
  - simpl. destruct (rowColors !! i) as [c|] eqn:Hc.
    + rewrite (drop_S _ _ _ Hc). simpl. destruct (c =? 7); [|lia].
      rewrite IH by lia. lia.
    + apply lookup_ge_None in Hc. rewrite drop_ge by lia. simpl. lia.
Qed.

Lemma skip_white_row rowColors :
  skip_white (length rowColors) rowColors 0 = leading_white rowColors.
Proof. by rewrite skip_white_leading by lia. Qed.

Lemma leading_white_le rowColors : (leading_white rowColors ≤ length rowColors)%nat.
Proof.
  induction rowColors as [|c l IH]; simpl; [lia|]. destruct (c =? 7); lia.
Qed.

Lemma leading_white_run rowColors x :
  (x < leading_white rowColors)%nat → rowColors !! x = Some 7.
Proof.
  revert x. induction rowColors as [|c l IH]; intros x; simpl; [lia|].
  destruct (Z.eqb_spec c 7) as [->|]; [|lia].
  destruct x as [|x]; [done|]. intros Hx. apply IH. lia.
Qed.

Lemma leading_white_all rowColors :
  Forall (λ c, c = 7) rowColors → leading_white rowColors = length rowColors.
Proof. induction 1 as [|c l -> _ IH]; simpl; [done|]. by rewrite IH. Qed.

(** *** String scan and number scan *)

Lemma scan_rel_step rowColors st ch x :
  scan_rel st ch →
  scan_rel (scan_step rowColors st x) (change_step rowColors ch x).
Proof.
  intros (Hc & Hn & Hp). unfold scan_step, change_step.
  destruct (rowColors !! x) as [c|]; [|done].
  destruct (c =? 0); [done|]. rewrite Hc.
  destruct (c =? ch.1); simpl; [done|].
  unfold scan_rel. cbn [currentColor changeCount attributePairs fst snd].
  split; [done|]. split.
  - rewrite length_app. simpl. lia.
  - rewrite flat_map_app. simpl. by rewrite Hp.
Qed.

Lemma scan_rel_fold rowColors xs st ch :
  scan_rel st ch →
  scan_rel (fold_left (scan_step rowColors) xs st)
           (fold_left (change_step rowColors) xs ch).
Proof.
  revert st ch. induction xs as [|x xs IH]; intros st ch H; [done|].
  simpl. by apply IH, scan_rel_step.
Qed.

Lemma pair_items_lookup ps k :
  flat_map pair_items ps !! (k * 2)%nat = (λ p, JS.str_of_nat p.1) <$> ps !! k
  ∧ flat_map pair_items ps !! (k * 2 + 1)%nat = (λ p, hex_literal p.2) <$> ps !! k.
Proof.
  revert k. induction ps as [|p ps IH]; intros k; [done|].
  destruct k as [|k]; [done|].
  cbn [flat_map pair_items app]. replace (S k * 2)%nat with (S (S (k * 2))) by lia.
  simpl. apply IH.
Qed.

Lemma pair_items_length ps : length (flat_map pair_items ps) = (2 * length ps)%nat.
Proof. induction ps as [|p ps IH]; simpl; lia. Qed.

Lemma pairStrings_eq ps :
  map (λ i, pair_item (flat_map pair_items ps) i +:+ ", "
            +:+ pair_item (flat_map pair_items ps) (i + 1))
      (JS.range_step (length (flat_map pair_items ps)) 2)
  = map pair_text ps.
Proof.
  rewrite pair_items_length, range_step_2, map_map.
  apply list_eq. intros k.
  rewrite !list_lookup_fmap. destruct (ps !! k) as [p|] eqn:Hp.
  - rewrite lookup_seq_lt by (by eapply lookup_lt_Some). simpl.
    unfold pair_item. destruct (pair_items_lookup ps k) as [-> ->].
    by rewrite Hp.
  - rewrite lookup_seq_ge by (by apply lookup_ge_None). done.
Qed.

(** The line of a row holds its pairs, preceded by their number. *)
Lemma colorAttributeLine_pairs rowColors :
  colorAttributeLine rowColors
  = attrLine (length (line_pairs rowColors)) (line_pairs rowColors).
Proof.
  unfold colorAttributeLine, line_pairs, or_fallback, row_changes.
  rewrite skip_white_row.
  set (start := leading_white rowColors).
  pose proof (scan_rel_fold rowColors (seq start (length rowColors - start))
                (mkScan (-1) 0 []) (-1, [])) as Hrel.
  destruct Hrel as (_ & Hn & Hp); [done|].
  destruct (Z.ltb_spec (Z.of_nat (length rowColors) - 1) (Z.of_nat start)) as [Hlt|Hge].
  { replace (length rowColors - start)%nat with 0%nat by lia. done. }
  destruct (fold_left (change_step rowColors) _ _) as [c ps]. simpl in *.
  rewrite Hn. destruct ps as [|p ps]; [done|].
  cbn [length Nat.eqb]. rewrite Hp, pairStrings_eq. done.
Qed.

(** *** The pairs of a row *)

Lemma last_app_one {A} (l : list A) a : last (l ++ [a]) = Some a.
Proof. by rewrite last_snoc. Qed.

Lemma changes_inv_step rowColors s n ch :
  changes_inv rowColors s n ch →
  changes_inv rowColors s (S n) (change_step rowColors ch (s + n)).
Proof.
  intros (Hall & Hsort & Hlast).
  assert (Hall' : Forall (λ p, (s ≤ p.1 < s + S n)%nat
               ∧ ∃ c, rowColors !! p.1 = Some c ∧ c ≠ 0
                      ∧ p.2 = getAttributeColorCode c) ch.2).
  { eapply Forall_impl; [exact Hall|]. intros p [? ?]. split; [lia|done]. }
  assert (Hkeep : (∀ c, rowColors !! (s + n)%nat = Some c → c = 0 ∨ c = ch.1) →
                  changes_inv rowColors s (S n) ch).
  { intros Hc. split; [done|]. split; [done|].
    destruct (last ch.2) as [p|]; [done|]. destruct Hlast as [Hm Hz].
    split; [done|]. intros x c Hx Hxc.
    destruct (decide (x = s + n)%nat) as [->|Hne].
    - destruct (Hc c Hxc) as [?|?]; [by left|right; congruence].
    - apply (Hz x c); [lia|done]. }
  unfold change_step. destruct (rowColors !! (s + n)%nat) as [c|] eqn:Hc.
  2:{ apply Hkeep. by intros. }
  destruct (Z.eqb_spec c 0) as [->|Hc0]; [apply Hkeep; intros ? [= <-]; by left|].
  destruct (Z.eqb_spec c ch.1) as [Heq|Hne]; [apply Hkeep; intros ? [= <-]; by right|].
  split; [|split]; cbn [fst snd].
  - apply Forall_app. split; [done|]. constructor; [|done]. simpl.
    split; [lia|]. by exists c.
  - rewrite map_app. apply StronglySorted_app_2; [|done|repeat constructor].
    intros x1 x2 Hx1 Hx2. apply list_elem_of_singleton in Hx2 as ->.
    apply list_elem_of_fmap in Hx1 as (p & -> & Hp).
    rewrite Forall_forall in Hall. destruct (Hall p Hp) as [[? ?] _]. simpl. lia.
  - by rewrite last_app_one.
Qed.

Lemma changes_inv_fold rowColors s n :
  changes_inv rowColors s n
    (fold_left (change_step rowColors) (seq s n) (-1, [])).
Proof.
  induction n as [|n IH].
  - split; [constructor|]. split; [constructor|]. simpl. split; [done|]. intros; lia.
  - rewrite seq_S, fold_left_app. simpl. by apply changes_inv_step.
Qed.

Lemma row_changes_inv rowColors :
  changes_inv rowColors (leading_white rowColors)
    (length rowColors - leading_white rowColors)
    (fold_left (change_step rowColors)
       (seq (leading_white rowColors) (length rowColors - leading_white rowColors))
       (-1, [])).
Proof. apply changes_inv_fold. Qed.

Lemma getAttributeColorCode_black c : c ≠ 0 → getAttributeColorCode c ≠ 0x18.
Proof.
  intros Hc. unfold getAttributeColorCode.
  destruct (Z.leb_spec 0 c) as [Hle|Hlt]; [|done].
  destruct (Z.to_nat c) as [|[|[|[|[|[|[|[|n]]]]]]]] eqn:E; simpl; try done. lia.
Qed.

(** The pairs recorded by the scan of a row. *)
Lemma row_changes_pairs rowColors :
  Forall (λ p, (leading_white rowColors ≤ p.1 < length rowColors)%nat
               ∧ ∃ c, rowColors !! p.1 = Some c ∧ c ≠ 0
                      ∧ p.2 = getAttributeColorCode c) (row_changes rowColors)
  ∧ StronglySorted lt (map fst (row_changes rowColors)).
Proof.
  destruct (row_changes_inv rowColors) as (Hall & Hsort & _).
  split; [|done]. eapply Forall_impl; [exact Hall|].
  intros p [Hx Hc]. split; [|done].
  pose proof (leading_white_le rowColors). lia.
Qed.

(** A row with a palette colour other than black past its leading white
    run has at least one pair. *)
Lemma row_changes_nonempty rowColors x c :
  (leading_white rowColors ≤ x)%nat → rowColors !! x = Some c → 0 < c →
  row_changes rowColors ≠ [].
Proof.
  intros Hx Hc Hpos Hnil.
  destruct (row_changes_inv rowColors) as (_ & _ & Hlast).
  unfold row_changes in Hnil. rewrite Hnil in Hlast. simpl in Hlast.
  destruct Hlast as [_ Hz]. apply lookup_lt_Some in Hc as Hlen.
  destruct (Hz x c); [lia|done|lia|lia].
Qed.

(** A row of black past its leading white run has no pair. *)
Lemma row_changes_black rowColors :
  (∀ x c, (leading_white rowColors ≤ x)%nat → rowColors !! x = Some c → c = 0) →
  row_changes rowColors = [].
Proof.
  intros Hz. destruct (row_changes_pairs rowColors) as [Hall _].
  destruct (row_changes rowColors) as [|p ps]; [done|].
  apply Forall_cons in Hall as [[Hx (c & Hc & Hc0 & _)] _].
  destruct Hc0. apply (Hz p.1); [lia|done].
Qed.

(** When the last colour of a row is white, so is its last pair. *)
Lemma line_pairs_last_white rowColors :
  last rowColors = Some 7 → snd <$> last (line_pairs rowColors) = Some 0xF8.
Proof.
  intros Hlast. unfold line_pairs, row_changes.
  destruct (decide (leading_white rowColors = length rowColors)) as [Heq|Hne].
  { rewrite Heq, Nat.sub_diag. done. }
  pose proof (leading_white_le rowColors) as Hle.
  set (s := leading_white rowColors) in *.
  destruct (length rowColors - s)%nat as [|n] eqn:En; [lia|].
  rewrite seq_S, fold_left_app. cbn [fold_left].
  pose proof (changes_inv_fold rowColors s n) as (_ & _ & Hinv).
  destruct (fold_left _ (seq s n) _) as [c ps]. cbn [fst snd] in Hinv.
  assert (Hkeep : ∀ qs, qs ≠ [] → or_fallback qs = qs).
  { by intros [|]. }
  unfold change_step. rewrite last_lookup in Hlast.
  replace (s + n)%nat with (pred (length rowColors)) by lia. rewrite Hlast.
  cbn [fst snd]. change (7 =? 0) with false. cbv iota.
  destruct (Z.eqb_spec 7 c) as [<-|Hc]; cbn [fst snd].
  - destruct (last ps) as [p|] eqn:Hp; [|lia].
    rewrite Hkeep by (by intros ->). rewrite Hp. simpl. by rewrite Hinv.
  - rewrite Hkeep by (by intros [_ ?]%app_nil). by rewrite last_app_one.
Qed.

(** ** The colour table of a grid *)

(** *** The tables of a rectangular grid *)

Lemma wf_grid_row semiData y row :
  wf_grid semiData → blocks semiData !! y = Some row → length row = width semiData.
Proof.
  intros [_ Hrows] Hrow. by apply (Forall_lookup_1 _ _ _ _ Hrows Hrow).
Qed.

Lemma row_reads {C} (f : SemiGraphicBlock → C) semiData y row :
  blocks semiData !! y = Some row → length row = width semiData →
  mapM (λ x, f <$> block_at semiData y x) (seq 0 (width semiData))
  = Some (map f row).
Proof.
  intros Hrow Hlen. rewrite <-Hlen.
  apply (mapM_seq_lookup _ f row 0). intros x blk Hx. simpl.
  unfold block_at. rewrite Hrow. simpl. by rewrite Hx.
Qed.

Lemma colorAttributeRow_line semiData y row :
  wf_grid semiData → blocks semiData !! y = Some row →
  colorAttributeRow semiData y = Some (colorAttributeLine (map colorCode row)).
Proof.
  intros Hwf Hrow. unfold colorAttributeRow.
  by rewrite (row_reads colorCode semiData y row Hrow (wf_grid_row _ _ _ Hwf Hrow)).
Qed.

Lemma generateColorAttributeDB_lines semiData labelPrefix :
  wf_grid semiData →
  generateColorAttributeDB semiData labelPrefix
  = Some (attr_header semiData labelPrefix
          ++ map (λ row, colorAttributeLine (map colorCode row)) (blocks semiData)).
Proof.
  intros Hwf. unfold generateColorAttributeDB. pose proof Hwf as [Hh _].
  assert (mapM (colorAttributeRow semiData) (seq 0 (height semiData))
          = Some (map (λ row, colorAttributeLine (map colorCode row))
                      (blocks semiData))) as ->; [|done].
  rewrite <-Hh. apply mapM_seq_lookup.
  intros y row Hrow. by apply colorAttributeRow_line.
Qed.

Lemma attr_line_of_row semiData labelPrefix y row :
  wf_grid semiData → blocks semiData !! y = Some row →
  attr_line_of semiData labelPrefix y
  = Some (colorAttributeLine (map colorCode row)).
Proof.
  intros Hwf Hrow. unfold attr_line_of.
  rewrite generateColorAttributeDB_lines by done. simpl.
  by rewrite list_lookup_fmap, Hrow.
Qed.

Lemma row_grid_wf rowColors : wf_grid (row_grid rowColors).
Proof.
  split; [done|]. constructor; [|constructor]. simpl. by rewrite length_map.
Qed.

Lemma colorAttributeLine_scan rowColors :
  changeCount (row_scan rowColors) = 0%nat → colorAttributeLine rowColors = FALLBACK.
Proof.
  unfold colorAttributeLine, row_scan. intros ->.
  by destruct (_ <? _).
Qed.

Lemma row_scan_changes rowColors :
  changeCount (row_scan rowColors) = length (row_changes rowColors).
Proof.
  unfold row_scan, row_changes. rewrite skip_white_row.
  by destruct (scan_rel_fold rowColors
                 (seq (leading_white rowColors)
                      (length rowColors - leading_white rowColors))
                 (mkScan (-1) 0 []) (-1, [])) as (_ & -> & _).
Qed.

(** ** Colour-attribute lines *)

Lemma line_pairs_not_black rowColors :
  Forall (λ p, p.2 ≠ getAttributeColorCode 0) (line_pairs rowColors).
Proof.
  unfold line_pairs, or_fallback.
  destruct (row_changes_pairs rowColors) as [Hall _].
  destruct (row_changes rowColors) as [|p ps]; [by repeat constructor|].
  eapply Forall_impl; [exact Hall|]. intros q (_ & c & _ & Hc & ->).
  by apply getAttributeColorCode_black.
Qed.

Lemma line_pairs_changes rowColors :
  changeCount (row_scan rowColors) ≠ 0%nat →
  line_pairs rowColors = row_changes rowColors.
Proof.
  rewrite row_scan_changes. unfold line_pairs.
  by destruct (row_changes rowColors).
Qed.


(** ** The pattern table *)

Lemma ceil_div_lt n k : (k < JS.ceil_div n 16)%nat → (16 * k < n)%nat.
Proof.
  unfold JS.ceil_div. simpl Nat.sub. intros Hk.
  pose proof (Nat.Div0.mul_div_le (n + 15) 16). lia.
Qed.

Lemma range_step_16 n :
  JS.range_step n 16 = map (λ k, (k * 16)%nat) (seq 0 (JS.ceil_div n 16)).
Proof. reflexivity. Qed.

Lemma semiGraphicRow_chunks semiData y row :
  wf_grid semiData → blocks semiData !! y = Some row →
  semiGraphicRow semiData y = Some (row_chunks row).
Proof.
  intros Hwf Hrow. unfold semiGraphicRow.
  assert (mapM (λ x, block ← block_at semiData y x;
                     Some (hex_literal (pattern block)))
               (seq 0 (width semiData))
          = Some (map (λ block, hex_literal (pattern block)) row)) as ->.
  { rewrite <-(wf_grid_row _ _ _ Hwf Hrow). apply mapM_seq_lookup.
    intros x block Hx. simpl. unfold block_at. rewrite Hrow. simpl. by rewrite Hx. }
  simpl. f_equal. rewrite length_map, range_step_16. unfold row_chunks.
  rewrite map_map. apply map_ext. intros k. unfold dataLine, JS.slice.
  replace (k * 16 + 16 - k * 16)%nat with 16%nat by lia.
  replace (k * 16)%nat with (16 * k)%nat by lia.
  do 2 f_equal.
  rewrite map_map. symmetry.
  etrans; [apply (fmap_take (λ block, hex_literal (pattern block)))|].
  f_equal. apply (fmap_drop (λ block, hex_literal (pattern block))).
Qed.

Lemma generateSemiGraphicDB_lines semiData labelPrefix :
  wf_grid semiData →
  generateSemiGraphicDB semiData labelPrefix
  = Some (semi_header semiData labelPrefix
          ++ concat (map row_chunks (blocks semiData))).
Proof.
  intros Hwf. unfold generateSemiGraphicDB. pose proof Hwf as [Hh _].
  assert (mapM (semiGraphicRow semiData) (seq 0 (height semiData))
          = Some (map row_chunks (blocks semiData))) as ->; [|done].
  rewrite <-Hh. apply mapM_seq_lookup.
  intros y row Hrow. by apply semiGraphicRow_chunks.
Qed.

Lemma concat_uniform_length {A} (ls : list (list A)) c :
  Forall (λ l, length l = c) ls → length (concat ls) = (length ls * c)%nat.
Proof.
  induction 1 as [|l ls Hl _ IH]; [done|]. simpl. rewrite length_app. lia.
Qed.

Lemma concat_uniform_lookup {A} (ls : list (list A)) c y k :
  Forall (λ l, length l = c) ls → (k < c)%nat →
  concat ls !! (y * c + k)%nat = ls !! y ≫= λ l, l !! k.
Proof.
  intros Hall Hk. revert y. induction Hall as [|l ls Hl _ IH]; intros y; [done|].
  simpl. destruct y as [|y]; simpl.
  - by rewrite lookup_app_l by lia.
  - rewrite lookup_app_r by lia. rewrite <-IH. f_equal. lia.
Qed.

Lemma row_chunks_length row : length (row_chunks row) = JS.ceil_div (length row) 16.
Proof. unfold row_chunks. by rewrite length_map, length_seq. Qed.

(** C9: the pattern table of a rectangular grid has, for every row,
    [ceil(width / 16)] data lines of its own; line [k] of row [y] holds the
    pattern bytes of blocks [16k .. 16k+15] of that row in order, at most 16
    of them; a single row of 20 blocks gives two data lines, of 16 and of 4
    values. *)
Theorem pattern_table_chunks :
  (∀ semiData labelPrefix,
      wf_grid semiData →
      ∃ lines,
        generateSemiGraphicDB semiData labelPrefix
        = Some (semi_header semiData labelPrefix ++ lines)
        ∧ length lines = (height semiData * JS.ceil_div (width semiData) 16)%nat
        ∧ ∀ y k row,
            blocks semiData !! y = Some row →
            (k < JS.ceil_div (width semiData) 16)%nat →
            lines !! (y * JS.ceil_div (width semiData) 16 + k)%nat
            = Some (dataLine (map pattern (take 16 (drop (16 * k) row))))
            ∧ length (map pattern (take 16 (drop (16 * k) row)))
              = (16 `min` (width semiData - 16 * k))%nat
            ∧ (0 < length (map pattern (take 16 (drop (16 * k) row))) ≤ 16)%nat)
  ∧ (∀ row labelPrefix,
      length row = 20%nat →
      generateSemiGraphicDB (mkSemi 20 1 [row]) labelPrefix
      = Some (semi_header (mkSemi 20 1 [row]) labelPrefix
              ++ [dataLine (map pattern (take 16 row));
                  dataLine (map pattern (drop 16 row))])
      ∧ length (map pattern (take 16 row)) = 16%nat
      ∧ length (map pattern (drop 16 row)) = 4%nat)
  ∧ generateSemiGraphicDB (mkSemi 20 1 [ROW_20]) "LARGE_DATA"
    = Some (semi_header (mkSemi 20 1 [ROW_20]) "LARGE_DATA" ++ [LINE_16; LINE_4])
  ∧ count_fields LINE_16 = 16%nat
  ∧ count_fields LINE_4 = 4%nat
  ∧ generateSemiGraphicDB (mkSemi 20 2 [ROW_20; ROW_20]) "LARGE_DATA"
    = Some (semi_header (mkSemi 20 2 [ROW_20; ROW_20]) "LARGE_DATA"
            ++ [LINE_16; LINE_4; LINE_16; LINE_4]).
Proof.
  split; [|split; [|repeat split; vm_compute; reflexivity]].
  - intros semiData labelPrefix Hwf.
    exists (concat (map row_chunks (blocks semiData))).
    assert (Huni : Forall (λ l : list string,
                     length l = JS.ceil_div (width semiData) 16)
                   (map row_chunks (blocks semiData))).
    { apply Forall_fmap, Forall_forall. intros row Hrow. simpl.
      rewrite row_chunks_length. destruct Hwf as [_ Hrows].
      rewrite Forall_forall in Hrows. by rewrite (Hrows row Hrow). }
    split; [by apply generateSemiGraphicDB_lines|]. split.
    + rewrite (concat_uniform_length _ _ Huni), length_map. by destruct Hwf as [-> _].
    + intros y k row Hrow Hk.
      pose proof (wf_grid_row _ _ _ Hwf Hrow) as Hlen.
      pose proof (ceil_div_lt _ _ Hk) as Hlt.
      split; [|split].
      * rewrite (concat_uniform_lookup _ _ _ _ Huni Hk).
        rewrite list_lookup_fmap, Hrow. simpl. unfold row_chunks.
        rewrite list_lookup_fmap, lookup_seq_lt by (by rewrite Hlen). done.
      * rewrite length_map, length_take, length_drop. by rewrite Hlen.
      * rewrite length_map, length_take, length_drop. lia.
  - intros row labelPrefix Hrow.
    rewrite generateSemiGraphicDB_lines.
    2:{ split; [done|]. by repeat constructor. }
    split; [|split].
    + simpl. unfold row_chunks. rewrite Hrow, app_nil_r. simpl.
      rewrite (take_ge (drop 16 row)); [done|]. rewrite length_drop. lia.
    + rewrite length_map, length_take. lia.
    + rewrite length_map, length_drop. lia.
Qed.

Lemma pattern_table_chunks_witness :
  ∃ lines,
    generateSemiGraphicDB (mkSemi 20 1 [ROW_20]) "LARGE_DATA"
    = Some (semi_header (mkSemi 20 1 [ROW_20]) "LARGE_DATA" ++ lines)
    ∧ length lines = 2%nat.
Proof.
  destruct (proj1 pattern_table_chunks (mkSemi 20 1 [ROW_20]) "LARGE_DATA")
    as (lines & Hgen & Hlen & _).
  - split; [reflexivity|]. constructor; [reflexivity|constructor].
  - exists lines. split; [exact Hgen|exact Hlen].
Defined.

(** ** The statements on bytes *)

Lemma dot_bit_index dx dy : dot_bit dx dy = Z.of_nat (bitIndex dx dy).
Proof. unfold dot_bit, bitIndex. destruct (dx =? 0)%nat; lia. Qed.

Lemma opaque_at_pixel imageData px py :
  wf_image imageData →
  opaque_at imageData px py = true ↔ opaque_pixel imageData px py.
Proof.
  intros Hwf. unfold opaque_at, opaque_pixel, in_image. split.
  - intros [[Hx%Nat.ltb_lt Hy%Nat.ltb_lt]%andb_prop Ha%negb_true_iff]%andb_prop.
    split; [done|]. split; [done|].
    destruct (wf_channel imageData px py 3 Hwf Hx Hy) as (a & Hch & _); [lia|].
    exists a. split; [done|]. rewrite Hch in Ha. simpl in Ha.
    by apply Z.ltb_ge in Ha.
  - intros (Hx & Hy & a & Hch & Ha).
    apply andb_true_iff. split.
    + apply andb_true_iff. split; by apply Nat.ltb_lt.
    + rewrite Hch. simpl. apply negb_true_iff. by apply Z.ltb_ge.
Qed.

Lemma nearest_at_black imageData px py :
  wf_image imageData →
  (px < id_width imageData)%nat → (py < id_height imageData)%nat →
  nearest_at imageData px py = 0 ↔ black_pixel imageData px py.
Proof.
  intros Hwf Hx Hy. unfold nearest_at, black_pixel.
  destruct (wf_channel imageData px py 0 Hwf Hx Hy) as (r & Hr & _); [lia|].
  destruct (wf_channel imageData px py 1 Hwf Hx Hy) as (g & Hg & _); [lia|].
  destruct (wf_channel imageData px py 2 Hwf Hx Hy) as (b & Hb & _); [lia|].
  rewrite Hr, Hg, Hb. simpl. split.
  - intros H0. by exists r, g, b.
  - intros (r' & g' & b' & [= <-] & [= <-] & [= <-] & H0). done.
Qed.

(** A dot of the direct-buffer path is lit exactly for an opaque pixel that
    is not nearest to black. *)
Lemma data_dot_lit imageData x y dx dy :
  wf_image imageData →
  negb (data_vote imageData x y dx dy =? 0) = true
  ↔ opaque_pixel imageData (x * 2 + dx) (y * 4 + dy)
    ∧ ¬ black_pixel imageData (x * 2 + dx) (y * 4 + dy).
Proof.
  intros Hwf. rewrite data_vote_lit, andb_true_iff, negb_true_iff, Z.eqb_neq.
  rewrite (opaque_at_pixel _ _ _ Hwf). split.
  - intros [Hop Hn]. split; [done|]. destruct Hop as (Hx & Hy & _).
    by rewrite <-(nearest_at_black _ _ _ Hwf Hx Hy).
  - intros [Hop Hn]. split; [done|]. destruct Hop as (Hx & Hy & _).
    by rewrite (nearest_at_black _ _ _ Hwf Hx Hy).
Qed.

Lemma white_not_black imageData px py :
  white_at imageData px py → ¬ black_pixel imageData px py.
Proof.
  intros (Hr & Hg & Hb) (r & g & b & Hr' & Hg' & Hb' & H0).
  rewrite Hr in Hr'. rewrite Hg in Hg'. rewrite Hb in Hb'.
  injection Hr' as <-. injection Hg' as <-. injection Hb' as <-.
  vm_compute in H0. discriminate.
Qed.

Lemma data_block_bits imageData x y dx dy :
  wf_image imageData → (dx < 2)%nat → (dy < 4)%nat →
  Z.testbit (pattern (data_block x y imageData)) (dot_bit dx dy) = true
  ↔ opaque_pixel imageData (x * 2 + dx) (y * 4 + dy)
    ∧ ¬ black_pixel imageData (x * 2 + dx) (y * 4 + dy).
Proof.
  intros Hwf Hdx Hdy. rewrite data_block_eq, dot_bit_index. cbn [pattern].
  rewrite pattern_of_testbit by done. by apply data_dot_lit.
Qed.

Lemma jimp_block_bits image imageData x y dx dy :
  same_pixels image imageData → (dx < 2)%nat → (dy < 4)%nat →
  Z.testbit (pattern (generateSemiGraphicBlockFromJimp x y image
                        (bitmap_width image) (bitmap_height image)))
            (dot_bit dx dy) = true
  ↔ opaque_pixel imageData (x * 2 + dx) (y * 4 + dy).
Proof.
  intros Hsame Hdx Hdy. rewrite jimp_block_eq, dot_bit_index. cbn [pattern].
  rewrite pattern_of_testbit by done.
  rewrite (same_pixels_opaque image imageData) by done.
  apply opaque_at_pixel. apply Hsame.
Qed.

(** C1: in the direct-buffer converter, for a block of an image whose
    opaque pixels (alpha byte 128 or more) are white, bit [dy] (left
    column) or [4 + dy] (right column) of the pattern is set exactly when
    the pixel under dot [(dx, dy)] is opaque, no other bit is set, and a
    single opaque dot gives [1 << bit]; blocks of white pixels with alpha
    128 on a mask and 127 off it, and the test blocks with transparent
    black off it, give 0xFF, 0xCC, 0x33, 0x0F, 0xF0 and the eight single
    bits. *)
Theorem white_block_bit_placement :
  (∀ imageData x y,
      wf_image imageData →
      (x < JS.ceil_div (id_width imageData) 2)%nat →
      (y < JS.ceil_div (id_height imageData) 4)%nat →
      (∀ dx dy, (dx < 2)%nat → (dy < 4)%nat →
         opaque_pixel imageData (x * 2 + dx) (y * 4 + dy) →
         white_at imageData (x * 2 + dx) (y * 4 + dy)) →
      ∃ block,
        block_at (convertImageDataToSemiGraphic imageData) y x = Some block
        ∧ 0 <= pattern block < 256
        ∧ (∀ dx dy, (dx < 2)%nat → (dy < 4)%nat →
             Z.testbit (pattern block) (dot_bit dx dy) = true
             ↔ opaque_pixel imageData (x * 2 + dx) (y * 4 + dy))
        ∧ (∀ dx dy, (dx < 2)%nat → (dy < 4)%nat →
             (∀ dx' dy', (dx' < 2)%nat → (dy' < 4)%nat →
                opaque_pixel imageData (x * 2 + dx') (y * 4 + dy')
                ↔ dx' = dx ∧ dy' = dy) →
             pattern block = Z.shiftl 1 (dot_bit dx dy)))
  ∧ (∀ dy, dot_bit 0 dy = Z.of_nat dy) ∧ (∀ dy, dot_bit 1 dy = 4 + Z.of_nat dy)
  ∧ veil_pattern [(true, true); (true, true); (true, true); (true, true)] = Some 0xFF
  ∧ veil_pattern [(false, false); (false, false); (true, true); (true, true)] = Some 0xCC
  ∧ veil_pattern [(true, true); (true, true); (false, false); (false, false)] = Some 0x33
  ∧ veil_pattern [(true, false); (true, false); (true, false); (true, false)] = Some 0x0F
  ∧ veil_pattern [(false, true); (false, true); (false, true); (false, true)] = Some 0xF0
  ∧ veil_pattern [(false, false); (false, false); (false, false); (false, false)]
    = Some 0x00
  ∧ veil_dot_pattern 0 0 = Some 0x01 ∧ veil_dot_pattern 0 1 = Some 0x02
  ∧ veil_dot_pattern 0 2 = Some 0x04 ∧ veil_dot_pattern 0 3 = Some 0x08
  ∧ veil_dot_pattern 1 0 = Some 0x10 ∧ veil_dot_pattern 1 1 = Some 0x20
  ∧ veil_dot_pattern 1 2 = Some 0x40 ∧ veil_dot_pattern 1 3 = Some 0x80
  ∧ mask_pattern [(true, true); (true, true); (true, true); (true, true)] = Some 0xFF
  ∧ mask_pattern [(false, false); (false, false); (true, true); (true, true)] = Some 0xCC
  ∧ mask_pattern [(true, true); (true, true); (false, false); (false, false)] = Some 0x33
  ∧ mask_pattern [(true, false); (true, false); (true, false); (true, false)] = Some 0x0F
  ∧ mask_pattern [(false, true); (false, true); (false, true); (false, true)] = Some 0xF0
  ∧ (∀ dx dy, (dx < 2)%nat → (dy < 4)%nat →
       dot_pattern dx dy = Some (Z.shiftl 1 (dot_bit dx dy))
       ∧ veil_dot_pattern dx dy = Some (Z.shiftl 1 (dot_bit dx dy))).
Proof.
  split; [|split; [done|split; [done|]]].
  2:{ do 19 (split; [vm_compute; reflexivity|]).
      intros dx dy Hdx Hdy.
      each_dot dx dy; split; vm_compute; reflexivity. }
  intros imageData x y Hwf Hx Hy Hwhite.
  exists (data_block x y imageData).
  split; [by apply convertImageData_block|].
  split; [rewrite data_block_eq; apply pattern_of_range|].
  assert (Hbits : ∀ dx dy, (dx < 2)%nat → (dy < 4)%nat →
            Z.testbit (pattern (data_block x y imageData)) (dot_bit dx dy) = true
            ↔ opaque_pixel imageData (x * 2 + dx) (y * 4 + dy)).
  { intros dx dy Hdx Hdy. rewrite data_block_bits by done. split; [by intros [? _]|].
    intros Hop. split; [done|]. by apply white_not_black, Hwhite. }
  split; [exact Hbits|].
  intros dx dy Hdx Hdy Hsingle.
  rewrite dot_bit_index, <-pattern_of_single by done.
  rewrite data_block_eq. cbn [pattern].
  apply pattern_of_ext. intros dx' dy' Hdx' Hdy'.
  apply eq_true_iff_eq. rewrite (data_dot_lit _ _ _ _ _ Hwf).
  rewrite andb_true_iff, !Nat.eqb_eq. rewrite <-(Hsingle dx' dy') by done.
  split; [by intros [? _]|].
  intros Hop. split; [done|]. by apply white_not_black, Hwhite.
Qed.

Lemma white_block_bit_placement_witness :
  ∃ block,
    block_at (convertImageDataToSemiGraphic
                (veil_image [(false, false); (false, false); (true, true); (true, true)]))
             0 0 = Some block
    ∧ 0 <= pattern block < 256
    ∧ Z.testbit (pattern block) 6 = true.
Proof.
  destruct (proj1 white_block_bit_placement
              (veil_image [(false, false); (false, false); (true, true); (true, true)])
              0%nat 0%nat) as (block & Hb & Hr & Hbits & _).
  - split; [reflexivity|]. vm_compute. repeat constructor; discriminate.
  - cbv. lia.
  - cbv. lia.
  - intros dx dy Hdx Hdy _.
    each_dot dx dy; repeat split; vm_compute; reflexivity.
  - exists block. split; [exact Hb|]. split; [exact Hr|].
    apply (Hbits 1%nat 2%nat); [lia|lia|].
    split; [cbv; lia|]. split; [cbv; lia|].
    exists 128. split; [reflexivity|lia].
Defined.

(** ** The two conversion paths, dot by dot *)

Lemma no_black_pixel imageData :
  wf_image imageData →
  (∀ px py, opaque_pixel imageData px py → ¬ black_pixel imageData px py) →
  ∀ px py, opaque_at imageData px py = true → nearest_at imageData px py ≠ 0.
Proof.
  intros Hwf Hnb px py Hop%(opaque_at_pixel _ _ _ Hwf).
  pose proof Hop as (Hx & Hy & _).
  rewrite (nearest_at_black _ _ _ Hwf Hx Hy). by apply Hnb.
Qed.

Lemma all_black_pixels imageData x y :
  wf_image imageData →
  (∀ dx dy, (dx < 2)%nat → (dy < 4)%nat →
     opaque_pixel imageData (x * 2 + dx) (y * 4 + dy) →
     black_pixel imageData (x * 2 + dx) (y * 4 + dy)) →
  ∀ dx dy, (dx < 2)%nat → (dy < 4)%nat →
    opaque_at imageData (x * 2 + dx) (y * 4 + dy) = true →
    nearest_at imageData (x * 2 + dx) (y * 4 + dy) = 0.
Proof.
  intros Hwf Hb dx dy Hdx Hdy Hop%(opaque_at_pixel _ _ _ Hwf).
  pose proof Hop as (Hx & Hy & _).
  rewrite (nearest_at_black _ _ _ Hwf Hx Hy). by apply Hb.
Qed.

Lemma data_block_black imageData x y :
  wf_image imageData →
  (∀ dx dy, (dx < 2)%nat → (dy < 4)%nat →
     opaque_pixel imageData (x * 2 + dx) (y * 4 + dy) →
     black_pixel imageData (x * 2 + dx) (y * 4 + dy)) →
  data_block x y imageData = mkBlock 0 0.
Proof.
  intros Hwf Hb. rewrite data_block_eq. f_equal.
  - apply pattern_of_dark. intros dx dy Hdx Hdy.
    apply not_true_iff_false. rewrite (data_dot_lit _ _ _ _ _ Hwf).
    intros [Hop Hn]. by apply Hn, Hb.
  - apply getMostFrequentColor_all_black, data_votes_black.
    by apply all_black_pixels.
Qed.

Lemma jimp_block_colorless image imageData x y :
  same_pixels image imageData →
  (∀ dx dy, (dx < 2)%nat → (dy < 4)%nat →
     opaque_pixel imageData (x * 2 + dx) (y * 4 + dy) →
     black_pixel imageData (x * 2 + dx) (y * 4 + dy)) →
  colorCode (generateSemiGraphicBlockFromJimp x y image (bitmap_width image)
               (bitmap_height image)) = 0.
Proof.
  intros Hsame Hb. rewrite (same_pixels_colorCode image imageData) by done.
  rewrite data_block_black; [done|apply Hsame|done].
Qed.

Lemma block_at_jimp image y x :
  (y < height (convertJimpToSemiGraphic image))%nat →
  (x < width (convertJimpToSemiGraphic image))%nat →
  block_at (convertJimpToSemiGraphic image) y x
  = Some (generateSemiGraphicBlockFromJimp x y image (bitmap_width image)
            (bitmap_height image)).
Proof.
  intros Hy Hx. apply convertJimp_block; [revert Hx|revert Hy];
    unfold convertJimpToSemiGraphic; cbn [width height]; by rewrite semi_size by lia.
Qed.

Lemma block_at_data imageData y x :
  (y < height (convertImageDataToSemiGraphic imageData))%nat →
  (x < width (convertImageDataToSemiGraphic imageData))%nat →
  block_at (convertImageDataToSemiGraphic imageData) y x
  = Some (data_block x y imageData).
Proof.
  intros Hy Hx. apply convertImageData_block; [revert Hx|revert Hy];
    unfold convertImageDataToSemiGraphic; cbn [width height]; by rewrite semi_size by lia.
Qed.

Lemma same_pixels_colorCode_at image imageData y x :
  same_pixels image imageData →
  colorCode_at (convertJimpToSemiGraphic image) y x
  = colorCode_at (convertImageDataToSemiGraphic imageData) y x.
Proof.
  intros Hsame. pose proof Hsame as (Hw & Hh & _).
  unfold colorCode_at, block_at, convertJimpToSemiGraphic,
    convertImageDataToSemiGraphic. cbn [blocks]. rewrite <-Hw, <-Hh.
  set (w := (JS.ceil_div (bitmap_width image) 2 * 2 / 2)%nat).
  set (h := (JS.ceil_div (bitmap_height image) 4 * 4 / 4)%nat).
  destruct (decide (x < w ∧ y < h)%nat) as [[Hx Hy]|Hout].
  - rewrite (grid_lookup (λ x y, generateSemiGraphicBlockFromJimp x y image _ _)),
      (grid_lookup (λ x y, data_block x y imageData)) by done.
    simpl. f_equal. by apply same_pixels_colorCode.
  - destruct (_ ≫= _) as [bf|] eqn:Ef.
    { apply grid_lookup_Some in Ef. lia. }
    destruct (_ ≫= _) as [bb|] eqn:Eb in |- *; [|done].
    apply grid_lookup_Some in Eb. lia.
Qed.

(** C2, as the code has it: the file (Jimp) path and the direct-buffer path
    give grids of the same size, the size that covers the image, with the
    same colour code in every block. Bit by bit, the Jimp pattern has the
    bit of a dot set exactly when the pixel under it is opaque (in the
    image, alpha byte 128 or more), the direct-buffer pattern exactly when
    that pixel is opaque and its colour is not nearest to black; no other
    bit is set in either. The two grids are equal when no opaque pixel is
    nearest to black. *)
Theorem entry_points_agree (read : string → option JimpImage)
    (imagePath : string) (image : JimpImage) (imageData : ImageData) :
  read imagePath = Some image →
  same_pixels image imageData →
  ∃ viaFile viaBuffer,
    convertImageFile read imagePath = Some viaFile
    ∧ (∀ images imageId imageResource,
          List.find (λ img, String.eqb img.1 imageId) images = Some imageResource →
          imageResource.2 = imagePath →
          convertImageFromProject read images imageId = Some viaFile)
    ∧ convertImageToSemiGraphic (MockImageElement imageData) = Some viaBuffer
    ∧ width viaFile = width viaBuffer
    ∧ height viaFile = height viaBuffer
    ∧ (id_width imageData ≤ 2 * width viaBuffer < id_width imageData + 2)%nat
    ∧ (id_height imageData ≤ 4 * height viaBuffer < id_height imageData + 4)%nat
    ∧ (∀ y x, colorCode_at viaFile y x = colorCode_at viaBuffer y x)
    ∧ (∀ y x, (y < height viaBuffer)%nat → (x < width viaBuffer)%nat →
         ∃ blockFile blockBuffer,
           block_at viaFile y x = Some blockFile
           ∧ block_at viaBuffer y x = Some blockBuffer
           ∧ colorCode blockFile = colorCode blockBuffer
           ∧ 0 <= pattern blockFile < 256
           ∧ 0 <= pattern blockBuffer < 256
           ∧ ∀ dx dy, (dx < 2)%nat → (dy < 4)%nat →
               (Z.testbit (pattern blockFile) (dot_bit dx dy) = true
                ↔ opaque_pixel imageData (x * 2 + dx) (y * 4 + dy))
               ∧ (Z.testbit (pattern blockBuffer) (dot_bit dx dy) = true
                  ↔ opaque_pixel imageData (x * 2 + dx) (y * 4 + dy)
                    ∧ ¬ black_pixel imageData (x * 2 + dx) (y * 4 + dy)))
    ∧ (∀ y x pf pb, pattern_at viaFile y x = Some pf →
          pattern_at viaBuffer y x = Some pb → Z.land pb pf = pb)
    ∧ ((∀ px py, opaque_pixel imageData px py → ¬ black_pixel imageData px py) →
       viaFile = viaBuffer).
Proof.
  intros Hread Hsame. pose proof Hsame as (Hw & Hh & Hwf & _).
  exists (convertJimpToSemiGraphic image), (convertImageDataToSemiGraphic imageData).
  assert (Hwidth : width (convertJimpToSemiGraphic image)
                   = width (convertImageDataToSemiGraphic imageData)).
  { simpl. by rewrite Hw. }
  assert (Hheight : height (convertJimpToSemiGraphic image)
                    = height (convertImageDataToSemiGraphic imageData)).
  { simpl. by rewrite Hh. }
  split; [unfold convertImageFile; by rewrite Hread|].
  split.
  { intros images imageId res Hfind Hpath. unfold convertImageFromProject.
    by rewrite Hfind, Hpath, Hread. }
  split; [done|]. split; [done|]. split; [done|].
  split.
  { cbn [width convertImageDataToSemiGraphic]. rewrite semi_size by lia.
    unfold JS.ceil_div. simpl Nat.sub.
    pose proof (Nat.div_mod_eq (id_width imageData + 1) 2).
    pose proof (Nat.mod_upper_bound (id_width imageData + 1) 2). lia. }
  split.
  { cbn [height convertImageDataToSemiGraphic]. rewrite semi_size by lia.
    unfold JS.ceil_div. simpl Nat.sub.
    pose proof (Nat.div_mod_eq (id_height imageData + 3) 4).
    pose proof (Nat.mod_upper_bound (id_height imageData + 3) 4). lia. }
  split; [intros y x; by apply same_pixels_colorCode_at|].
  split; [|split].
  - intros y x Hy Hx.
    exists (generateSemiGraphicBlockFromJimp x y image (bitmap_width image)
              (bitmap_height image)), (data_block x y imageData).
    split; [apply block_at_jimp; by rewrite ?Hwidth, ?Hheight|].
    split; [by apply block_at_data|].
    split; [by apply same_pixels_colorCode|].
    split; [rewrite jimp_block_eq; apply pattern_of_range|].
    split; [rewrite data_block_eq; apply pattern_of_range|].
    intros dx dy Hdx Hdy. split.
    + by apply jimp_block_bits.
    + by apply data_block_bits.
  - intros y x pf pb. unfold pattern_at, block_at, convertJimpToSemiGraphic,
      convertImageDataToSemiGraphic. cbn [blocks]. rewrite <-Hw, <-Hh.
    intros Hf Hb.
    apply fmap_Some in Hf as (bf & Hf & ->). apply fmap_Some in Hb as (bb & Hb & ->).
    apply grid_lookup_Some in Hf as (_ & _ & ->).
    apply grid_lookup_Some in Hb as (_ & _ & ->).
    by apply same_pixels_pattern_subset.
  - intros Hnb. apply same_pixels_grid; [done|]. by apply no_black_pixel.
Qed.

Lemma entry_points_agree_witness :
  ∃ viaFile viaBuffer,
    convertImageFile (read_only "spot.png" (jimp_of_data spot_image)) "spot.png"
    = Some viaFile
    ∧ convertImageToSemiGraphic (MockImageElement spot_image) = Some viaBuffer
    ∧ width viaFile = width viaBuffer
    ∧ colorCode_at viaFile 0 0 = colorCode_at viaBuffer 0 0.
Proof.
  destruct (entry_points_agree
              (read_only "spot.png" (jimp_of_data spot_image))
              "spot.png" (jimp_of_data spot_image) spot_image)
    as (viaFile & viaBuffer & Hf & _ & Hb & Hw & _ & _ & _ & Hc & _).
  - reflexivity.
  - split; [reflexivity|]. split; [reflexivity|]. split; [|reflexivity].
    split; [reflexivity|]. vm_compute. repeat constructor; discriminate.
  - exists viaFile, viaBuffer. split; [exact Hf|]. split; [exact Hb|].
    split; [exact Hw|]. exact (Hc 0%nat 0%nat).
Defined.

(** C2, refuted as stated: on a 2x4 image of opaque black pixels (bytes
    0, 0, 0, 255) the Jimp path gives pattern 0xFF and the direct-buffer
    path pattern 0x00; on the white 2x4 image with one opaque black pixel,
    at (1, 0), the Jimp path gives 0xFF and the direct-buffer path 0xEF. *)
Lemma entry_points_differ_on_black :
  same_pixels (jimp_of_data black_image) black_image
  ∧ id_data black_image = concat (repeat [0; 0; 0; 255] 8)
  ∧ convertJimpToSemiGraphic (jimp_of_data black_image) = mkSemi 1 1 [[mkBlock 0xFF 0]]
  ∧ convertImageDataToSemiGraphic black_image = mkSemi 1 1 [[mkBlock 0x00 0]]
  ∧ convertJimpToSemiGraphic (jimp_of_data black_image)
    ≠ convertImageDataToSemiGraphic black_image
  ∧ same_pixels (jimp_of_data spot_image) spot_image
  ∧ convertJimpToSemiGraphic (jimp_of_data spot_image) = mkSemi 1 1 [[mkBlock 0xFF 7]]
  ∧ convertImageDataToSemiGraphic spot_image = mkSemi 1 1 [[mkBlock 0xEF 7]].
Proof.
  split; [apply same_pixels_jimp_of_data, black_image_wf|].
  split; [reflexivity|].
  split; [vm_compute; reflexivity|]. split; [vm_compute; reflexivity|].
  split; [vm_compute; discriminate|].
  split.
  { apply same_pixels_jimp_of_data. split; [reflexivity|].
    vm_compute. repeat constructor; discriminate. }
  split; vm_compute; reflexivity.
Qed.

(** ** Pattern bits and colour *)

(** C3, as the code has it: in the Jimp path a pattern bit is set exactly
    when the pixel lies in the image and its alpha is above 127, whatever
    its colour, and a block whose opaque pixels are all nearest to black has
    colour code 0; in the direct-buffer path a bit is set exactly when the
    pixel is opaque (alpha byte 128 or more) and its colour is not nearest
    to black, so that such a block has pattern 0x00; in both paths a block
    without opaque pixels has pattern 0x00 and colour code 0. Blocks of
    eight equal pixels: opaque black and opaque dark grey give 0xFF by Jimp
    and 0x00 directly, colour code 0; white of alpha 0 or 127 gives 0x00 and
    colour code 0, white of alpha 128 or 255 gives 0xFF and colour code 7,
    by both. *)
Theorem pattern_bits_by_path :
  (∀ image x y,
      (x < JS.ceil_div (bitmap_width image) 2)%nat →
      (y < JS.ceil_div (bitmap_height image) 4)%nat →
      ∃ block,
        block_at (convertJimpToSemiGraphic image) y x = Some block
        ∧ 0 <= pattern block < 256
        ∧ (∀ dx dy, (dx < 2)%nat → (dy < 4)%nat →
             Z.testbit (pattern block) (dot_bit dx dy)
             = in_image (bitmap_width image) (bitmap_height image)
                        (x * 2 + dx) (y * 4 + dy)
               && (127 <? jimp_alpha image (x * 2 + dx) (y * 4 + dy)))
        ∧ ((∃ dx dy, (dx < 2)%nat ∧ (dy < 4)%nat
                     ∧ jimp_opaque_at image (x * 2 + dx) (y * 4 + dy) = true) →
           pattern block ≠ 0)
        ∧ ((∀ dx dy, (dx < 2)%nat → (dy < 4)%nat →
              jimp_opaque_at image (x * 2 + dx) (y * 4 + dy) = true →
              jimp_nearest image (x * 2 + dx) (y * 4 + dy) = 0) →
           colorCode block = 0)
        ∧ ((∀ dx dy, (dx < 2)%nat → (dy < 4)%nat →
              jimp_opaque_at image (x * 2 + dx) (y * 4 + dy) = false) →
           pattern block = 0 ∧ colorCode block = 0))
  ∧ (∀ image imageData x y,
      same_pixels image imageData →
      (x < JS.ceil_div (id_width imageData) 2)%nat →
      (y < JS.ceil_div (id_height imageData) 4)%nat →
      ∃ block,
        block_at (convertJimpToSemiGraphic image) y x = Some block
        ∧ (∀ dx dy, (dx < 2)%nat → (dy < 4)%nat →
             Z.testbit (pattern block) (dot_bit dx dy) = true
             ↔ opaque_pixel imageData (x * 2 + dx) (y * 4 + dy))
        ∧ ((∀ dx dy, (dx < 2)%nat → (dy < 4)%nat →
              opaque_pixel imageData (x * 2 + dx) (y * 4 + dy) →
              black_pixel imageData (x * 2 + dx) (y * 4 + dy)) →
           colorCode block = 0))
  ∧ (∀ imageData x y,
      wf_image imageData →
      (x < JS.ceil_div (id_width imageData) 2)%nat →
      (y < JS.ceil_div (id_height imageData) 4)%nat →
      ∃ block,
        block_at (convertImageDataToSemiGraphic imageData) y x = Some block
        ∧ 0 <= pattern block < 256
        ∧ (∀ dx dy, (dx < 2)%nat → (dy < 4)%nat →
             Z.testbit (pattern block) (dot_bit dx dy) = true
             ↔ opaque_pixel imageData (x * 2 + dx) (y * 4 + dy)
               ∧ ¬ black_pixel imageData (x * 2 + dx) (y * 4 + dy))
        ∧ ((∀ dx dy, (dx < 2)%nat → (dy < 4)%nat →
              opaque_pixel imageData (x * 2 + dx) (y * 4 + dy) →
              black_pixel imageData (x * 2 + dx) (y * 4 + dy)) →
           pattern block = 0 ∧ colorCode block = 0)
        ∧ ((∀ dx dy, (dx < 2)%nat → (dy < 4)%nat →
              ¬ opaque_pixel imageData (x * 2 + dx) (y * 4 + dy)) →
           pattern block = 0 ∧ colorCode block = 0))
  ∧ via_jimp black_image = Some (mkBlock 0xFF 0)
  ∧ via_buffer black_image = Some (mkBlock 0x00 0)
  ∧ via_jimp grey_image = Some (mkBlock 0xFF 0)
  ∧ via_buffer grey_image = Some (mkBlock 0x00 0)
  ∧ via_jimp clear_image = Some (mkBlock 0x00 0)
  ∧ via_buffer clear_image = Some (mkBlock 0x00 0)
  ∧ via_jimp ghost_image = Some (mkBlock 0x00 0)
  ∧ via_buffer ghost_image = Some (mkBlock 0x00 0)
  ∧ via_jimp dim_image = Some (mkBlock 0x00 0)
  ∧ via_buffer dim_image = Some (mkBlock 0x00 0)
  ∧ via_jimp solid_image = Some (mkBlock 0xFF 7)
  ∧ via_buffer solid_image = Some (mkBlock 0xFF 7)
  ∧ via_jimp white_image = Some (mkBlock 0xFF 7)
  ∧ via_buffer white_image = Some (mkBlock 0xFF 7)
  ∧ via_jimp spot_image = Some (mkBlock 0xFF 7)
  ∧ via_buffer spot_image = Some (mkBlock 0xEF 7).
Proof.
  split; [|split; [|split; [|repeat split; vm_compute; reflexivity]]].
  - intros image x y Hx Hy.
    exists (generateSemiGraphicBlockFromJimp x y image (bitmap_width image)
              (bitmap_height image)).
    split; [by apply convertJimp_block|].
    rewrite jimp_block_eq. cbn [pattern colorCode].
    split; [apply pattern_of_range|].
    split; [|split; [|split; [|intros Hclear; split]]].
    + intros dx dy Hdx Hdy. by rewrite dot_bit_index, pattern_of_testbit.
    + intros (dx & dy & Hdx & Hdy & Hop).
      by apply (pattern_of_nonzero _ dx dy).
    + intros Hblack. by apply getMostFrequentColor_all_black, jimp_votes_black.
    + by apply pattern_of_dark.
    + apply getMostFrequentColor_all_black, jimp_votes_black.
      intros dx dy Hdx Hdy Hop. rewrite Hclear in Hop by done. discriminate.
  - intros image imageData x y Hsame Hx Hy. pose proof Hsame as (Hw & Hh & _).
    exists (generateSemiGraphicBlockFromJimp x y image (bitmap_width image)
              (bitmap_height image)).
    split; [apply convertJimp_block; by rewrite ?Hw, ?Hh|].
    split.
    + intros dx dy Hdx Hdy. by apply jimp_block_bits.
    + by apply jimp_block_colorless.
  - intros imageData x y Hwf Hx Hy. exists (data_block x y imageData).
    split; [by apply convertImageData_block|].
    split; [rewrite data_block_eq; apply pattern_of_range|].
    split; [intros dx dy Hdx Hdy; by apply data_block_bits|].
    split.
    + intros Hblack. by rewrite data_block_black.
    + intros Hnone. rewrite data_block_black; [done|done|].
      intros dx dy Hdx Hdy Hop. by destruct (Hnone dx dy Hdx Hdy).
Qed.

Lemma pattern_bits_by_path_witness :
  ∃ block,
    block_at (convertImageDataToSemiGraphic grey_image) 0 0 = Some block
    ∧ pattern block = 0 ∧ colorCode block = 0.
Proof.
  destruct (proj1 (proj2 (proj2 pattern_bits_by_path)) grey_image 0%nat 0%nat)
    as (block & Hb & _ & _ & Hblack & _).
  - split; [reflexivity|]. vm_compute. repeat constructor; discriminate.
  - cbv. lia.
  - cbv. lia.
  - exists block. split; [exact Hb|]. apply Hblack.
    intros dx dy Hdx Hdy _. exists 50, 50, 50.
    each_dot dx dy; repeat split; vm_compute; reflexivity.
Defined.

(** C3, refuted as stated: in the direct-buffer path every pixel of the
    2x4 image of bytes 0, 0, 0, 255 is opaque, alpha 255, yet no pattern
    bit is set; the same holds for opaque dark grey. *)
Lemma direct_path_leaves_black_unset :
  Forall (λ d, channel black_image d.1 d.2 3 = Some 255) dots
  ∧ Forall (λ d, opaque_pixel black_image d.1 d.2) dots
  ∧ via_buffer black_image = Some (mkBlock 0 0)
  ∧ Forall (λ d, Z.testbit 0 (dot_bit d.1 d.2) = false) dots
  ∧ Forall (λ d, channel grey_image d.1 d.2 3 = Some 255) dots
  ∧ via_buffer grey_image = Some (mkBlock 0 0).
Proof.
  split; [repeat constructor|].
  split.
  { repeat constructor; try (cbv; lia); exists 255; split; try reflexivity; lia. }
  split; [vm_compute; reflexivity|].
  split; [repeat constructor|].
  split; [repeat constructor|vm_compute; reflexivity].
Qed.

(** ** The text of a line *)

Lemma str_app_assoc (a b c : string) : (a +:+ b) +:+ c = a +:+ (b +:+ c).
Proof.
  induction a as [|ch a IH]; [done|].
  change (String ch ((a +:+ b) +:+ c) = String ch (a +:+ (b +:+ c))).
  by rewrite IH.
Qed.

Lemma concat_cons_ne sep (x : string) xs :
  xs ≠ [] → String.concat sep (x :: xs) = x +:+ sep +:+ String.concat sep xs.
Proof. by destruct xs. Qed.

Lemma concat_pair_fields (f h : nat * Z → string) ps :
  String.concat ", " (flat_map (λ p, [f p; h p]) ps)
  = String.concat ", " (map (λ p, f p +:+ ", " +:+ h p) ps).
Proof.
  induction ps as [|p ps IH]; [done|].
  cbn [flat_map map app]. destruct ps as [|q ps].
  - reflexivity.
  - rewrite (concat_cons_ne _ (f p)) by done.
    rewrite (concat_cons_ne _ (h p)) by done.
    rewrite (concat_cons_ne _ (f p +:+ ", " +:+ h p)) by done.
    rewrite IH. by rewrite !str_app_assoc.
Qed.

Lemma hex_literal_byte v : 0 <= v < 256 → hex_literal v = byte_text v.
Proof.
  intros Hv.
  assert (Hall : forallb (λ n, String.eqb (hex_literal (Z.of_nat n))
                                         (byte_text (Z.of_nat n)))
                         (seq 0 256) = true) by (vm_compute; reflexivity).
  rewrite forallb_forall in Hall.
  specialize (Hall (Z.to_nat v)). rewrite Z2Nat.id in Hall by lia.
  apply String.eqb_eq, Hall, in_seq. lia.
Qed.

Lemma attrLine_text count pairs :
  pairs ≠ [] → Forall (λ p, 0 <= p.2 < 256) pairs →
  attrLine count pairs = attr_text count pairs.
Proof.
  intros Hne Hbytes. unfold attrLine, attr_text, attr_fields, JS.join.
  rewrite concat_cons_ne by (by destruct pairs).
  rewrite concat_pair_fields.
  assert (Hmap : map pair_text pairs
                 = map (λ p : nat * Z, dec p.1 +:+ ", " +:+ byte_text p.2) pairs).
  { apply map_ext_in. intros p Hp. unfold pair_text.
    rewrite Forall_forall in Hbytes.
    rewrite hex_literal_byte; [done|]. apply Hbytes. by apply list_elem_of_In. }
  rewrite Hmap. reflexivity.
Qed.

Lemma getAttributeColorCode_byte c : getAttributeColorCode c = attribute_byte c.
Proof.
  unfold getAttributeColorCode, attribute_byte.
  destruct (Z.leb_spec 0 c) as [H0|H0]; [|done].
  destruct (Z.leb_spec c 7) as [H7|H7]; simpl.
  - assert (Hc : c = 0 ∨ c = 1 ∨ c = 2 ∨ c = 3 ∨ c = 4 ∨ c = 5 ∨ c = 6 ∨ c = 7) by lia.
    destruct Hc as [->|[->|[->|[->|[->|[->|[->| ->]]]]]]]; reflexivity.
  - rewrite lookup_ge_None_2; [done|]. simpl. lia.
Qed.

Lemma attribute_byte_range c : 0 <= attribute_byte c < 256.
Proof.
  unfold attribute_byte.
  destruct (Z.leb_spec 0 c) as [H0|H0]; [|simpl; lia].
  destruct (Z.leb_spec c 7) as [H7|H7]; simpl; [|lia].
  assert (Hc : c = 0 ∨ c = 1 ∨ c = 2 ∨ c = 3 ∨ c = 4 ∨ c = 5 ∨ c = 6 ∨ c = 7) by lia.
  destruct Hc as [->|[->|[->|[->|[->|[->|[->| ->]]]]]]]; vm_compute; (split; [discriminate|reflexivity]).
Qed.

Lemma line_pairs_bytes rowColors : Forall (λ p, 0 <= p.2 < 256) (line_pairs rowColors).
Proof.
  unfold line_pairs, or_fallback.
  destruct (row_changes_pairs rowColors) as [Hall _].
  destruct (row_changes rowColors) as [|p ps].
  - repeat constructor; simpl; lia.
  - eapply Forall_impl; [exact Hall|]. intros q (_ & c & _ & _ & ->).
    rewrite getAttributeColorCode_byte. apply attribute_byte_range.
Qed.

Lemma line_pairs_nonempty rowColors : line_pairs rowColors ≠ [].
Proof. unfold line_pairs, or_fallback. by destruct (row_changes rowColors). Qed.

(** The line of a row, as text. *)
Lemma colorAttributeLine_text rowColors :
  colorAttributeLine rowColors
  = attr_text (length (line_pairs rowColors)) (line_pairs rowColors).
Proof.
  rewrite colorAttributeLine_pairs.
  apply attrLine_text; [apply line_pairs_nonempty|apply line_pairs_bytes].
Qed.

Lemma attr_line_text semiData labelPrefix y row :
  wf_grid semiData → blocks semiData !! y = Some row →
  attr_line_of semiData labelPrefix y
  = Some (attr_text (length (line_pairs (map colorCode row)))
                    (line_pairs (map colorCode row))).
Proof.
  intros Hwf Hrow. rewrite (attr_line_of_row _ _ _ row) by done.
  by rewrite colorAttributeLine_text.
Qed.

(** *** Commas of a line *)

Lemma count_commas_app a b :
  count_commas (a +:+ b) = (count_commas a + count_commas b)%nat.
Proof.
  induction a as [|c a IH]; [done|]. simpl. rewrite IH.
  by destruct (c =? ",")%char.
Qed.

Lemma count_commas_uint d : count_commas (DecimalString.NilEmpty.string_of_uint d) = 0%nat.
Proof. induction d; simpl; done. Qed.

Lemma count_commas_dec n : count_commas (dec n) = 0%nat.
Proof.
  unfold dec, DecimalString.NilZero.string_of_uint.
  destruct (Nat.to_uint n) eqn:E; try done; rewrite <-E; apply count_commas_uint.
Qed.

Lemma count_commas_byte v : 0 <= v < 256 → count_commas (byte_text v) = 0%nat.
Proof.
  intros Hv.
  assert (Hall : forallb (λ n, (count_commas (byte_text (Z.of_nat n)) =? 0)%nat)
                         (seq 0 256) = true) by (vm_compute; reflexivity).
  rewrite forallb_forall in Hall.
  specialize (Hall (Z.to_nat v)). rewrite Z2Nat.id in Hall by lia.
  apply Nat.eqb_eq, Hall, in_seq. lia.
Qed.

Lemma count_commas_fields fields :
  Forall (λ f, count_commas f = 0%nat) fields →
  count_commas (String.concat ", " fields) = (length fields - 1)%nat.
Proof.
  induction 1 as [|f fields Hf Hall IH]; [done|].
  destruct fields as [|f' fields]; [simpl; lia|].
  rewrite concat_cons_ne by done.
  rewrite !count_commas_app, Hf, IH. simpl. lia.
Qed.

Lemma attr_text_fields count pairs :
  Forall (λ p, 0 <= p.2 < 256) pairs →
  count_fields (attr_text count pairs) = (1 + 2 * length pairs)%nat.
Proof.
  intros Hbytes. unfold count_fields, attr_text, data_line.
  cbn [count_commas Ascii.eqb Bool.eqb]. simpl (_ =? _)%char. cbv iota.
  rewrite count_commas_fields.
  - unfold attr_fields. cbn [length].
    assert (Hlen : length (flat_map (λ p : nat * Z, [dec p.1; byte_text p.2]) pairs)
                   = (2 * length pairs)%nat).
    { clear. induction pairs as [|p ps IH]; simpl; lia. }
    rewrite Hlen. lia.
  - unfold attr_fields. constructor; [apply count_commas_dec|].
    apply Forall_flat_map. eapply Forall_impl; [exact Hbytes|].
    intros p Hp. simpl. repeat constructor; [apply count_commas_dec|].
    by apply count_commas_byte.
Qed.

(** ** The changes of a row *)

Lemma active_before_step rowColors s n c :
  rowColors !! (s + n)%nat = Some c →
  active_before rowColors s (s + S n)
  = if decide (c = 0) then active_before rowColors s (s + n) else Some c.
Proof.
  intros Hc. unfold active_before.
  replace (s + S n - s)%nat with (S n) by lia.
  replace (s + n - s)%nat with n by lia.
  rewrite (take_S_r _ _ c) by (by rewrite lookup_drop).
  rewrite filter_app, filter_cons, filter_nil.
  case_decide as Hd.
  - rewrite decide_False by tauto. by rewrite last_snoc.
  - rewrite decide_True by tauto. by rewrite app_nil_r.
Qed.

(** The change loop against the changes of the row, after the positions
    [s .. s+n-1]. *)
Lemma changes_spec_fold rowColors s n :
  Forall (λ c, 0 <= c < 8) rowColors → (s + n ≤ length rowColors)%nat →
  let ch := fold_left (change_step rowColors) (seq s n) (-1, []) in
  (∀ x attr, (x, attr) ∈ ch.2
     ↔ (s ≤ x < s + n)%nat
       ∧ ∃ c, rowColors !! x = Some c ∧ c ≠ 0
              ∧ active_before rowColors s x ≠ Some c ∧ attr = attribute_byte c)
  ∧ ch.1 = default (-1) (active_before rowColors s (s + n)).
Proof.
  intros Hrange. induction n as [|n IH]; intros Hlen ch.
  - subst ch. simpl. split.
    + intros x attr. split; [by intros ?%elem_of_nil|]. lia.
    + unfold active_before. by rewrite Nat.add_0_r, Nat.sub_diag, take_0.
  - subst ch. rewrite seq_S, fold_left_app. cbn [fold_left].
    specialize (IH ltac:(lia)). cbv zeta in IH.
    destruct (fold_left (change_step rowColors) (seq s n) (-1, [])) as [tracked ps].
    cbn [fst snd] in IH. destruct IH as [Hmem Htracked].
    destruct (lookup_lt_is_Some_2 rowColors (s + n)) as [c Hc]; [lia|].
    pose proof (Forall_lookup_1 _ _ _ _ Hrange Hc) as Hcr. simpl in Hcr.
    rewrite (active_before_step _ _ _ c Hc).
    assert (Hold : ∀ x attr,
              ((s ≤ x < s + n)%nat
               ∧ ∃ c', rowColors !! x = Some c' ∧ c' ≠ 0
                       ∧ active_before rowColors s x ≠ Some c'
                       ∧ attr = attribute_byte c')
              ∨ (x = (s + n)%nat ∧ c ≠ 0
                 ∧ active_before rowColors s (s + n) ≠ Some c
                 ∧ attr = attribute_byte c)
              ↔ (s ≤ x < s + S n)%nat
                ∧ ∃ c', rowColors !! x = Some c' ∧ c' ≠ 0
                        ∧ active_before rowColors s x ≠ Some c'
                        ∧ attr = attribute_byte c').
    { intros x attr. split.
      - intros [[Hx Hrest]|(-> & H0 & Hact & ->)].
        + split; [lia|done].
        + split; [lia|]. by exists c.
      - intros [Hx (c' & Hc' & H0 & Hact & ->)].
        destruct (decide (x = (s + n)%nat)) as [->|Hne].
        + right. rewrite Hc in Hc'. injection Hc' as <-. done.
        + left. split; [lia|]. by exists c'. }
    unfold change_step. rewrite Hc. cbn [fst snd].
    destruct (Z.eqb_spec c 0) as [->|H0].
    { rewrite decide_True by done. split; [|done].
      intros x attr. rewrite Hmem, <-Hold. split; [by left|].
      intros [?|(_ & ? & _)]; done. }
    rewrite decide_False by done.
    destruct (Z.eqb_spec c tracked) as [->|Hne]; cbn [fst snd].
    + assert (Hact : active_before rowColors s (s + n) = Some tracked).
      { destruct (active_before rowColors s (s + n)); simpl in Htracked; [by subst|lia]. }
      split; [|done].
      intros x attr. rewrite Hmem, <-Hold. split; [by left|].
      intros [?|(_ & _ & ? & _)]; done.
    + split; [|done].
      intros x attr. rewrite elem_of_app, Hmem, <-Hold.
      rewrite list_elem_of_singleton, getAttributeColorCode_byte.
      split.
      * intros [?|[= -> ->]]; [by left|]. right. split_and!; try done.
        intros Hact. rewrite Hact in Htracked. simpl in Htracked. done.
      * intros [?|(-> & _ & _ & ->)]; [by left|by right].
Qed.

Lemma row_changes_spec rowColors x attr :
  Forall (λ c, 0 <= c < 8) rowColors →
  (x, attr) ∈ row_changes rowColors ↔ change_at rowColors x attr.
Proof.
  intros Hrange. unfold row_changes, change_at.
  pose proof (leading_white_le rowColors) as Hle.
  destruct (changes_spec_fold rowColors (leading_white rowColors)
              (length rowColors - leading_white rowColors) Hrange) as [Hmem _]; [lia|].
  rewrite Hmem. split.
  - intros [Hx Hrest]. split; [lia|done].
  - intros [Hx (c & Hc & Hrest)]. split; [|by exists c].
    apply lookup_lt_Some in Hc. lia.
Qed.

Lemma row_changes_sorted rowColors :
  StronglySorted lt (map fst (row_changes rowColors)).
Proof. apply row_changes_pairs. Qed.

Lemma row_colors_range (row : list SemiGraphicBlock) :
  Forall (λ block, 0 <= colorCode block < 8) row →
  Forall (λ c, 0 <= c < 8) (map colorCode row).
Proof. intros H. by apply Forall_fmap. Qed.

(** C4: for a row of palette indices, the pairs printed on its line are,
    in increasing order of position, exactly the changes of the row: a
    position past the leading white whose colour is not black and differs
    from the last colour other than black before it. So a black block
    gives no pair and does not change the colour the next blocks are
    compared with, and a block of the colour in force gives none either. No
    pair carries $18, the attribute of black. The 12-block test row prints
    as tab, DB, tab and [9, 0, $38, 1, $F8, 3, $58, 5, $38, 6, $F8, 7, $38,
    8, $F8, 9, $38, 10, $F8]: positions 2, 4 and 11 are absent. *)
Theorem black_is_passed_over :
  (∀ semiData labelPrefix y row,
      wf_grid semiData → blocks semiData !! y = Some row →
      Forall (λ block, 0 <= colorCode block < 8) row →
      ∃ pairs,
        attr_line_of semiData labelPrefix y
        = Some (attr_text (length (or_fallback pairs)) (or_fallback pairs))
        ∧ StronglySorted lt (map fst pairs)
        ∧ (∀ x attr, (x, attr) ∈ pairs ↔ change_at (map colorCode row) x attr)
        ∧ Forall (λ p, p.2 ≠ 0x18) (or_fallback pairs)
        ∧ Forall (λ p, ∃ block, row !! p.1 = Some block ∧ colorCode block ≠ 0
                       ∧ p.2 = attribute_byte (colorCode block)) pairs)
  ∧ (∀ rowColors st x, rowColors !! x = Some 0 → scan_step rowColors st x = st)
  ∧ (∀ rowColors st x, rowColors !! x = Some (currentColor st) →
       scan_step rowColors st x = st)
  ∧ ROW_BWWRRBWBWBWW = [1; 7; 7; 2; 2; 1; 7; 1; 7; 1; 7; 7]
  ∧ attr_line_of (row_grid ROW_BWWRRBWBWBWW) "TEST_ATTR" 0
    = Some (data_line
              "9, 0, $38, 1, $F8, 3, $58, 5, $38, 6, $F8, 7, $38, 8, $F8, 9, $38, 10, $F8")
  ∧ attr_text 9 [at_x 0 0x38; at_x 1 0xF8; at_x 3 0x58; at_x 5 0x38; at_x 6 0xF8;
                 at_x 7 0x38; at_x 8 0xF8; at_x 9 0x38; at_x 10 0xF8]
    = data_line
        "9, 0, $38, 1, $F8, 3, $58, 5, $38, 6, $F8, 7, $38, 8, $F8, 9, $38, 10, $F8"
  ∧ (∀ x attr, change_at ROW_BWWRRBWBWBWW x attr
       ↔ (x, attr) ∈ [at_x 0 0x38; at_x 1 0xF8; at_x 3 0x58; at_x 5 0x38; at_x 6 0xF8;
                       at_x 7 0x38; at_x 8 0xF8; at_x 9 0x38; at_x 10 0xF8])
  ∧ ROW_RKRKBKKW = [2; 0; 2; 0; 1; 0; 0; 7]
  ∧ attr_line_of (row_grid ROW_RKRKBKKW) "BLACK_BETWEEN" 0
    = Some (data_line "3, 0, $58, 4, $38, 7, $F8").
Proof.
  split_and!.
  - intros semiData labelPrefix y row Hwf Hrow Hrange.
    exists (row_changes (map colorCode row)).
    split; [by apply attr_line_text|].
    split; [apply row_changes_sorted|].
    split; [intros x attr; by apply row_changes_spec, row_colors_range|].
    split; [apply line_pairs_not_black|].
    destruct (row_changes_pairs (map colorCode row)) as [Hall _].
    eapply Forall_impl; [exact Hall|]. intros p (_ & c & Hc & Hc0 & ->).
    rewrite list_lookup_fmap in Hc.
    destruct (row !! p.1) as [block|]; [|done]. injection Hc as <-.
    exists block. by rewrite getAttributeColorCode_byte.
  - intros rowColors st x Hx. unfold scan_step. by rewrite Hx.
  - intros rowColors st x Hx. unfold scan_step. rewrite Hx.
    destruct (_ =? 0); [done|]. by rewrite Z.eqb_refl.
  - reflexivity.
  - vm_compute. reflexivity.
  - vm_compute. reflexivity.
  - intros x attr. rewrite <-row_changes_spec by (repeat constructor; lia).
    assert (Hrow : row_changes ROW_BWWRRBWBWBWW
                   = [at_x 0 0x38; at_x 1 0xF8; at_x 3 0x58; at_x 5 0x38; at_x 6 0xF8;
                      at_x 7 0x38; at_x 8 0xF8; at_x 9 0x38; at_x 10 0xF8])
      by (vm_compute; reflexivity).
    by rewrite Hrow.
  - reflexivity.
  - vm_compute. reflexivity.
Qed.

Lemma black_is_passed_over_witness :
  ∃ pairs,
    attr_line_of (row_grid ROW_RKRKBKKW) "BLACK_BETWEEN" 0
    = Some (attr_text (length (or_fallback pairs)) (or_fallback pairs))
    ∧ ((4%nat, 0x38) ∈ pairs ↔ change_at (map colorCode (map (mkBlock 0) ROW_RKRKBKKW))
                                          4 0x38).
Proof.
  destruct (proj1 black_is_passed_over (row_grid ROW_RKRKBKKW) "BLACK_BETWEEN" 0%nat
              (map (mkBlock 0) ROW_RKRKBKKW)) as (pairs & Hline & _ & Hmem & _).
  - apply row_grid_wf.
  - reflexivity.
  - repeat constructor; simpl; lia.
  - exists pairs. split; [exact Hline|]. apply Hmem.
Defined.

Lemma leading_white_stop rowColors :
  rowColors !! leading_white rowColors ≠ Some 7.
Proof.
  induction rowColors as [|c l IH]; [done|]. simpl.
  destruct (Z.eqb_spec c 7) as [->|Hne]; [exact IH|].
  simpl. by intros [= ?].
Qed.

(** C5, as the code has it: the positions of the leading run of white are
    white, and for a row with a palette colour other than black past that
    run none of them appears as an x-coordinate of its line; for every row
    that ends in white, the last pair of its line carries $F8, the attribute
    of white; the test row white-red-blue-white-white prints as tab, DB,
    tab and [3, 1, $58, 2, $38, 3, $F8]. *)
Theorem leading_white_is_trimmed :
  (∀ semiData labelPrefix y row,
      wf_grid semiData → blocks semiData !! y = Some row →
      ∃ pairs,
        attr_line_of semiData labelPrefix y
        = Some (attr_text (length pairs) pairs)
        ∧ (∀ x, (x < leading_white (map colorCode row))%nat →
             colorCode <$> row !! x = Some 7)
        ∧ (colorCode <$> row !! leading_white (map colorCode row) ≠ Some 7)
        ∧ ((∃ x block, (leading_white (map colorCode row) ≤ x)%nat
                       ∧ row !! x = Some block ∧ 0 < colorCode block) →
           Forall (λ p, (leading_white (map colorCode row) ≤ p.1)%nat) pairs)
        ∧ (colorCode <$> last row = Some 7 → snd <$> last pairs = Some 0xF8))
  ∧ ROW_WRBWW = [7; 2; 1; 7; 7]
  ∧ leading_white ROW_WRBWW = 1%nat
  ∧ attr_line_of (row_grid ROW_WRBWW) "TRIM_WHITE" 0
    = Some (data_line "3, 1, $58, 2, $38, 3, $F8")
  ∧ attr_text 3 [at_x 1 0x58; at_x 2 0x38; at_x 3 0xF8]
    = data_line "3, 1, $58, 2, $38, 3, $F8"
  ∧ (∀ x attr, change_at ROW_WRBWW x attr
       ↔ (x, attr) ∈ [at_x 1 0x58; at_x 2 0x38; at_x 3 0xF8]).
Proof.
  split; [|split_and!; try (vm_compute; reflexivity)].
  - intros semiData labelPrefix y row Hwf Hrow.
    exists (line_pairs (map colorCode row)).
    split; [by apply attr_line_text|]. split_and!.
    + intros x Hx. rewrite <-list_lookup_fmap. by apply leading_white_run.
    + rewrite <-list_lookup_fmap. apply (leading_white_stop (map colorCode row)).
    + intros (x & block & Hx & Hb & Hc).
      assert (Hne : row_changes (map colorCode row) ≠ []).
      { apply (row_changes_nonempty _ x (colorCode block)); [done| |done].
        by rewrite list_lookup_fmap, Hb. }
      unfold line_pairs, or_fallback.
      destruct (row_changes_pairs (map colorCode row)) as [Hall _].
      destruct (row_changes (map colorCode row)) as [|p ps]; [done|].
      eapply Forall_impl; [exact Hall|]. intros q [[Hq _] _]. exact Hq.
    + intros Hlast. apply line_pairs_last_white.
      etrans; [apply (fmap_last colorCode row)|exact Hlast].
  - intros x attr. rewrite <-row_changes_spec by (repeat constructor; lia).
    assert (Hrow : row_changes ROW_WRBWW = [at_x 1 0x58; at_x 2 0x38; at_x 3 0xF8])
      by (vm_compute; reflexivity).
    by rewrite Hrow.
Qed.

Lemma leading_white_is_trimmed_witness :
  ∃ pairs,
    attr_line_of (row_grid ROW_WRBWW) "TRIM_WHITE" 0
    = Some (attr_text (length pairs) pairs)
    ∧ Forall (λ p, (1 ≤ p.1)%nat) pairs
    ∧ snd <$> last pairs = Some 0xF8.
Proof.
  destruct (proj1 leading_white_is_trimmed (row_grid ROW_WRBWW) "TRIM_WHITE" 0%nat
              (map (mkBlock 0) ROW_WRBWW)) as (pairs & Hline & _ & _ & Htrim & Hlast).
  - apply row_grid_wf.
  - reflexivity.
  - exists pairs. split; [exact Hline|]. split.
    + apply Htrim. exists 1%nat, (mkBlock 0 2). split; [cbv; lia|].
      split; [reflexivity|]. simpl. lia.
    + apply Hlast. reflexivity.
Defined.

(** C5, refuted as stated: the line of an all-white row is tab, DB, tab and
    [1, 0, $F8]: its one pair has the x-coordinate 0, which lies in the
    leading white run. *)
Lemma all_white_row_names_position_0 :
  leading_white [7; 7; 7] = 3%nat
  ∧ attr_line_of (row_grid [7; 7; 7]) "ALL_WHITE" 0 = Some (data_line "1, 0, $F8")
  ∧ data_line "1, 0, $F8" = attr_text 1 [at_x 0 0xF8]
  ∧ (0 < leading_white [7; 7; 7]%Z)%nat.
Proof. split; [done|]. split; [|split]; vm_compute; (reflexivity || lia). Qed.

(** C6: a row of white blocks, a row of black blocks and any row whose scan
    counts no change are all printed as the fallback line: tab, DB, tab and
    [1, 0, $F8], that is count 1 and the pair of position 0 and $F8, the
    attribute of white, not $18, the one of black. *)
Theorem blank_rows_fall_back :
  (∀ semiData labelPrefix y row,
      wf_grid semiData → blocks semiData !! y = Some row →
      Forall (λ block, colorCode block = 7) row
      ∨ Forall (λ block, colorCode block = 0) row
      ∨ changeCount (row_scan (map colorCode row)) = 0%nat
      ∨ (Forall (λ block, 0 <= colorCode block < 8) row
         ∧ ∀ x attr, ¬ change_at (map colorCode row) x attr) →
      attr_line_of semiData labelPrefix y = Some (data_line "1, 0, $F8"))
  ∧ data_line "1, 0, $F8" = attr_text 1 [(0%nat, attribute_byte 7)]
  ∧ attribute_byte 7 = 0xF8
  ∧ attribute_byte 0 = 0x18
  ∧ (∀ c, getAttributeColorCode c = attribute_byte c)
  ∧ generateColorAttributeDB (row_grid [7; 7; 7]) "ALL_WHITE"
    = Some ["; カラーアトリビュートデータ (3x1)"; "ALL_WHITE:"; data_line "1, 0, $F8"]
  ∧ generateColorAttributeDB (row_grid [0; 0; 0]) "ALL_BLACK"
    = Some ["; カラーアトリビュートデータ (3x1)"; "ALL_BLACK:"; data_line "1, 0, $F8"]
  ∧ generateColorAttributeDB (row_grid [7; 7; 0; 0]) "WHITE_BLACK"
    = Some ["; カラーアトリビュートデータ (4x1)"; "WHITE_BLACK:"; data_line "1, 0, $F8"].
Proof.
  split; [|split_and!; try (vm_compute; reflexivity); apply getAttributeColorCode_byte].
  intros semiData labelPrefix y row Hwf Hrow Hcases.
  rewrite (attr_line_of_row _ _ _ row) by done.
  f_equal. rewrite colorAttributeLine_scan; [vm_compute; reflexivity|].
  rewrite row_scan_changes.
  destruct Hcases as [Hwhite|[Hblack|[Hnone|[Hrange Hnone]]]].
  - unfold row_changes. rewrite leading_white_all, Nat.sub_diag; [done|].
    by apply Forall_fmap.
  - rewrite row_changes_black; [done|]. intros x c _ Hc.
    rewrite list_lookup_fmap in Hc. destruct (row !! x) as [block|] eqn:Hb; [|done].
    injection Hc as <-. by apply (Forall_lookup_1 _ _ _ _ Hblack Hb).
  - by rewrite <-row_scan_changes.
  - destruct (row_changes (map colorCode row)) as [|[x attr] ps] eqn:E; [done|].
    destruct (Hnone x attr). apply row_changes_spec; [by apply row_colors_range|].
    rewrite E. by left.
Qed.

Lemma blank_rows_fall_back_witness :
  attr_line_of (row_grid [0; 0; 0]) "ALL_BLACK" 0 = Some (data_line "1, 0, $F8").
Proof.
  apply (proj1 blank_rows_fall_back (row_grid [0; 0; 0]) "ALL_BLACK" 0%nat
           (map (mkBlock 0) [0; 0; 0])).
  - apply row_grid_wf.
  - reflexivity.
  - right. left. repeat constructor.
Defined.

(** C10: on a rectangular grid at least one block wide, the colour table
    has one line per row, and every line reads tab, DB, tab, a count, and
    after it that many pairs of a position and an attribute byte [$XX],
    all separated by a comma and a space, so that the line has one field
    more than twice the count; the positions increase strictly and lie
    below the grid width. *)
Theorem attribute_lines_well_formed semiData labelPrefix :
  wf_grid semiData → (0 < width semiData)%nat →
  ∃ lines,
    generateColorAttributeDB semiData labelPrefix
    = Some (attr_header semiData labelPrefix ++ lines)
    ∧ length lines = height semiData
    ∧ Forall (λ line, ∃ count pairs,
                line = attr_text count pairs
                ∧ count = length pairs
                ∧ (1 ≤ count)%nat
                ∧ count_fields line = (1 + 2 * count)%nat
                ∧ StronglySorted lt (map fst pairs)
                ∧ Forall (λ p, (p.1 < width semiData)%nat ∧ 0 <= p.2 < 256) pairs)
             lines.
Proof.
  intros Hwf Hw.
  exists (map (λ row, colorAttributeLine (map colorCode row)) (blocks semiData)).
  split; [by apply generateColorAttributeDB_lines|].
  split; [rewrite length_map; apply Hwf|].
  apply Forall_fmap, Forall_forall. intros row Hrow. simpl.
  exists (length (line_pairs (map colorCode row))), (line_pairs (map colorCode row)).
  split; [apply colorAttributeLine_text|]. split; [done|].
  pose proof (line_pairs_nonempty (map colorCode row)) as Hne.
  pose proof (line_pairs_bytes (map colorCode row)) as Hbytes.
  split; [destruct (line_pairs (map colorCode row)); [done|simpl; lia]|].
  split; [rewrite colorAttributeLine_text; by apply attr_text_fields|].
  assert (Hlen : length (map colorCode row) = width semiData).
  { rewrite length_map. destruct Hwf as [_ Hrows].
    rewrite Forall_forall in Hrows. by apply Hrows. }
  revert Hbytes. unfold line_pairs, or_fallback.
  destruct (row_changes_pairs (map colorCode row)) as [Hall Hsort].
  destruct (row_changes (map colorCode row)) as [|p ps]; intros Hbytes.
  - split; repeat constructor; simpl; lia.
  - split; [done|].
    apply Forall_forall. intros q Hq. split.
    + rewrite Forall_forall in Hall. destruct (Hall q Hq) as [[_ Hlt] _].
      by rewrite <-Hlen.
    + rewrite Forall_forall in Hbytes. by apply Hbytes.
Qed.

Lemma attribute_lines_well_formed_witness :
  ∃ lines,
    generateColorAttributeDB (row_grid ROW_BWWRRBWBWBWW) "TEST_ATTR"
    = Some (attr_header (row_grid ROW_BWWRRBWBWBWW) "TEST_ATTR" ++ lines)
    ∧ length lines = 1%nat
    ∧ lines
      = [data_line
           "9, 0, $38, 1, $F8, 3, $58, 5, $38, 6, $F8, 7, $38, 8, $F8, 9, $38, 10, $F8"].
Proof.
  destruct (attribute_lines_well_formed (row_grid ROW_BWWRRBWBWBWW) "TEST_ATTR")
    as (lines & Hgen & Hlen & _).
  - apply row_grid_wf.
  - simpl. lia.
  - exists lines. split; [exact Hgen|]. split; [exact Hlen|].
    vm_compute in Hgen. injection Hgen as <-. reflexivity.
Defined.

(** *** The nearest colour, again *)

Lemma findNearestColor_min rgb :
  ∃ i color,
    findNearestColor rgb = Z.of_nat i ∧ (i < 8)%nat
    ∧ DIGITAL_COLORS !! i = Some color
    ∧ ∀ j c, DIGITAL_COLORS !! j = Some c → distance2 rgb color <= distance2 rgb c.
Proof.
  pose proof (nearest_inv_fold rgb (length DIGITAL_COLORS) (le_n _)) as Hinv.
  unfold findNearestColor. unfold nearest_inv in Hinv.
  destruct (fold_left _ _ _) as [[d|] idx]; simpl in *.
  - destruct Hinv as (i & color & -> & Hi & Hc & -> & Hmin).
    exists i, color. split_and!; try done.
    intros j c Hjc. apply (Hmin j c); [|done]. apply (lookup_lt_Some _ _ _ Hjc).
  - destruct Hinv as [Hlen _]. discriminate Hlen.
Qed.

Lemma findNearestColor_range rgb : 0 <= findNearestColor rgb < 8.
Proof.
  destruct (findNearestColor_min rgb) as (i & _ & -> & Hi & _). lia.
Qed.

(** X1: the nearest palette colour is found channel by channel: a channel
    of 128 or more counts as 255, a smaller one as 0, and the index is
    blue + 2 red + 4 green. No triple of integers is at the same distance
    from two palette entries. *)
Theorem findNearestColor_thresholds rgb :
  findNearestColor rgb = Z.of_nat (threshold_index rgb)
  ∧ ∀ j c, DIGITAL_COLORS !! j = Some c → j ≠ threshold_index rgb →
      ∃ nearest, DIGITAL_COLORS !! threshold_index rgb = Some nearest
                 ∧ distance2 rgb nearest < distance2 rgb c.
Proof.
  assert (Hstrict : ∀ j c, DIGITAL_COLORS !! j = Some c → j ≠ threshold_index rgb →
            ∃ nearest, DIGITAL_COLORS !! threshold_index rgb = Some nearest
                       ∧ distance2 rgb nearest < distance2 rgb c).
  { intros j c Hc Hne. destruct rgb as [cr cg cb]. unfold threshold_index in *.
    cbn [r g b] in *. unfold distance2.
    destruct (Z.leb_spec 128 cb), (Z.leb_spec 128 cr), (Z.leb_spec 128 cg);
      (eexists; split; [reflexivity|]);
      do 8 (destruct j as [|j]; [injection Hc as <-; simpl in *;
                                 first [done | rewrite !Z.pow_2_r; lia]|]);
      discriminate Hc. }
  split; [|exact Hstrict].
  destruct (findNearestColor_min rgb) as (i & color & -> & Hi & Hc & Hmin).
  f_equal. destruct (decide (i = threshold_index rgb)) as [|Hne]; [done|].
  destruct (Hstrict i color Hc Hne) as (nearest & Hn & Hlt).
  specialize (Hmin _ _ Hn). lia.
Qed.

Lemma findNearestColor_thresholds_witness :
  ∃ nearest,
    DIGITAL_COLORS !! threshold_index (mkRGB 200 100 0) = Some nearest
    ∧ distance2 (mkRGB 200 100 0) nearest
      < distance2 (mkRGB 200 100 0) (mkRGB 255 255 0).
Proof.
  apply (proj2 (findNearestColor_thresholds (mkRGB 200 100 0)) 6%nat).
  - reflexivity.
  - vm_compute. discriminate.
Defined.

(** *** The majority vote, again *)

(** The winner of a vote among palette indices, not all of them black. *)
Lemma getMostFrequentColor_winner colors :
  Forall (λ c, 0 <= c < 8) colors → Exists (λ c, c ≠ 0) colors →
  getMostFrequentColor colors ≠ 0 ∧ getMostFrequentColor colors ∈ colors
  ∧ ∀ c, c ≠ 0 →
      (votes_for c colors ≤ votes_for (getMostFrequentColor colors) colors)%nat
      ∧ (c < getMostFrequentColor colors →
         (votes_for c colors < votes_for (getMostFrequentColor colors) colors)%nat).
Proof.
  intros Hrange Hex.
  assert (Hidx : Forall (λ c, is_array_index c = true) colors).
  { eapply Forall_impl; [exact Hrange|]. intros c Hc. unfold is_array_index.
    simpl in Hc. apply andb_true_intro.
    split; [apply Z.leb_le|apply Z.ltb_lt]; lia. }
  pose proof (count_votes_ok colors Hidx) as Hok.
  assert (Hentry : ∀ k n, (k, n) ∈ count_votes colors →
             k ≠ 0 ∧ n = votes_for k colors ∧ (0 < n)%nat).
  { intros k n Hin. destruct (freq_ok_elem k n _ Hok Hin) as [Hget Hpos].
    rewrite count_votes_get in Hget. case_decide; [lia|]. by subst. }
  assert (Hhas : ∀ c, c ≠ 0 → c ∈ colors →
            (c, votes_for c colors) ∈ count_votes colors).
  { intros c Hc Hin. apply votes_for_pos in Hin.
    destruct (freq_get_pos c (count_votes colors)) as [n Hn].
    - rewrite count_votes_get. by case_decide.
    - by destruct (Hentry c n Hn) as (_ & -> & _). }
  rewrite getMostFrequentColor_tally.
  destruct (most_scan (count_votes colors) 0%nat 0)
    as [[_ Hall]|(f1 & f2 & Hf & Hm & H1 & H2)].
  { exfalso. apply Exists_exists in Hex as (c & Hin & Hc).
    rewrite Forall_forall in Hall. specialize (Hall _ (Hhas c Hc Hin)).
    apply votes_for_pos in Hin. simpl in Hall. lia. }
  set (res := fold_left most_step (count_votes colors) (0%nat, 0)) in *.
  assert (Hw : (res.2, res.1) ∈ count_votes colors).
  { rewrite Hf. apply elem_of_app. right. by left. }
  destruct (Hentry _ _ Hw) as (Hw0 & Hwn & Hwpos).
  split_and!; [done|by apply votes_for_pos; lia|].
  intros c Hc. rewrite <-Hwn.
  destruct (decide (c ∈ colors)) as [Hin|Hnin].
  - pose proof (Hhas c Hc Hin) as Hcin. rewrite Hf in Hcin.
    apply elem_of_app in Hcin as [Hc1|Hc2].
    + rewrite Forall_forall in H1. specialize (H1 _ Hc1). simpl in H1. lia.
    + apply elem_of_cons in Hc2 as [Heq|Hc2].
      { injection Heq as -> ->. lia. }
      rewrite Forall_forall in H2. specialize (H2 _ Hc2). simpl in H2.
      split; [lia|]. intros Hlt. exfalso.
      destruct Hok as [Hs _]. rewrite Hf in Hs.
      apply StronglySorted_app_1_r in Hs.
      apply StronglySorted_cons in Hs as [Hs _].
      rewrite Forall_forall in Hs. specialize (Hs _ Hc2). simpl in Hs. lia.
  - assert (votes_for c colors = 0%nat) as ->; [|lia].
    destruct (votes_for c colors) eqn:E; [done|].
    exfalso. apply Hnin, votes_for_pos. lia.
Qed.

Lemma Forall_black_dec (colors : list Z) :
  Forall (λ c, c = 0) colors ∨ Exists (λ c, c ≠ 0) colors.
Proof.
  induction colors as [|c colors [IH|IH]].
  - left. constructor.
  - destruct (decide (c = 0)) as [->|Hc]; [left; by constructor|].
    right. by left.
  - right. by right.
Qed.

Lemma getMostFrequentColor_range colors :
  Forall (λ c, 0 <= c < 8) colors → 0 <= getMostFrequentColor colors < 8.
Proof.
  intros Hrange. destruct (Forall_black_dec colors) as [Hb|Hex].
  - rewrite getMostFrequentColor_all_black by done. lia.
  - destruct (getMostFrequentColor_winner colors Hrange Hex) as (_ & Hin & _).
    rewrite Forall_forall in Hrange. by apply Hrange.
Qed.

Lemma votes_for_Permutation c colors1 colors2 :
  colors1 ≡ₚ colors2 → votes_for c colors1 = votes_for c colors2.
Proof. intros Hp. unfold votes_for. by rewrite Hp. Qed.

(** X2: the colour of a block does not depend on the order in which its
    dots vote: two lists of palette indices that are permutations of each
    other have the same most frequent colour. *)
Theorem getMostFrequentColor_order_free colors1 colors2 :
  Forall (λ c, 0 <= c < 8) colors1 → colors1 ≡ₚ colors2 →
  getMostFrequentColor colors1 = getMostFrequentColor colors2.
Proof.
  intros Hrange1 Hperm.
  assert (Hrange2 : Forall (λ c, 0 <= c < 8) colors2) by by rewrite <-Hperm.
  destruct (Forall_black_dec colors1) as [Hb|Hex].
  - rewrite !getMostFrequentColor_all_black; [done| |done]. by rewrite <-Hperm.
  - assert (Hex2 : Exists (λ c, c ≠ 0) colors2) by by rewrite <-Hperm.
    destruct (getMostFrequentColor_winner colors1 Hrange1 Hex) as (Hw1 & _ & Hmax1).
    destruct (getMostFrequentColor_winner colors2 Hrange2 Hex2) as (Hw2 & _ & Hmax2).
    set (w1 := getMostFrequentColor colors1) in *.
    set (w2 := getMostFrequentColor colors2) in *.
    destruct (Hmax1 w2 Hw2) as [Hle1 Hlt1]. destruct (Hmax2 w1 Hw1) as [Hle2 Hlt2].
    rewrite <-!(votes_for_Permutation _ _ _ Hperm) in Hle2, Hlt2.
    destruct (Z.lt_trichotomy w1 w2) as [Hlt|[Heq|Hgt]]; [|done|].
    + specialize (Hlt2 Hlt). lia.
    + specialize (Hlt1 Hgt). lia.
Qed.

Lemma getMostFrequentColor_order_free_witness :
  getMostFrequentColor [2; 4; 2; 4; 0] = getMostFrequentColor [4; 0; 4; 2; 2].
Proof.
  apply getMostFrequentColor_order_free.
  - repeat constructor; discriminate.
  - solve_Permutation.
Defined.

(** X3: black votes never weigh on the colour of a block: inserting a
    vote for black anywhere in a list of votes leaves the most frequent
    colour as it was. *)
Theorem getMostFrequentColor_black_vote colors1 colors2 :
  getMostFrequentColor (colors1 ++ 0 :: colors2)
  = getMostFrequentColor (colors1 ++ colors2).
Proof.
  rewrite <-(getMostFrequentColor_nonzero (colors1 ++ 0 :: colors2)).
  rewrite <-(getMostFrequentColor_nonzero (colors1 ++ colors2)).
  f_equal. rewrite !filter_app, filter_cons. by rewrite decide_False by lia.
Qed.

(** *** Grids of the converter, again *)

Lemma ceil_div_bounds n k :
  (0 < k)%nat → (n ≤ JS.ceil_div n k * k < n + k)%nat.
Proof.
  intros Hk. unfold JS.ceil_div.
  pose proof (Nat.div_mod_eq (n + (k - 1)) k) as Hdm.
  pose proof (Nat.mod_upper_bound (n + (k - 1)) k). nia.
Qed.

Lemma grid_wf (f : nat → nat → SemiGraphicBlock) w h :
  wf_grid (mkSemi w h (map (λ y, map (λ x, f x y) (seq 0 w)) (seq 0 h))).
Proof.
  split; simpl.
  - by rewrite length_map, length_seq.
  - apply Forall_fmap, Forall_forall. intros y _. simpl.
    by rewrite length_map, length_seq.
Qed.

Lemma convertImageData_wf imageData : wf_grid (convertImageDataToSemiGraphic imageData).
Proof. apply (grid_wf (λ x y, data_block x y imageData)). Qed.

Lemma convertJimp_wf image : wf_grid (convertJimpToSemiGraphic image).
Proof.
  apply (grid_wf (λ x y, generateSemiGraphicBlockFromJimp x y image _ _)).
Qed.

(** X4: both converters return a rectangular grid whose width and height
    are the least numbers of 2-pixel columns and 4-pixel rows that cover
    the image; an image without pixels gives a grid without blocks. *)
Theorem converted_grid_shape :
  (∀ imageData,
      wf_grid (convertImageDataToSemiGraphic imageData)
      ∧ (id_width imageData
         ≤ 2 * width (convertImageDataToSemiGraphic imageData)
         < id_width imageData + 2)%nat
      ∧ (id_height imageData
         ≤ 4 * height (convertImageDataToSemiGraphic imageData)
         < id_height imageData + 4)%nat)
  ∧ (∀ image,
      wf_grid (convertJimpToSemiGraphic image)
      ∧ (bitmap_width image
         ≤ 2 * width (convertJimpToSemiGraphic image)
         < bitmap_width image + 2)%nat
      ∧ (bitmap_height image
         ≤ 4 * height (convertJimpToSemiGraphic image)
         < bitmap_height image + 4)%nat)
  ∧ (∀ data, convertImageDataToSemiGraphic (mkImageData 0 0 data) = mkSemi 0 0 []).
Proof.
  split; [|split; [|done]].
  - intros imageData. split; [apply convertImageData_wf|].
    unfold convertImageDataToSemiGraphic. cbn [width height].
    rewrite !semi_size by lia.
    pose proof (ceil_div_bounds (id_width imageData) 2).
    pose proof (ceil_div_bounds (id_height imageData) 4). lia.
  - intros image. split; [apply convertJimp_wf|].
    unfold convertJimpToSemiGraphic. cbn [width height].
    rewrite !semi_size by lia.
    pose proof (ceil_div_bounds (bitmap_width image) 2).
    pose proof (ceil_div_bounds (bitmap_height image) 4). lia.
Qed.

(** *** Values of the blocks *)

Lemma nearest_of_reads_range r g b : 0 <= nearest_of_reads r g b < 8.
Proof.
  unfold nearest_of_reads. destruct r, g, b; try lia.
  apply findNearestColor_range.
Qed.

Lemma data_vote_range imageData x y dx dy : 0 <= data_vote imageData x y dx dy < 8.
Proof.
  unfold data_vote. destruct (opaque_at _ _ _); [|lia].
  apply nearest_of_reads_range.
Qed.

Lemma jimp_votes_range image x y ds :
  Forall (λ c, 0 <= c < 8) (jimp_votes image x y ds).
Proof.
  unfold jimp_votes. apply Forall_flat_map, Forall_forall. intros d _.
  destruct (jimp_opaque_at _ _ _); [|constructor].
  constructor; [|constructor]. apply findNearestColor_range.
Qed.

Lemma data_block_range x y imageData :
  0 <= pattern (data_block x y imageData) < 256
  ∧ 0 <= colorCode (data_block x y imageData) < 8.
Proof.
  rewrite data_block_eq. cbn [pattern colorCode].
  split; [apply pattern_of_range|].
  apply getMostFrequentColor_range, Forall_fmap, Forall_forall.
  intros d _. apply data_vote_range.
Qed.

Lemma jimp_block_range x y image :
  0 <= pattern (generateSemiGraphicBlockFromJimp x y image (bitmap_width image)
                  (bitmap_height image)) < 256
  ∧ 0 <= colorCode (generateSemiGraphicBlockFromJimp x y image (bitmap_width image)
                      (bitmap_height image)) < 8.
Proof.
  rewrite jimp_block_eq. cbn [pattern colorCode].
  split; [apply pattern_of_range|].
  apply getMostFrequentColor_range, jimp_votes_range.
Qed.

Lemma convertImageData_block_inv imageData y x block :
  block_at (convertImageDataToSemiGraphic imageData) y x = Some block →
  block = data_block x y imageData.
Proof.
  unfold block_at, convertImageDataToSemiGraphic. cbn [blocks]. intros H.
  by apply (grid_lookup_Some (λ x y, data_block x y imageData)) in H as (_ & _ & ->).
Qed.

Lemma convertJimp_block_inv image y x block :
  block_at (convertJimpToSemiGraphic image) y x = Some block →
  block = generateSemiGraphicBlockFromJimp x y image (bitmap_width image)
            (bitmap_height image).
Proof.
  unfold block_at, convertJimpToSemiGraphic. cbn [blocks]. intros H.
  by apply (grid_lookup_Some
              (λ x y, generateSemiGraphicBlockFromJimp x y image _ _))
    in H as (_ & _ & ->).
Qed.

(** X5: whatever the image, also with a buffer shorter than its size
    says, every block of a converted grid holds a byte as its pattern and a
    palette index 0..7 as its colour code. *)
Theorem converted_blocks_in_range :
  (∀ imageData y x block,
      block_at (convertImageDataToSemiGraphic imageData) y x = Some block →
      0 <= pattern block < 256 ∧ 0 <= colorCode block < 8)
  ∧ (∀ image y x block,
      block_at (convertJimpToSemiGraphic image) y x = Some block →
      0 <= pattern block < 256 ∧ 0 <= colorCode block < 8).
Proof.
  split.
  - intros imageData y x block ->%convertImageData_block_inv.
    apply data_block_range.
  - intros image y x block ->%convertJimp_block_inv. apply jimp_block_range.
Qed.

Lemma converted_blocks_in_range_witness :
  0 <= pattern (mkBlock 0xCC 7) < 256 ∧ 0 <= colorCode (mkBlock 0xCC 7) < 8.
Proof.
  apply (proj1 converted_blocks_in_range
           (mask_image [(false, false); (false, false); (true, true); (true, true)])
           0%nat 0%nat).
  vm_compute. reflexivity.
Defined.

Lemma data_block_empty x y imageData :
  pattern (data_block x y imageData) = 0 ↔ colorCode (data_block x y imageData) = 0.
Proof.
  rewrite data_block_eq. cbn [pattern colorCode].
  set (votes := map (λ d, data_vote imageData x y d.1 d.2) dots).
  assert (Hrange : Forall (λ c, 0 <= c < 8) votes).
  { apply Forall_fmap, Forall_forall. intros d _. apply data_vote_range. }
  destruct (Forall_black_dec votes) as [Hb|Hex].
  - split; intros _.
    + by apply getMostFrequentColor_all_black.
    + apply pattern_of_dark. intros dx dy Hdx Hdy.
      apply negb_false_iff, Z.eqb_eq.
      rewrite Forall_forall in Hb. apply Hb.
      apply (list_elem_of_fmap_2 (λ d, data_vote imageData x y d.1 d.2) dots (dx, dy)).
      unfold dots. each_dot dx dy; repeat constructor.
  - destruct (getMostFrequentColor_winner votes Hrange Hex) as (Hw & _).
    apply Exists_exists in Hex as (c & Hin & Hc).
    apply list_elem_of_fmap in Hin as ([dx dy] & -> & Hd).
    apply elem_of_dots in Hd as [Hdx Hdy]. simpl in *.
    assert (Hp : pattern_of (λ dx dy, negb (data_vote imageData x y dx dy =? 0)) ≠ 0).
    { apply (pattern_of_nonzero _ dx dy Hdx Hdy).
      apply negb_true_iff, Z.eqb_neq, Hc. }
    split; intros H0; [by destruct Hp|by destruct Hw].
Qed.

(** X6: in the direct-buffer converter a block has no dot exactly when its
    colour code is black: the pattern is 0x00 if and only if the colour code
    is 0. In the Jimp converter a block with a colour other than black has
    a dot, but not the other way round. *)
Theorem empty_pattern_iff_black :
  (∀ imageData y x block,
      block_at (convertImageDataToSemiGraphic imageData) y x = Some block →
      pattern block = 0 ↔ colorCode block = 0)
  ∧ (∀ image y x block,
      block_at (convertJimpToSemiGraphic image) y x = Some block →
      colorCode block ≠ 0 → pattern block ≠ 0)
  ∧ block_at (convertJimpToSemiGraphic (jimp_of_data black_image)) 0 0
    = Some (mkBlock 0xFF 0).
Proof.
  split; [|split; [|vm_compute; reflexivity]].
  - intros imageData y x block ->%convertImageData_block_inv.
    apply data_block_empty.
  - intros image y x block ->%convertJimp_block_inv.
    rewrite jimp_block_eq. cbn [pattern colorCode]. intros Hc.
    destruct (decide (Exists (λ d, jimp_opaque_at image (x * 2 + d.1) (y * 4 + d.2)
                                   = true) dots)) as [Hex|Hnone].
    + apply Exists_exists in Hex as ([dx dy] & Hd & Hop).
      apply elem_of_dots in Hd as [Hdx Hdy]. by apply (pattern_of_nonzero _ dx dy).
    + destruct Hc. apply getMostFrequentColor_all_black, jimp_votes_black.
      intros dx dy Hdx Hdy Hop. destruct Hnone. apply Exists_exists.
      exists (dx, dy). split; [|done].
      unfold dots. each_dot dx dy; repeat constructor.
Qed.

Lemma empty_pattern_iff_black_witness :
  pattern (mkBlock 0 0) = 0 ↔ colorCode (mkBlock 0 0) = 0.
Proof.
  apply (proj1 empty_pattern_iff_black black_image 0%nat 0%nat).
  vm_compute. reflexivity.
Defined.

(** *** Sizes and names *)

(** X7: [calculateImageSize] undoes nothing that [calculateSemiGraphicSize]
    rounds away: blocks to pixels and back is the identity, pixels to blocks
    and back drops the pixels past the last full block, and the block count
    of [calculateSemiGraphicSize] is the grid size of the converters only
    when the width is even and the height a multiple of 4; otherwise the
    converters' grid is one block larger in that direction. *)
Theorem size_conversions :
  (∀ semiWidth semiHeight,
      calculateSemiGraphicSize (calculateImageSize semiWidth semiHeight).1
                               (calculateImageSize semiWidth semiHeight).2
      = (semiWidth, semiHeight))
  ∧ (∀ imageWidth imageHeight,
      calculateImageSize (calculateSemiGraphicSize imageWidth imageHeight).1
                         (calculateSemiGraphicSize imageWidth imageHeight).2
      = ((imageWidth - imageWidth mod 2)%nat, (imageHeight - imageHeight mod 4)%nat))
  ∧ (∀ imageData,
      width (convertImageDataToSemiGraphic imageData)
      = ((calculateSemiGraphicSize (id_width imageData) (id_height imageData)).1
         + if (id_width imageData mod 2 =? 0)%nat then 0 else 1)%nat
      ∧ height (convertImageDataToSemiGraphic imageData)
        = ((calculateSemiGraphicSize (id_width imageData) (id_height imageData)).2
           + if (id_height imageData mod 4 =? 0)%nat then 0 else 1)%nat).
Proof.
  split; [|split].
  - intros sw sh. unfold calculateSemiGraphicSize, calculateImageSize.
    cbn [fst snd]. by rewrite !Nat.div_mul by lia.
  - intros w h. unfold calculateSemiGraphicSize, calculateImageSize.
    cbn [fst snd].
    pose proof (Nat.div_mod_eq w 2). pose proof (Nat.div_mod_eq h 4).
    f_equal; lia.
  - intros imageData. unfold convertImageDataToSemiGraphic, calculateSemiGraphicSize.
    cbn [width height fst snd]. rewrite !semi_size by lia. unfold JS.ceil_div.
    set (w := id_width imageData). set (h := id_height imageData).
    pose proof (Nat.div_mod_eq w 2). pose proof (Nat.mod_upper_bound w 2).
    pose proof (Nat.div_mod_eq h 4). pose proof (Nat.mod_upper_bound h 4).
    pose proof (Nat.div_mod_eq (w + (2 - 1)) 2).
    pose proof (Nat.mod_upper_bound (w + (2 - 1)) 2).
    pose proof (Nat.div_mod_eq (h + (4 - 1)) 4).
    pose proof (Nat.mod_upper_bound (h + (4 - 1)) 4).
    destruct (Nat.eqb_spec (w mod 2) 0), (Nat.eqb_spec (h mod 4) 0); lia.
Qed.

(** X8: [getColorName] knows the eight palette indices, under eight
    different names, and answers the "unknown" name for every other
    number. *)
Theorem getColorName_unknown :
  (∀ colorCode, getColorName colorCode = "不明" ↔ ¬ (0 <= colorCode < 8))
  ∧ (∀ c1 c2, 0 <= c1 < 8 → 0 <= c2 < 8 →
       getColorName c1 = getColorName c2 → c1 = c2).
Proof.
  assert (Hcases : ∀ c, 0 <= c < 8 →
            c = 0 ∨ c = 1 ∨ c = 2 ∨ c = 3 ∨ c = 4 ∨ c = 5 ∨ c = 6 ∨ c = 7) by lia.
  split.
  - intros c. split.
    + intros Hname Hc.
      destruct (Hcases c Hc) as [->|[->|[->|[->|[->|[->|[->| ->]]]]]]];
        discriminate Hname.
    + intros Hc. unfold getColorName.
      destruct (Z.leb_spec 0 c) as [Hle|]; [|done].
      rewrite lookup_ge_None_2; [done|]. simpl. lia.
  - intros c1 c2 H1 H2.
    destruct (Hcases c1 H1) as [->|[->|[->|[->|[->|[->|[->| ->]]]]]]];
      destruct (Hcases c2 H2) as [->|[->|[->|[->|[->|[->|[->| ->]]]]]]];
      first [done | discriminate].
Qed.

Lemma getColorName_unknown_witness : getColorName 8 = "不明".
Proof. apply (proj1 getColorName_unknown 8). lia. Defined.

(** *** Attribute bytes *)

Lemma palette_cases c :
  0 <= c < 8 → c = 0 ∨ c = 1 ∨ c = 2 ∨ c = 3 ∨ c = 4 ∨ c = 5 ∨ c = 6 ∨ c = 7.
Proof. lia. Qed.

Lemma getAttributeColorCode_inj c1 c2 :
  0 <= c1 < 8 → 0 <= c2 < 8 →
  getAttributeColorCode c1 = getAttributeColorCode c2 → c1 = c2.
Proof.
  intros H1 H2.
  destruct (palette_cases c1 H1) as [->|[->|[->|[->|[->|[->|[->| ->]]]]]]];
    destruct (palette_cases c2 H2) as [->|[->|[->|[->|[->|[->|[->| ->]]]]]]];
    first [done | discriminate].
Qed.

(** X9: the attribute byte of a palette index 0..7 is [(index << 5) | 0x18]
    and determines the index; every other number gets 0xF8, the byte of
    white. *)
Theorem attribute_bytes :
  (∀ c, 0 <= c < 8 →
     getAttributeColorCode c = Z.lor (Z.shiftl c 5) 0x18
     ∧ getAttributeColorCode c = 32 * c + 24)
  ∧ (∀ c, ¬ (0 <= c < 8) → getAttributeColorCode c = 0xF8)
  ∧ (∀ c1 c2, 0 <= c1 < 8 → 0 <= c2 < 8 →
       getAttributeColorCode c1 = getAttributeColorCode c2 → c1 = c2).
Proof.
  split; [|split; [|apply getAttributeColorCode_inj]].
  - intros c Hc.
    by destruct (palette_cases c Hc) as [->|[->|[->|[->|[->|[->|[->| ->]]]]]]].
  - intros c Hc. unfold getAttributeColorCode.
    destruct (Z.leb_spec 0 c) as [Hle|]; [|done].
    rewrite lookup_ge_None_2; [done|]. simpl. lia.
Qed.

Lemma attribute_bytes_witness :
  getAttributeColorCode 5 = Z.lor (Z.shiftl 5 5) 0x18
  ∧ getAttributeColorCode 5 = 32 * 5 + 24.
Proof. apply (proj1 attribute_bytes 5). lia. Defined.

(** *** Reading a line back *)

Lemma attr_in_force_snoc ps x' a x :
  attr_in_force (ps ++ [(x', a)]) x
  = if decide (x' ≤ x)%nat then Some a else attr_in_force ps x.
Proof.
  unfold attr_in_force. rewrite filter_app, filter_cons, filter_nil. simpl.
  case_decide.
  - by rewrite last_snoc.
  - by rewrite app_nil_r.
Qed.

Lemma attr_in_force_all ps x :
  Forall (λ p, (p.1 ≤ x)%nat) ps → attr_in_force ps x = snd <$> last ps.
Proof.
  intros Hall. unfold attr_in_force. f_equal. f_equal.
  induction Hall as [|p ps Hp _ IH]; [done|].
  rewrite filter_cons, decide_True by done. by rewrite IH.
Qed.

Lemma in_force_fold rowColors s n x c :
  (s ≤ x < s + n)%nat → rowColors !! x = Some c → c ≠ 0 → c ≠ -1 →
  attr_in_force (fold_left (change_step rowColors) (seq s n) (-1, [])).2 x
  = Some (getAttributeColorCode c).
Proof.
  revert x c. induction n as [|n IH]; intros x c Hx Hc Hc0 Hc1; [lia|].
  rewrite seq_S, fold_left_app. cbn [fold_left].
  destruct (changes_inv_fold rowColors s n) as (Hall & _ & Hlast).
  destruct (fold_left _ (seq s n) _) as [tracked ps] eqn:Efold.
  cbn [fst snd] in *.
  assert (Hbelow : Forall (λ p, (p.1 ≤ s + n)%nat) ps).
  { eapply Forall_impl; [exact Hall|]. intros p [[_ ?] _]. simpl. lia. }
  unfold change_step. destruct (decide (x = s + n)%nat) as [->|Hne].
  - rewrite Hc. rewrite (proj2 (Z.eqb_neq c 0)) by done. cbn [fst snd].
    destruct (Z.eqb_spec c tracked) as [->|Hct]; cbn [snd].
    + rewrite attr_in_force_all by done.
      destruct (last ps) as [p|]; [simpl; by rewrite Hlast|].
      destruct Hlast as [? _]. lia.
    + rewrite attr_in_force_snoc. by rewrite decide_True.
  - assert (Hold : attr_in_force ps x = Some (getAttributeColorCode c)).
    { by apply IH; [lia|..]. }
    destruct (rowColors !! (s + n)%nat) as [c'|]; [|done].
    destruct (c' =? 0); [done|]. cbn [fst snd].
    destruct (c' =? tracked); [done|]. cbn [snd].
    rewrite attr_in_force_snoc. by rewrite decide_False by lia.
Qed.

Lemma row_changes_position rowColors p :
  p ∈ row_changes rowColors →
  ∃ c, rowColors !! p.1 = Some c ∧ c ≠ 0.
Proof.
  intros Hp. destruct (row_changes_pairs rowColors) as [Hall _].
  rewrite Forall_forall in Hall.
  destruct (Hall p Hp) as (_ & c & Hc & Hc0 & _). by exists c.
Qed.

Lemma attr_in_force_skip ps x :
  Forall (λ p, p.1 ≠ S x) ps → attr_in_force ps (S x) = attr_in_force ps x.
Proof.
  intros Hall. unfold attr_in_force. do 2 f_equal.
  induction Hall as [|p ps Hp _ IH]; [done|].
  rewrite !filter_cons, IH.
  destruct (decide (p.1 ≤ S x)%nat), (decide (p.1 ≤ x)%nat); try done; lia.
Qed.

Lemma attr_in_force_before ps x :
  Forall (λ p, (x < p.1)%nat) ps → attr_in_force ps x = None.
Proof.
  intros Hall. unfold attr_in_force.
  assert (filter (λ p : nat * Z, (p.1 ≤ x)%nat) ps = []) as ->; [|done].
  induction Hall as [|p ps Hp _ IH]; [done|].
  rewrite filter_cons, IH. by rewrite decide_False by lia.
Qed.

(** X10: a line of the colour table can be read back. At every position of
    the row, from the end of the leading white run on, whose block has a
    colour 1..7, the attribute in force (the one of the last pair at or
    before it) is the attribute of that colour; at a black block the
    attribute in force is the one of the block before it; and past the
    leading white run of a row that has some other colour, nothing is in
    force before the first pair. *)
Theorem line_reads_back rowColors :
  colorAttributeLine rowColors
  = attr_text (length (line_pairs rowColors)) (line_pairs rowColors)
  ∧ (∀ x c, (leading_white rowColors ≤ x)%nat → rowColors !! x = Some c →
       0 < c →
       attr_in_force (line_pairs rowColors) x = Some (attribute_byte c))
  ∧ (∀ x, rowColors !! S x = Some 0 →
       attr_in_force (line_pairs rowColors) (S x)
       = attr_in_force (line_pairs rowColors) x)
  ∧ (∀ x, changeCount (row_scan rowColors) ≠ 0%nat →
       (x < leading_white rowColors)%nat →
       attr_in_force (line_pairs rowColors) x = None).
Proof.
  split; [apply colorAttributeLine_text|]. split; [|split].
  - intros x c Hx Hc Hpos. rewrite <-getAttributeColorCode_byte.
    pose proof (row_changes_nonempty rowColors x c Hx Hc Hpos) as Hne.
    unfold line_pairs, or_fallback.
    destruct (row_changes rowColors) as [|p ps] eqn:E; [done|]. rewrite <-E.
    unfold row_changes. apply in_force_fold; [|done|lia|lia].
    apply lookup_lt_Some in Hc. lia.
  - intros x Hx. unfold line_pairs, or_fallback.
    destruct (row_changes rowColors) as [|p ps] eqn:E; [done|]. rewrite <-E.
    apply attr_in_force_skip, Forall_forall. intros q Hq Heq.
    destruct (row_changes_position rowColors q Hq) as (c & Hc & Hc0).
    rewrite Heq, Hx in Hc. by injection Hc as <-.
  - intros x Hn Hx. rewrite line_pairs_changes by done.
    destruct (row_changes_pairs rowColors) as [Hall _].
    apply attr_in_force_before.
    eapply Forall_impl; [exact Hall|]. intros p [[? _] _]. simpl. lia.
Qed.

Lemma line_reads_back_witness :
  attr_in_force (line_pairs ROW_WRBWW) 4 = Some (attribute_byte 7).
Proof.
  apply (proj1 (proj2 (line_reads_back ROW_WRBWW)) 4%nat 7).
  - vm_compute. lia.
  - reflexivity.
  - lia.
Defined.

(** *** No change without a change of colour *)

Lemma neighbours_differ_snoc ps q :
  neighbours_differ ps → (∀ p, last ps = Some p → p.2 ≠ q.2) →
  neighbours_differ (ps ++ [q]).
Proof.
  intros Hps Hlast i p1 p2 H1 H2.
  destruct (decide (S i < length ps)%nat) as [Hlt|Hge].
  - rewrite lookup_app_l in H1 by lia. rewrite lookup_app_l in H2 by lia.
    by apply (Hps i).
  - apply lookup_lt_Some in H2 as Hlen. rewrite length_app in Hlen. simpl in Hlen.
    assert (S i = length ps) as Hi by lia.
    rewrite lookup_app_l in H1 by lia.
    rewrite lookup_app_r, Hi, Nat.sub_diag in H2 by lia. injection H2 as <-.
    apply Hlast. rewrite last_lookup. by replace (pred (length ps)) with i by lia.
Qed.

Lemma tracked_inv_step rowColors ch x :
  Forall (λ c, 0 <= c < 8) rowColors →
  tracked_inv ch → tracked_inv (change_step rowColors ch x).
Proof.
  intros Hrange (Htr & Hlast & Hdiff). unfold change_step.
  destruct (rowColors !! x) as [c|] eqn:Hc; [|done].
  pose proof (Forall_lookup_1 _ _ _ _ Hrange Hc) as Hcr. simpl in Hcr.
  destruct (Z.eqb_spec c 0) as [|Hc0]; [done|].
  destruct (Z.eqb_spec c ch.1) as [|Hct]; [done|].
  split; [|split]; cbn [fst snd].
  - right. lia.
  - intros p. rewrite last_snoc. by intros [= <-].
  - apply neighbours_differ_snoc; [done|]. intros p Hp. simpl.
    rewrite (Hlast p Hp). intros Heq. apply Hct. symmetry.
    destruct Htr as [Hnil|Htr]; [by rewrite Hnil in Hp|].
    apply getAttributeColorCode_inj; [lia|lia|done].
Qed.

Lemma tracked_inv_fold rowColors xs :
  Forall (λ c, 0 <= c < 8) rowColors →
  tracked_inv (fold_left (change_step rowColors) xs (-1, [])).
Proof.
  intros Hrange.
  assert (Hgen : ∀ ch, tracked_inv ch →
            tracked_inv (fold_left (change_step rowColors) xs ch)).
  { induction xs as [|x xs IH]; intros ch Hch; [done|].
    simpl. by apply IH, tracked_inv_step. }
  apply Hgen. split; [by left|]. split; [done|]. by intros i p q ?.
Qed.

Lemma change_fold_length rowColors xs ch :
  (length ch.2
   ≤ length (fold_left (change_step rowColors) xs ch).2
   ≤ length ch.2 + length xs)%nat.
Proof.
  revert ch. induction xs as [|x xs IH]; intros ch; simpl; [lia|].
  specialize (IH (change_step rowColors ch x)).
  assert (length ch.2 ≤ length (change_step rowColors ch x).2 ≤ S (length ch.2))%nat.
  { unfold change_step. destruct (rowColors !! x) as [c|]; [|lia].
    destruct (c =? 0); [lia|]. destruct (c =? ch.1); [lia|].
    cbn [snd]. rewrite length_app. simpl. lia. }
  lia.
Qed.

(** X11: a line of the colour table has no redundant pair and no empty
    one. For a row of palette indices 0..7, neighbouring pairs of its line
    carry different attributes; for every row, the count is at least 1 and
    at most the number of blocks after the leading white run (or 1, for the
    fallback line). *)
Theorem line_is_minimal rowColors :
  colorAttributeLine rowColors
  = attr_text (length (line_pairs rowColors)) (line_pairs rowColors)
  ∧ (Forall (λ c, 0 <= c < 8) rowColors → neighbours_differ (line_pairs rowColors))
  ∧ (1 ≤ length (line_pairs rowColors)
     ≤ 1 `max` (length rowColors - leading_white rowColors))%nat.
Proof.
  split; [apply colorAttributeLine_text|]. split.
  - intros Hrange. unfold line_pairs, or_fallback.
    destruct (row_changes rowColors) as [|p ps] eqn:E.
    + intros [|i] p q; [done|]. by intros [= <-].
    + rewrite <-E. unfold row_changes. by apply tracked_inv_fold.
  - unfold line_pairs, or_fallback.
    pose proof (change_fold_length rowColors
                  (seq (leading_white rowColors)
                       (length rowColors - leading_white rowColors)) (-1, [])) as Hlen.
    rewrite length_seq in Hlen. simpl in Hlen. fold (row_changes rowColors) in Hlen.
    destruct (row_changes rowColors) as [|p ps]; simpl in *; lia.
Qed.

Lemma line_is_minimal_witness : neighbours_differ (line_pairs ROW_BWWRRBWBWBWW).
Proof.
  apply (proj1 (proj2 (line_is_minimal ROW_BWWRRBWBWBWW))).
  repeat constructor; discriminate.
Defined.

(** *** Grids with missing blocks *)

Lemma semiGraphicRow_is_Some semiData y :
  is_Some (semiGraphicRow semiData y)
  ↔ ∀ x, (x < width semiData)%nat → is_Some (block_at semiData y x).
Proof.
  unfold semiGraphicRow.
  set (f := λ x, block ← block_at semiData y x; Some (hex_literal (pattern block))).
  assert (Hf : ∀ x, is_Some (f x) ↔ is_Some (block_at semiData y x)).
  { intros x. unfold f. destruct (block_at semiData y x); simpl; [|done].
    split; eauto. }
  split.
  - intros [ls Hls] x Hx. apply bind_Some in Hls as (bytes & Hbytes & _).
    assert (Hall : Forall (is_Some ∘ f) (seq 0 (width semiData))).
    { apply mapM_is_Some. by exists bytes. }
    apply Hf. rewrite Forall_forall in Hall. apply (Hall x), elem_of_seq. lia.
  - intros Hall.
    destruct (proj2 (mapM_is_Some f (seq 0 (width semiData)))) as [bytes Hbytes].
    { apply Forall_forall. intros x Hx%elem_of_seq. apply Hf, Hall. lia. }
    rewrite Hbytes. simpl. eauto.
Qed.

Lemma colorAttributeRow_is_Some semiData y :
  is_Some (colorAttributeRow semiData y)
  ↔ ∀ x, (x < width semiData)%nat → is_Some (block_at semiData y x).
Proof.
  unfold colorAttributeRow.
  set (f := λ x, colorCode <$> block_at semiData y x).
  assert (Hf : ∀ x, is_Some (f x) ↔ is_Some (block_at semiData y x)).
  { intros x. unfold f. by rewrite fmap_is_Some. }
  split.
  - intros [ls Hls] x Hx. apply bind_Some in Hls as (codes & Hcodes & _).
    assert (Hall : Forall (is_Some ∘ f) (seq 0 (width semiData))).
    { apply mapM_is_Some. by exists codes. }
    apply Hf. rewrite Forall_forall in Hall. apply (Hall x), elem_of_seq. lia.
  - intros Hall.
    destruct (proj2 (mapM_is_Some f (seq 0 (width semiData)))) as [codes Hcodes].
    { apply Forall_forall. intros x Hx%elem_of_seq. apply Hf, Hall. lia. }
    rewrite Hcodes. simpl. eauto.
Qed.

Lemma rows_is_Some {A} (f : nat → option A) (P : nat → Prop) n :
  (∀ y, is_Some (f y) ↔ P y) →
  is_Some (mapM f (seq 0 n)) ↔ ∀ y, (y < n)%nat → P y.
Proof.
  intros Hf. rewrite mapM_is_Some, Forall_forall. split.
  - intros Hall y Hy. apply Hf, (Hall y), elem_of_seq. lia.
  - intros Hall y Hy%elem_of_seq. apply Hf, Hall. lia.
Qed.

(** X12: the two table generators fail (with the [TypeError] of a field
    read on [undefined]) exactly when the grid lacks a block at some row
    below its height and column below its width; blocks beyond the width or
    the height are never read. *)
Theorem tables_fail_on_missing_block semiData labelPrefix :
  (is_Some (generateSemiGraphicDB semiData labelPrefix)
   ↔ ∀ y x, (y < height semiData)%nat → (x < width semiData)%nat →
       is_Some (block_at semiData y x))
  ∧ (is_Some (generateColorAttributeDB semiData labelPrefix)
     ↔ ∀ y x, (y < height semiData)%nat → (x < width semiData)%nat →
         is_Some (block_at semiData y x)).
Proof.
  split.
  - unfold generateSemiGraphicDB.
    trans (is_Some (mapM (semiGraphicRow semiData) (seq 0 (height semiData)))).
    { destruct (mapM _ _); simpl; split; eauto; by intros [? ?]. }
    rewrite (rows_is_Some (semiGraphicRow semiData)
               (λ y, ∀ x, (x < width semiData)%nat → is_Some (block_at semiData y x)))
      by apply semiGraphicRow_is_Some.
    split; intros H y x; [intros Hy Hx; by apply H|intros Hx; by apply H].
  - unfold generateColorAttributeDB.
    trans (is_Some (mapM (colorAttributeRow semiData) (seq 0 (height semiData)))).
    { destruct (mapM _ _); simpl; split; eauto; by intros [? ?]. }
    rewrite (rows_is_Some (colorAttributeRow semiData)
               (λ y, ∀ x, (x < width semiData)%nat → is_Some (block_at semiData y x)))
      by apply colorAttributeRow_is_Some.
    split; intros H y x; [intros Hy Hx; by apply H|intros Hx; by apply H].
Qed.

Lemma tables_fail_on_missing_block_witness :
  generateColorAttributeDB (mkSemi 3 1 [[mkBlock 0 0]]) "T" = None.
Proof.
  destruct (generateColorAttributeDB (mkSemi 3 1 [[mkBlock 0 0]]) "T")
    as [lines|] eqn:E; [|reflexivity].
  destruct (proj1 (proj2 (tables_fail_on_missing_block
                            (mkSemi 3 1 [[mkBlock 0 0]]) "T"))
              (ex_intro _ lines E) 0%nat 1%nat) as [block Hblock].
  - simpl. lia.
  - simpl. lia.
  - discriminate Hblock.
Defined.

(** *** Statistics *)

Lemma tally_get k colors f :
  freq_get k (tally colors f) = (votes_for k colors + freq_get k f)%nat.
Proof.
  revert f. induction colors as [|c colors IH]; intros f; [done|].
  unfold tally in *. cbn [fold_left]. rewrite IH, freq_get_incr, votes_for_cons.
  repeat case_decide; subst; try done; lia.
Qed.

Lemma tally_ok colors f :
  Forall (λ c, is_array_index c = true) colors → freq_ok f → freq_ok (tally colors f).
Proof.
  intros Hc. revert f. induction Hc as [|c colors Hc _ IH]; intros f Hf; [done|].
  unfold tally in *. cbn [fold_left]. by apply IH, freq_incr_ok.
Qed.

Lemma freq_incr_sum c f :
  sum_list (map snd (freq_incr c f)) = S (sum_list (map snd f)).
Proof.
  induction f as [|[k n] f IH]; [done|]. simpl.
  destruct (c =? k); [done|].
  destruct (is_array_index c && _); simpl; [done|]. rewrite IH. lia.
Qed.

Lemma tally_sum colors f :
  sum_list (map snd (tally colors f)) = (length colors + sum_list (map snd f))%nat.
Proof.
  revert f. induction colors as [|c colors IH]; intros f; [done|].
  unfold tally in *. cbn [fold_left]. rewrite IH, freq_incr_sum. simpl. lia.
Qed.

Lemma tally_app colors1 colors2 f :
  tally (colors1 ++ colors2) f = tally colors2 (tally colors1 f).
Proof. unfold tally. by rewrite fold_left_app. Qed.

Lemma lit_blocks_app l1 l2 : lit_blocks (l1 ++ l2) = (lit_blocks l1 + lit_blocks l2)%nat.
Proof. unfold lit_blocks. by rewrite filter_app, length_app. Qed.

Lemma lit_blocks_le l : (lit_blocks l ≤ length l)%nat.
Proof. apply length_filter. Qed.

(** The inner loop on a row that is there, from any column on. *)
Lemma stats_row_from semiData y row s f n :
  blocks semiData !! y = Some row →
  fold_left (stats_step semiData y) (seq s (length row - s)) (Some (f, n))
  = Some (tally (map colorCode (drop s row)) f, (n + lit_blocks (drop s row))%nat).
Proof.
  intros Hrow.
  remember (length row - s)%nat as k eqn:Hk.
  revert s f n Hk. induction k as [|k IH]; intros s f n Hk.
  - rewrite drop_ge by lia. simpl. f_equal. f_equal. unfold lit_blocks. simpl. lia.
  - destruct (lookup_lt_is_Some_2 row s) as [block Hblock]; [lia|].
    rewrite (drop_S _ _ _ Hblock). cbn [seq fold_left map].
    unfold stats_step at 2. cbn [mbind option_bind]. rewrite Hrow. cbn [mbind option_bind].
    rewrite Hblock. cbn [mbind option_bind].
    rewrite IH by lia. f_equal. f_equal.
    unfold lit_blocks. rewrite filter_cons.
    destruct (Z.ltb_spec 0 (pattern block)); case_decide; try lia; simpl; lia.
Qed.

Lemma stats_rows semiData s f n :
  wf_grid semiData →
  fold_left (λ st y, fold_left (stats_step semiData y) (seq 0 (width semiData)) st)
            (seq s (height semiData - s)) (Some (f, n))
  = Some (tally (map colorCode (concat (drop s (blocks semiData)))) f,
          (n + lit_blocks (concat (drop s (blocks semiData))))%nat).
Proof.
  intros Hwf. pose proof Hwf as [Hlen Hrows].
  remember (height semiData - s)%nat as k eqn:Hk.
  revert s f n Hk. induction k as [|k IH]; intros s f n Hk.
  - rewrite drop_ge by lia. simpl. f_equal. f_equal. unfold lit_blocks. simpl. lia.
  - destruct (lookup_lt_is_Some_2 (blocks semiData) s) as [row Hrow]; [lia|].
    rewrite (drop_S _ _ _ Hrow). cbn [seq fold_left concat].
    pose proof (wf_grid_row _ _ _ Hwf Hrow) as Hw.
    pose proof (stats_row_from semiData s row 0 f n Hrow) as Hinner.
    rewrite Nat.sub_0_r, Hw, drop_0 in Hinner. rewrite Hinner.
    rewrite IH by lia. rewrite map_app, tally_app, lit_blocks_app.
    f_equal. f_equal. lia.
Qed.

Lemma getStatistics_wf semiData :
  wf_grid semiData →
  getStatistics semiData
  = Some (mkStatistics (width semiData * height semiData)
            (JS.sort_default (map fst (tally (map colorCode (all_blocks semiData)) [])))
            (tally (map colorCode (all_blocks semiData)) [])
            (lit_blocks (all_blocks semiData))).
Proof.
  intros Hwf. unfold getStatistics.
  pose proof (stats_rows semiData 0 [] 0 Hwf) as H.
  rewrite Nat.sub_0_r, drop_0 in H. rewrite H. reflexivity.
Qed.

Lemma all_blocks_length semiData :
  wf_grid semiData → length (all_blocks semiData) = (width semiData * height semiData)%nat.
Proof.
  intros [Hlen Hrows]. unfold all_blocks.
  rewrite (concat_uniform_length _ _ Hrows). lia.
Qed.

Lemma elem_of_concat {A} (a : A) (ls : list (list A)) :
  a ∈ concat ls → ∃ l, a ∈ l ∧ l ∈ ls.
Proof.
  induction ls as [|l ls IH]; simpl; [by intros ?%elem_of_nil|].
  intros [Hin|Hin]%elem_of_app.
  - exists l. split; [done|by left].
  - destruct (IH Hin) as (l' & Ha & Hl). exists l'. split; [done|by right].
Qed.

(** Single digits are ordered as numbers by the default sort. *)
Lemma digit_ltb v w :
  0 <= v < 8 → 0 <= w < 8 → String.ltb (JS.str_of_Z v) (JS.str_of_Z w) = (v <? w).
Proof.
  intros Hv Hw.
  assert (Hcases : ∀ c, 0 <= c < 8 →
            c = 0 ∨ c = 1 ∨ c = 2 ∨ c = 3 ∨ c = 4 ∨ c = 5 ∨ c = 6 ∨ c = 7) by lia.
  destruct (Hcases v Hv) as [->|[->|[->|[->|[->|[->|[->| ->]]]]]]];
    destruct (Hcases w Hw) as [->|[->|[->|[->|[->|[->|[->| ->]]]]]]];
    vm_compute; reflexivity.
Qed.

Lemma sort_insert_last v sorted :
  0 <= v < 8 → Forall (λ w, 0 <= w < 8 ∧ w < v) sorted →
  JS.sort_insert v sorted = sorted ++ [v].
Proof.
  intros Hv. induction 1 as [|w sorted [Hw Hlt] _ IH]; [done|].
  simpl. rewrite digit_ltb by done.
  destruct (Z.ltb_spec v w); [lia|]. by rewrite IH.
Qed.

Lemma sort_default_from l acc :
  StronglySorted Z.lt (acc ++ l) → Forall (λ w, 0 <= w < 8) (acc ++ l) →
  fold_left (λ sorted v, JS.sort_insert v sorted) l acc = acc ++ l.
Proof.
  revert acc. induction l as [|v l IH]; intros acc Hs Hr; [by rewrite app_nil_r|].
  cbn [fold_left]. rewrite sort_insert_last.
  - rewrite IH; rewrite <-?app_assoc; done.
  - rewrite Forall_app, Forall_cons in Hr. tauto.
  - apply Forall_forall. intros w Hw. split.
    + rewrite Forall_forall in Hr. apply Hr. apply elem_of_app. by left.
    + apply (StronglySorted_app_1_elem_of Z.lt acc (v :: l)); [done|done|by left].
Qed.

Lemma sort_default_sorted l :
  StronglySorted Z.lt l → Forall (λ w, 0 <= w < 8) l → JS.sort_default l = l.
Proof. intros Hs Hr. unfold JS.sort_default. by rewrite (sort_default_from l []). Qed.

Lemma freq_ok_keys f :
  freq_ok f → StronglySorted Z.lt (map fst f).
Proof.
  intros [Hs _]. induction Hs as [|e f Hs IH Hall]; [constructor|].
  simpl. constructor; [done|]. by apply Forall_fmap.
Qed.

Lemma tally_keys k colors :
  k ∈ map fst (tally colors []) ↔ k ∈ colors.
Proof.
  rewrite (votes_for_pos k colors).
  pose proof (tally_get k colors []) as Hget.
  change (freq_get k []) with 0%nat in Hget. rewrite Nat.add_0_r in Hget.
  rewrite <-Hget. split.
  - intros Hin. apply list_elem_of_fmap in Hin as ([k' n] & -> & Hin). simpl.
    destruct (decide (0 < freq_get k' (tally colors []))%nat) as [|Hz]; [done|].
    exfalso. simpl in Hget. assert (Hv : votes_for k' colors = 0%nat) by lia.
    clear Hz Hget.
    assert (Hgen : ∀ f, k' ∉ map fst f → k' ∉ colors → k' ∉ map fst (tally colors f)).
    { clear. induction colors as [|c colors IH]; intros f Hf Hc; [done|].
      apply not_elem_of_cons in Hc as [Hne Hc].
      unfold tally in *. cbn [fold_left]. apply IH; [|done].
      clear IH Hc.
      induction f as [|[k n] f IHf]; simpl.
      - apply not_elem_of_cons. split; [done|apply not_elem_of_nil].
      - simpl in Hf. apply not_elem_of_cons in Hf as [Hk Hf].
        destruct (c =? k); [by apply not_elem_of_cons|].
        destruct (is_array_index c && _); simpl.
        + apply not_elem_of_cons. split; [done|]. by apply not_elem_of_cons.
        + apply not_elem_of_cons. split; [done|]. by apply IHf. }
    apply (Hgen []); [apply not_elem_of_nil| |].
    + rewrite votes_for_pos. lia.
    + apply (list_elem_of_fmap_2 fst _ (k', n)). done.
  - intros Hpos. apply freq_get_pos in Hpos as [n Hin].
    by apply (list_elem_of_fmap_2 fst _ (k, n)).
Qed.

(** X13: on a rectangular grid [getStatistics] returns, and reports the
    product of the sizes as the total, for every colour code the number of
    blocks carrying it (the counts adding up to the total), and the number
    of blocks with a pattern above 0, which is at most the total; when the
    colour codes are palette indices 0..7, the used colours are the codes
    that occur, each once, in ascending order. *)
Theorem getStatistics_counts semiData :
  wf_grid semiData →
  ∃ stats,
    getStatistics semiData = Some stats
    ∧ totalBlocks stats = length (all_blocks semiData)
    ∧ totalBlocks stats = (width semiData * height semiData)%nat
    ∧ (∀ k, freq_get k (colorFrequency stats)
            = votes_for k (map colorCode (all_blocks semiData)))
    ∧ sum_list (map snd (colorFrequency stats)) = totalBlocks stats
    ∧ nonEmptyBlocks stats = lit_blocks (all_blocks semiData)
    ∧ (nonEmptyBlocks stats ≤ totalBlocks stats)%nat
    ∧ (Forall (λ block, 0 <= colorCode block < 8) (all_blocks semiData) →
         StronglySorted Z.lt (usedColors stats)
         ∧ ∀ k, k ∈ usedColors stats ↔ ∃ block, block ∈ all_blocks semiData
                                                 ∧ colorCode block = k).
Proof.
  intros Hwf. eexists. split; [by apply getStatistics_wf|].
  cbn [totalBlocks colorFrequency nonEmptyBlocks usedColors].
  pose proof (all_blocks_length semiData Hwf) as Hlen.
  split_and!.
  - done.
  - done.
  - intros k. rewrite tally_get. unfold freq_get. simpl. lia.
  - rewrite tally_sum, length_map. simpl. lia.
  - done.
  - rewrite <-Hlen. apply lit_blocks_le.
  - intros Hrange.
    assert (Hcodes : Forall (λ c, 0 <= c < 8) (map colorCode (all_blocks semiData))).
    { by apply Forall_fmap. }
    assert (Hok : freq_ok (tally (map colorCode (all_blocks semiData)) [])).
    { apply tally_ok; [|split; constructor].
      eapply Forall_impl; [exact Hcodes|]. intros c Hc. simpl in Hc.
      unfold is_array_index. apply andb_true_iff. split; [apply Z.leb_le|apply Z.ltb_lt]; lia. }
    assert (Hkeys : Forall (λ w, 0 <= w < 8)
                      (map fst (tally (map colorCode (all_blocks semiData)) []))).
    { apply Forall_forall. intros k Hk. apply (proj1 (tally_keys k _)) in Hk.
      rewrite Forall_forall in Hcodes. apply (Hcodes k Hk). }
    rewrite sort_default_sorted; [|by apply freq_ok_keys|done].
    split; [by apply freq_ok_keys|].
    intros k. rewrite tally_keys. split.
    + intros Hin. apply list_elem_of_fmap in Hin as (block & -> & Hin). eauto.
    + intros (block & Hin & <-). apply (list_elem_of_fmap_2 colorCode _ block Hin).
Qed.

Lemma getStatistics_counts_witness :
  ∃ stats, getStatistics (mkSemi 2 2 [[mkBlock 0xFF 7; mkBlock 0 0];
                                      [mkBlock 0x0F 2; mkBlock 0xF0 7]]) = Some stats
           ∧ usedColors stats = [0; 2; 7] ∧ nonEmptyBlocks stats = 3%nat.
Proof.
  destruct (getStatistics_counts
              (mkSemi 2 2 [[mkBlock 0xFF 7; mkBlock 0 0];
                           [mkBlock 0x0F 2; mkBlock 0xF0 7]])) as (stats & Hs & _).
  - split; [reflexivity|]. repeat constructor.
  - exists stats. split; [exact Hs|].
    vm_compute in Hs. injection Hs as <-. split; reflexivity.
Defined.

(** X14: the statistics of a converted image never fail, name only palette
    indices 0..7 as used colours, in ascending order, and, for the
    direct-buffer converter, count as non-empty exactly the blocks whose
    colour code is not black. *)
Theorem statistics_of_conversion imageData :
  ∃ stats,
    getStatistics (convertImageDataToSemiGraphic imageData) = Some stats
    ∧ StronglySorted Z.lt (usedColors stats)
    ∧ Forall (λ k, 0 <= k < 8) (usedColors stats)
    ∧ nonEmptyBlocks stats
      = (totalBlocks stats - freq_get 0 (colorFrequency stats))%nat.
Proof.
  set (semiData := convertImageDataToSemiGraphic imageData).
  pose proof (convertImageData_wf imageData) as Hwf. fold semiData in Hwf.
  assert (Hblocks : ∀ block, block ∈ all_blocks semiData →
            (0 <= pattern block < 256 ∧ 0 <= colorCode block < 8)
            ∧ (pattern block = 0 ↔ colorCode block = 0)).
  { intros block Hin. unfold all_blocks in Hin.
    apply elem_of_concat in Hin as (row & Hin & Hrow).
    apply list_elem_of_lookup in Hrow as [y Hy].
    apply list_elem_of_lookup in Hin as [x Hx].
    assert (Hat : block_at semiData y x = Some block).
    { unfold block_at. rewrite Hy. exact Hx. }
    apply convertImageData_block_inv in Hat as ->. split.
    - apply data_block_range.
    - apply data_block_empty. }
  rewrite (getStatistics_wf semiData Hwf). eexists. split; [reflexivity|].
  cbn [totalBlocks colorFrequency nonEmptyBlocks usedColors].
  assert (Hcodes : Forall (λ c, 0 <= c < 8) (map colorCode (all_blocks semiData))).
  { apply Forall_fmap, Forall_forall. intros block Hin. apply Hblocks, Hin. }
  assert (Hok : freq_ok (tally (map colorCode (all_blocks semiData)) [])).
  { apply tally_ok; [|split; constructor].
    eapply Forall_impl; [exact Hcodes|]. intros c Hc. simpl in Hc.
    unfold is_array_index. apply andb_true_iff. split; [apply Z.leb_le|apply Z.ltb_lt]; lia. }
  assert (Hkeys : Forall (λ w, 0 <= w < 8)
                    (map fst (tally (map colorCode (all_blocks semiData)) []))).
  { apply Forall_forall. intros k Hk. apply (proj1 (tally_keys k _)) in Hk.
    rewrite Forall_forall in Hcodes. apply (Hcodes k Hk). }
  rewrite sort_default_sorted; [|by apply freq_ok_keys|done].
  split; [by apply freq_ok_keys|]. split; [done|].
  rewrite tally_get. change (freq_get 0 []) with 0%nat. rewrite Nat.add_0_r.
  rewrite <-(all_blocks_length semiData Hwf).
  clear Hcodes Hok Hkeys.
  induction (all_blocks semiData) as [|block l IH]; [done|].
  unfold lit_blocks in *. rewrite filter_cons. simpl map. rewrite votes_for_cons.
  assert (Hl : ∀ block, block ∈ l → (0 <= pattern block < 256 ∧ 0 <= colorCode block < 8)
                                     ∧ (pattern block = 0 ↔ colorCode block = 0)).
  { intros b' Hb'. apply Hblocks. by right. }
  specialize (IH Hl).
  destruct (Hblocks block) as [[Hp Hc] Hiff]; [by left|].
  pose proof (length_filter (λ c, c = 0) (map colorCode l)) as Hle.
  rewrite length_map in Hle. unfold votes_for in *.
  repeat case_decide; simpl length; try lia.
Qed.

(** *** Unpacking a pixel *)

Lemma toInt32_toUint32 v : JS.toInt32 (JS.toUint32 v) = JS.toInt32 v.
Proof.
  unfold JS.toInt32, JS.toUint32. by rewrite Z.add_mod_idemp_l by lia.
Qed.

Lemma toUint32_idemp v : JS.toUint32 (JS.toUint32 v) = JS.toUint32 v.
Proof. unfold JS.toUint32. by rewrite Z.mod_mod by lia. Qed.

Lemma toUint32_small v : 0 <= v < 2 ^ 32 → JS.toUint32 v = v.
Proof. intros Hv. unfold JS.toUint32. by rewrite Z.mod_small. Qed.

(** After the mask [& 0xFF], the unsigned shift of the loader and the
    signed shift of the converter give the same byte. *)
Lemma shr_sar_byte color n :
  0 <= n <= 24 → JS.band (JS.shr color n) 255 = JS.band (JS.sar color n) 255.
Proof.
  intros Hn. rewrite !band_255. unfold JS.shr, JS.sar.
  rewrite !Z.shiftr_div_pow2 by lia.
  assert (Hu : 0 <= JS.toUint32 color < 2 ^ 32).
  { unfold JS.toUint32. apply Z.mod_pos_bound. lia. }
  assert (Hp : 0 < 2 ^ n) by (apply Z.pow_pos_nonneg; lia).
  assert (Hq : 0 <= JS.toUint32 color / 2 ^ n < 2 ^ 32).
  { split; [apply Z.div_pos; lia|].
    apply Z.div_lt_upper_bound; [lia|]. nia. }
  assert (Hs : JS.toInt32 (JS.toUint32 color / 2 ^ n) = JS.toUint32 color / 2 ^ n
               ∨ JS.toInt32 (JS.toUint32 color / 2 ^ n)
                 = JS.toUint32 color / 2 ^ n - 2 ^ 32).
  { unfold JS.toInt32. revert Hq. generalize (JS.toUint32 color / 2 ^ n). intros q Hq.
    change (2 ^ 31) with 2147483648 in *. change (2 ^ 32) with 4294967296 in *.
    Z.div_mod_to_equations. lia. }
  assert (Hi : -2 ^ 31 <= JS.toInt32 color < 2 ^ 31).
  { unfold JS.toInt32. pose proof (Z.mod_pos_bound (color + 2 ^ 31) (2 ^ 32)). lia. }
  assert (Hiq : -2 ^ 31 <= JS.toInt32 color / 2 ^ n < 2 ^ 31).
  { split.
    - apply Z.div_le_lower_bound; [lia|]. nia.
    - apply Z.div_lt_upper_bound; [lia|]. nia. }
  assert (Ht : JS.toInt32 (JS.toInt32 color / 2 ^ n) = JS.toInt32 color / 2 ^ n).
  { unfold JS.toInt32 at 1. revert Hiq. generalize (JS.toInt32 color / 2 ^ n).
    intros q Hq'.
    change (2 ^ 31) with 2147483648 in *. change (2 ^ 32) with 4294967296 in *.
    Z.div_mod_to_equations. lia. }
  rewrite Ht.
  assert (Hc : JS.toInt32 color = JS.toUint32 color
               ∨ JS.toInt32 color = JS.toUint32 color - 2 ^ 32).
  { unfold JS.toInt32, JS.toUint32.
    change (2 ^ 31) with 2147483648 in *. change (2 ^ 32) with 4294967296 in *.
    Z.div_mod_to_equations. lia. }
  assert (Hdiv : (JS.toUint32 color - 2 ^ 32) / 2 ^ n
                 = JS.toUint32 color / 2 ^ n - 2 ^ (32 - n)).
  { replace (JS.toUint32 color - 2 ^ 32)
      with (JS.toUint32 color + (- 2 ^ (32 - n)) * 2 ^ n).
    - rewrite Z.div_add by lia. lia.
    - rewrite Z.mul_opp_l, <-Z.pow_add_r by lia. by replace (32 - n + n) with 32 by lia. }
  assert (H256 : ∀ k, 8 <= k → ∃ m, 2 ^ k = m * 256).
  { intros k Hk. exists (2 ^ (k - 8)). change 256 with (2 ^ 8).
    rewrite <-Z.pow_add_r by lia. by replace (k - 8 + 8) with k by lia. }
  destruct (H256 32) as [m32 Hm32]; [lia|].
  destruct (H256 (32 - n)) as [mn Hmn]; [lia|].
  destruct Hs as [-> | ->], Hc as [-> | ->]; rewrite ?Hdiv, ?Hm32, ?Hmn;
    rewrite <-?Z.add_opp_r, <-?Z.mul_opp_l, ?Z.mod_add by lia;
    reflexivity.
Qed.

Lemma band_sar_0 color : JS.band (JS.sar color 0) 255 = JS.band color 255.
Proof.
  rewrite <-shr_sar_byte by lia. rewrite !band_255. unfold JS.shr.
  rewrite Z.shiftr_0_r. by rewrite toInt32_toUint32.
Qed.

Lemma pixel_bytes_jimp image x y :
  CliImageLoader.pixel_bytes image x y
  = let color := getPixelColor image x y in
    [ JS.band (JS.sar color 24) 255; JS.band (JS.sar color 16) 255;
      JS.band (JS.sar color 8) 255; JS.band color 255 ].
Proof. unfold CliImageLoader.pixel_bytes. cbv zeta. by rewrite !shr_sar_byte by lia. Qed.

Lemma band_byte v : 0 <= JS.band v 255 < 256.
Proof. rewrite band_255. apply Z.mod_pos_bound. lia. Qed.

Lemma pixel_bytes_range image x y :
  Forall (λ v, 0 <= v < 256) (CliImageLoader.pixel_bytes image x y).
Proof. unfold CliImageLoader.pixel_bytes. repeat constructor; apply band_byte. Qed.

(** *** The buffer of the loader *)

Lemma flat_map_concat {A B} (f : A → list B) l : flat_map f l = concat (map f l).
Proof. induction l as [|a l IH]; simpl; [done|]. by rewrite IH. Qed.

Lemma image_row_length image y :
  length (flat_map (λ x, CliImageLoader.pixel_bytes image x y)
                   (seq 0 (bitmap_width image)))
  = (bitmap_width image * 4)%nat.
Proof.
  rewrite flat_map_concat, (concat_uniform_length _ 4).
  - by rewrite length_map, length_seq.
  - apply Forall_fmap, Forall_forall. by intros x _.
Qed.

Lemma image_data_wf image : wf_image (CliImageLoader.image_data image).
Proof.
  split.
  - unfold CliImageLoader.image_data. cbn [id_data id_width id_height].
    rewrite flat_map_concat, (concat_uniform_length _ (bitmap_width image * 4)).
    + rewrite length_map, length_seq. rewrite Nat.mul_assoc. f_equal. apply Nat.mul_comm.
    + apply Forall_fmap, Forall_forall. intros y _. unfold compose.
      exact (image_row_length image y).
  - unfold CliImageLoader.image_data. cbn [id_data].
    apply Forall_flat_map, Forall_forall. intros y _.
    apply Forall_flat_map, Forall_forall. intros x _.
    apply pixel_bytes_range.
Qed.

Lemma image_data_channel image px py c :
  (px < bitmap_width image)%nat → (py < bitmap_height image)%nat → (c < 4)%nat →
  channel (CliImageLoader.image_data image) px py c
  = CliImageLoader.pixel_bytes image px py !! c.
Proof.
  intros Hx Hy Hc. unfold channel, CliImageLoader.image_data.
  cbn [id_data id_width].
  replace ((py * bitmap_width image + px) * 4 + c)%nat
    with (py * (bitmap_width image * 4) + (px * 4 + c))%nat by lia.
  rewrite flat_map_concat, (concat_uniform_lookup _ (bitmap_width image * 4)).
  - rewrite list_lookup_fmap, lookup_seq_lt by done. cbn [fmap option_fmap option_map mbind option_bind].
    rewrite flat_map_concat, (concat_uniform_lookup _ 4).
    + rewrite list_lookup_fmap, lookup_seq_lt by done. reflexivity.
    + apply Forall_fmap, Forall_forall. by intros x _.
    + done.
  - apply Forall_fmap, Forall_forall. intros y _. unfold compose.
    exact (image_row_length image y).
  - lia.
Qed.

Lemma pack_bytes u :
  0 <= u < 2 ^ 32 →
  rgba (JS.band (JS.sar u 24) 255) (JS.band (JS.sar u 16) 255)
       (JS.band (JS.sar u 8) 255) (JS.band u 255) = u.
Proof.
  intros Hu. rewrite <-!shr_sar_byte by lia. rewrite <-(band_sar_0 u).
  rewrite <-(shr_sar_byte u 0) by lia.
  rewrite !band_255. unfold JS.shr. rewrite (toUint32_small u) by done.
  rewrite !Z.shiftr_div_pow2 by lia.
  unfold rgba, JS.toInt32.
  change (2 ^ 31) with 2147483648 in *. change (2 ^ 32) with 4294967296 in *.
  change (2 ^ 24) with 16777216. change (2 ^ 16) with 65536. change (2 ^ 8) with 256.
  change (2 ^ 0) with 1.
  Z.div_mod_to_equations. lia.
Qed.

Lemma sar_toUint32 v n : JS.sar (JS.toUint32 v) n = JS.sar v n.
Proof. unfold JS.sar. by rewrite toInt32_toUint32. Qed.

Lemma band_toUint32 v m : JS.band (JS.toUint32 v) m = JS.band v m.
Proof. unfold JS.band. by rewrite toInt32_toUint32. Qed.

Lemma toUint32_range v : 0 <= JS.toUint32 v < 2 ^ 32.
Proof. unfold JS.toUint32. apply Z.mod_pos_bound. lia. Qed.

(** The bytes the loader stores for a pixel are the four base-256 digits
    of its colour, reduced to 32 bits. *)
Lemma pixel_bytes_digits image x y :
  ∃ r g b a,
    CliImageLoader.pixel_bytes image x y = [r; g; b; a]
    ∧ 0 <= r < 256 ∧ 0 <= g < 256 ∧ 0 <= b < 256 ∧ 0 <= a < 256
    ∧ JS.toUint32 (getPixelColor image x y) = rgba r g b a.
Proof.
  rewrite pixel_bytes_jimp. cbv zeta.
  set (color := getPixelColor image x y).
  exists (JS.band (JS.sar color 24) 255), (JS.band (JS.sar color 16) 255),
    (JS.band (JS.sar color 8) 255), (JS.band color 255).
  split; [done|]. do 4 (split; [apply band_byte|]).
  rewrite <-(pack_bytes (JS.toUint32 color)) at 1 by apply toUint32_range.
  by rewrite !sar_toUint32, !band_toUint32.
Qed.

Lemma image_data_pixels image :
  same_pixels (uint32_image image) (CliImageLoader.image_data image).
Proof.
  split; [done|]. split; [done|]. split; [apply image_data_wf|].
  intros px py Hx Hy. cbn [uint32_image getPixelColor jimp_of_data].
  cbn [CliImageLoader.image_data id_width id_height] in Hx, Hy.
  rewrite !image_data_channel by (done || lia).
  destruct (pixel_bytes_digits image px py) as (r & g & b & a & -> & _ & _ & _ & _ & ->).
  reflexivity.
Qed.

Lemma uint32_image_opaque image px py :
  jimp_opaque_at (uint32_image image) px py = jimp_opaque_at image px py.
Proof.
  unfold jimp_opaque_at, jimp_alpha. cbn [uint32_image bitmap_width bitmap_height getPixelColor].
  by rewrite band_toUint32.
Qed.

Lemma uint32_image_nearest image px py :
  jimp_nearest (uint32_image image) px py = jimp_nearest image px py.
Proof.
  unfold jimp_nearest. cbn [uint32_image getPixelColor]. cbv zeta.
  by rewrite !sar_toUint32.
Qed.

Lemma uint32_image_block image x y :
  generateSemiGraphicBlockFromJimp x y (uint32_image image)
    (bitmap_width image) (bitmap_height image)
  = generateSemiGraphicBlockFromJimp x y image (bitmap_width image) (bitmap_height image).
Proof.
  rewrite (jimp_block_eq x y image).
  change (generateSemiGraphicBlockFromJimp x y (uint32_image image)
            (bitmap_width image) (bitmap_height image))
    with (generateSemiGraphicBlockFromJimp x y (uint32_image image)
            (bitmap_width (uint32_image image)) (bitmap_height (uint32_image image))).
  rewrite (jimp_block_eq x y (uint32_image image)). f_equal.
  - apply pattern_of_ext. intros dx dy _ _. apply uint32_image_opaque.
  - f_equal. unfold jimp_votes. apply flat_map_ext. intros d.
    by rewrite uint32_image_opaque, uint32_image_nearest.
Qed.

Lemma uint32_image_grid image :
  convertJimpToSemiGraphic (uint32_image image) = convertJimpToSemiGraphic image.
Proof.
  unfold convertJimpToSemiGraphic. cbn [uint32_image bitmap_width bitmap_height].
  f_equal. apply map_ext. intros y. apply map_ext. intros x.
  apply uint32_image_block.
Qed.

(** X15: [loadImage] answers [null] exactly for a missing file or a failed
    decode. Otherwise its buffer has the size of the image and holds, for
    every pixel, the four base-256 digits of the 32-bit colour, red first;
    converting that buffer gives a grid of the size, and with the colour
    codes, of the grid [convertImageFile] gives for the same path, and the
    two patterns differ only in the bits of opaque pixels nearest to
    black. *)
Theorem loaded_image_converts (existsSync : string → bool)
    (read : string → option JimpImage) (imagePath : string) :
  (CliImageLoader.loadImage existsSync read imagePath = None
   ↔ existsSync imagePath = false ∨ read imagePath = None)
  ∧ ∀ imageData,
      CliImageLoader.loadImage existsSync read imagePath = Some imageData →
      ∃ image viaFile,
        read imagePath = Some image
        ∧ id_width imageData = bitmap_width image
        ∧ id_height imageData = bitmap_height image
        ∧ wf_image imageData
        ∧ (∀ px py, (px < bitmap_width image)%nat → (py < bitmap_height image)%nat →
             ∃ r g b a,
               channel imageData px py 0 = Some r ∧ channel imageData px py 1 = Some g
               ∧ channel imageData px py 2 = Some b ∧ channel imageData px py 3 = Some a
               ∧ JS.toUint32 (getPixelColor image px py) = rgba r g b a)
        ∧ convertImageFile read imagePath = Some viaFile
        ∧ width viaFile = width (convertImageDataToSemiGraphic imageData)
        ∧ height viaFile = height (convertImageDataToSemiGraphic imageData)
        ∧ (∀ y x, colorCode_at viaFile y x
                  = colorCode_at (convertImageDataToSemiGraphic imageData) y x)
        ∧ (∀ y x, (y < height viaFile)%nat → (x < width viaFile)%nat →
             ∃ blockFile blockBuffer,
               block_at viaFile y x = Some blockFile
               ∧ block_at (convertImageDataToSemiGraphic imageData) y x
                 = Some blockBuffer
               ∧ ∀ dx dy, (dx < 2)%nat → (dy < 4)%nat →
                   (Z.testbit (pattern blockFile) (dot_bit dx dy) = true
                    ↔ opaque_pixel imageData (x * 2 + dx) (y * 4 + dy))
                   ∧ (Z.testbit (pattern blockBuffer) (dot_bit dx dy) = true
                      ↔ opaque_pixel imageData (x * 2 + dx) (y * 4 + dy)
                        ∧ ¬ black_pixel imageData (x * 2 + dx) (y * 4 + dy))).
Proof.
  unfold CliImageLoader.loadImage. split.
  - destruct (existsSync imagePath); simpl.
    + destruct (read imagePath); simpl.
      * split; [done|]. by intros [?|?].
      * split; [by right|done].
    + split; [by left|done].
  - intros imageData Hload.
    destruct (existsSync imagePath); simpl in Hload; [|done].
    destruct (read imagePath) as [image|] eqn:Hread; simpl in Hload; [|done].
    injection Hload as <-.
    pose proof (image_data_pixels image) as Hsame.
    exists image, (convertJimpToSemiGraphic image).
    split; [done|]. split; [done|]. split; [done|].
    split; [apply image_data_wf|].
    split.
    { intros px py Hx Hy.
      destruct (pixel_bytes_digits image px py)
        as (r & g & b & a & Hbytes & _ & _ & _ & _ & Hcolor).
      exists r, g, b, a. rewrite !image_data_channel by (done || lia).
      by rewrite Hbytes. }
    split; [unfold convertImageFile; by rewrite Hread|].
    split; [done|]. split; [done|].
    split.
    { intros y x. rewrite <-uint32_image_grid. by apply same_pixels_colorCode_at. }
    intros y x Hy Hx.
    exists (generateSemiGraphicBlockFromJimp x y image (bitmap_width image)
              (bitmap_height image)),
      (data_block x y (CliImageLoader.image_data image)).
    split; [by apply block_at_jimp|].
    split; [by apply block_at_data|].
    intros dx dy Hdx Hdy. split.
    + rewrite <-uint32_image_block.
      exact (jimp_block_bits (uint32_image image) _ x y dx dy Hsame Hdx Hdy).
    + apply data_block_bits; [apply image_data_wf|done|done].
Qed.

Lemma loaded_image_converts_witness :
  ∃ image viaFile,
    read_only "spot.png" (jimp_of_data spot_image) "spot.png" = Some image
    ∧ convertImageFile (read_only "spot.png" (jimp_of_data spot_image)) "spot.png"
      = Some viaFile
    ∧ colorCode_at viaFile 0 0 = Some 7.
Proof.
  destruct (proj2 (loaded_image_converts (λ _, true)
                     (read_only "spot.png" (jimp_of_data spot_image)) "spot.png")
              (CliImageLoader.image_data (jimp_of_data spot_image)))
    as (image & viaFile & Hread & _ & _ & _ & _ & Hfile & _ & _ & Hcode & _).
  - reflexivity.
  - exists image, viaFile. split; [exact Hread|]. split; [exact Hfile|].
    rewrite Hcode. vm_compute. reflexivity.
Defined.

(** *** The generated file *)

Lemma semi_table_length semiData labelPrefix :
  wf_grid semiData →
  ∃ semiLines,
    generateSemiGraphicDB semiData labelPrefix = Some semiLines
    ∧ semiLines !! 1%nat = Some (labelPrefix +:+ ":")
    ∧ length semiLines
      = (2 + height semiData * JS.ceil_div (width semiData) 16)%nat.
Proof.
  intros Hwf. eexists. split; [by apply generateSemiGraphicDB_lines|].
  split; [done|]. pose proof Hwf as [Hh Hrows].
  rewrite length_app. cbn [length semi_header].
  rewrite (concat_uniform_length _ (JS.ceil_div (width semiData) 16)).
  - rewrite length_map, Hh. lia.
  - apply Forall_fmap. eapply Forall_impl; [exact Hrows|].
    intros row Hrow. simpl. by rewrite row_chunks_length, Hrow.
Qed.

Lemma attr_table_length semiData labelPrefix :
  wf_grid semiData →
  ∃ colorLines,
    generateColorAttributeDB semiData labelPrefix = Some colorLines
    ∧ colorLines !! 1%nat = Some (labelPrefix +:+ ":")
    ∧ length colorLines = (2 + height semiData)%nat.
Proof.
  intros Hwf. eexists. split; [by apply generateColorAttributeDB_lines|].
  split; [done|]. rewrite length_app, length_map. cbn [length attr_header].
  destruct Hwf as [-> _]. lia.
Qed.

Lemma image_section_mock parseInt typeErrorMessage i image imageData :
  imageElement image = Some (MockImageElement imageData) →
  let semiData := convertImageDataToSemiGraphic imageData in
  let number := imageNumber parseInt (image_id image) in
  ∃ semiLines colorLines comments,
    generateSemiGraphicDB semiData ("Image_" +:+ number) = Some semiLines
    ∧ generateColorAttributeDB semiData ("Attr_" +:+ number) = Some colorLines
    ∧ image_section parseInt typeErrorMessage i image
      = take 2 (image_section parseInt typeErrorMessage i image)
        ++ semiLines ++ [EmptyString] ++ colorLines ++ [EmptyString] ++ comments
    ∧ semiLines !! 1%nat = Some ("Image_" +:+ number +:+ ":")
    ∧ colorLines !! 1%nat = Some ("Attr_" +:+ number +:+ ":")
    ∧ length semiLines
      = (2 + height semiData * JS.ceil_div (width semiData) 16)%nat
    ∧ length colorLines = (2 + height semiData)%nat
    ∧ length comments = 2%nat
    ∧ length (image_section parseInt typeErrorMessage i image)
      = (10 + height semiData * (1 + JS.ceil_div (width semiData) 16))%nat.
Proof.
  intros Helem semiData number.
  pose proof (convertImageData_wf imageData) as Hwf. fold semiData in Hwf.
  destruct (semi_table_length semiData ("Image_" +:+ number) Hwf)
    as (semiLines & Hsemi & Hlabel & Hlen).
  destruct (attr_table_length semiData ("Attr_" +:+ number) Hwf)
    as (colorLines & Hcolor & Hlabel' & Hlen').
  exists semiLines, colorLines. eexists.
  split; [done|]. split; [done|].
  unfold image_section. rewrite Helem. cbn [take app].
  unfold image_tables. cbn [convertImageToSemiGraphic].
  fold semiData. fold number. rewrite Hsemi, Hcolor.
  split; [reflexivity|].
  split; [by rewrite Hlabel, str_app_assoc|].
  split; [by rewrite Hlabel', str_app_assoc|].
  split; [done|]. split; [done|]. split; [done|].
  cbn [length]. rewrite !length_app, Hlen, Hlen'. cbn [length]. lia.
Qed.

(** X16: an image whose element gives its pixels is always exported with
    both tables, never with the error line: after the two lines that name
    it come the pattern table under the label [Image_] and its number, an
    empty line, the colour table under [Attr_] and the same number, an empty
    line and two size comments, 10 + height * (1 + ceil(width / 16)) lines
    in all for a grid of that width and height. A browser image element
    gives the line of the conversion error instead, and an image without
    element the line saying so. *)
Theorem image_section_tables (parseInt : string → option Z)
    (typeErrorMessage : string) (i : nat) (image : ImageResource) :
  (∀ imageData,
      imageElement image = Some (MockImageElement imageData) →
      let semiData := convertImageDataToSemiGraphic imageData in
      let number := imageNumber parseInt (image_id image) in
      ∃ semiLines colorLines comments,
        generateSemiGraphicDB semiData ("Image_" +:+ number) = Some semiLines
        ∧ generateColorAttributeDB semiData ("Attr_" +:+ number) = Some colorLines
        ∧ image_section parseInt typeErrorMessage i image
          = take 2 (image_section parseInt typeErrorMessage i image)
            ++ semiLines ++ [EmptyString] ++ colorLines ++ [EmptyString] ++ comments
        ∧ semiLines !! 1%nat = Some ("Image_" +:+ number +:+ ":")
        ∧ colorLines !! 1%nat = Some ("Attr_" +:+ number +:+ ":")
        ∧ length semiLines
          = (2 + height semiData * JS.ceil_div (width semiData) 16)%nat
        ∧ length colorLines = (2 + height semiData)%nat
        ∧ length comments = 2%nat
        ∧ length (image_section parseInt typeErrorMessage i image)
          = (10 + height semiData * (1 + JS.ceil_div (width semiData) 16))%nat)
  ∧ (imageElement image = Some HTMLImageElement →
     length (image_section parseInt typeErrorMessage i image) = 3%nat
     ∧ ∃ message,
         last (image_section parseInt typeErrorMessage i image)
         = Some ("; Error converting image " +:+ JS.str_of_nat i +:+ ": " +:+ message))
  ∧ (imageElement image = None →
     image_section parseInt typeErrorMessage i image
     = take 2 (image_section parseInt typeErrorMessage i image)
       ++ ["; Image element not loaded for: " +:+ image_filename image]).
Proof.
  split; [|split].
  - intros imageData Helem. by apply image_section_mock.
  - intros Helem. unfold image_section. rewrite Helem. split; [done|].
    eexists. reflexivity.
  - intros Helem. unfold image_section. by rewrite Helem.
Qed.

Lemma image_section_tables_witness :
  length (image_section (λ _, Some 1) "TypeError" 0
            (mkImageResource "1" "spot.png" 2 4 (Some (MockImageElement spot_image))))
  = 12%nat.
Proof.
  destruct (proj1 (image_section_tables (λ _, Some 1) "TypeError" 0
                     (mkImageResource "1" "spot.png" 2 4
                        (Some (MockImageElement spot_image))))
              spot_image) as (semiLines & colorLines & comments & _ & _ & _ & _ & _
                              & _ & _ & _ & Hlen).
  - reflexivity.
  - exact Hlen.
Defined.

Lemma frame_lines_length parseInt j frame :
  length (frame_lines parseInt j frame) = 4%nat.
Proof. reflexivity. Qed.

(** X17: a sequence is exported as four heading lines, four lines for each
    frame and the end marker, and the [dw] line of every frame names the
    label [Image_] with the number made from the frame's image id: the
    label under which the pattern table of the image with that id is
    exported. *)
Theorem sequence_frames_name_images (parseInt : string → option Z)
    (typeErrorMessage : string) (sequence : AnimationSequence) :
  length (sequence_section parseInt sequence)
  = (5 + 4 * length (sequence_frames sequence))%nat
  ∧ last (sequence_section parseInt sequence)
    = Some (String tab ("dw" +:+ String tab "0            ; 終了"))
  ∧ ∀ j frame,
      sequence_frames sequence !! j = Some frame →
      sequence_section parseInt sequence !! (4 + 4 * j + 1)%nat
      = Some (String tab ("dw" +:+ String tab
                ("Image_" +:+ imageNumber parseInt (frame_imageId frame)
                 +:+ "    ; キャラクタデータアドレス")))
      ∧ ∀ i image imageData,
          image_id image = frame_imageId frame →
          imageElement image = Some (MockImageElement imageData) →
          image_section parseInt typeErrorMessage i image !! 3%nat
          = Some ("Image_" +:+ imageNumber parseInt (frame_imageId frame) +:+ ":").
Proof.
  assert (Hframes : Forall (λ l : list string, length l = 4%nat)
                      (imap (frame_lines parseInt) (sequence_frames sequence))).
  { apply Forall_forall. intros l Hl.
    apply elem_of_lookup_imap_1 in Hl as (j & frame & -> & _). reflexivity. }
  split; [|split].
  - unfold sequence_section. rewrite !length_app.
    rewrite (concat_uniform_length _ 4 Hframes), length_imap. simpl. lia.
  - unfold sequence_section. rewrite app_assoc. by rewrite last_snoc.
  - intros j frame Hframe. split.
    + unfold sequence_section.
      change (4 + 4 * j + 1)%nat with (4 + (4 * j + 1))%nat.
      rewrite lookup_app_r by (simpl; lia). cbn [length].
      replace (4 + (4 * j + 1) - 4)%nat with (j * 4 + 1)%nat by lia.
      rewrite lookup_app_l.
      2:{ rewrite (concat_uniform_length _ 4 Hframes), length_imap.
          apply lookup_lt_Some in Hframe. lia. }
      rewrite (concat_uniform_lookup _ 4 j 1 Hframes) by lia.
      rewrite list_lookup_imap, Hframe. reflexivity.
    + intros i image imageData Hid Helem.
      destruct (image_section_mock parseInt typeErrorMessage i image imageData Helem)
        as (semiLines & colorLines & comments & _ & _ & Hsection & Hlabel & _).
      rewrite Hsection, <-Hid.
      assert (Htake : length (take 2 (image_section parseInt typeErrorMessage i image))
                      = 2%nat) by reflexivity.
      rewrite lookup_app_r by lia. rewrite Htake.
      rewrite lookup_app_l; [exact Hlabel|].
      apply lookup_lt_Some in Hlabel. exact Hlabel.
Qed.

Lemma sequence_frames_name_images_witness :
  sequence_section (λ _, Some 7) (mkSequence "walk" [mkFrame "7" 3 2 10] true)
    !! 5%nat
  = Some (String tab ("dw" +:+ String tab "Image_007    ; キャラクタデータアドレス")).
Proof.
  apply (proj1 (proj2 (proj2 (sequence_frames_name_images (λ _, Some 7) "TypeError"
                                (mkSequence "walk" [mkFrame "7" 3 2 10] true)))
                  0%nat (mkFrame "7" 3 2 10) eq_refl)).
Defined.
